(** * Sports betting engine: calibration pipeline and risk engine

    Shallow embedding of [src/strategy.py] (class [BettingEngine]) and
    [src/model.py] (class [QuantModel]).

    Number model.  Python floats are modelled by exact numbers: rationals
    [Q] in [Strategy] (every operation there is field arithmetic,
    comparison and decimal rounding, so the embedding computes), reals [R]
    in [Model] (the Poisson mass function needs [exp]).  A NaN cell of a
    data frame is [None]. *)

From stdpp Require Import gmap strings list sorting.
From Stdlib Require Import ZArith QArith Qround Qabs Qpower Reals.
From Stdlib Require Import Lia Lra Lqa Psatz.

(** * Python primitives shared by the strategy code *)

Module Py.

Open Scope Q_scope.

(** [max(a, b)]: the first argument is kept unless the second is
    strictly greater. *)
Definition max (a b : Q) : Q := if Qlt_le_dec a b then b else a.

(** [min(a, b)]: the first argument is kept unless the second is
    strictly smaller. *)
Definition min (a b : Q) : Q := if Qlt_le_dec b a then b else a.

(** [abs(x)]. *)
Definition abs (x : Q) : Q := Qabs x.

(** Comparison operators on floats, as booleans. *)
Definition le (a b : Q) : bool := Qle_bool a b.
Definition lt (a b : Q) : bool := negb (Qle_bool b a).
Definition ge (a b : Q) : bool := Qle_bool b a.

(** [round(x, ndigits)]: nearest multiple of [10^-ndigits], ties going
    to the even neighbour. *)
Definition round_half_even (s : Q) : Z :=
  let fl := Qfloor s in
  match Qcompare (s - inject_Z fl) (1 # 2) with
  | Lt => fl
  | Gt => (fl + 1)%Z
  | Eq => if Z.even fl then fl else (fl + 1)%Z
  end.

Definition round (x : Q) (ndigits : nat) : Q :=
  let scale := inject_Z (10 ^ Z.of_nat ndigits) in
  inject_Z (round_half_even (x * scale)) / scale.

Lemma le_spec a b : le a b = true <-> a <= b.
Proof. unfold le. apply Qle_bool_iff. Qed.

Lemma ge_spec a b : ge a b = true <-> b <= a.
Proof. unfold ge. apply Qle_bool_iff. Qed.

Lemma lt_spec a b : lt a b = true <-> a < b.
Proof.
  unfold lt. rewrite negb_true_iff.
  destruct (Qle_bool b a) eqn:E.
  - apply Qle_bool_iff in E. split; [discriminate | intros H; lra].
  - split; [intros _ | reflexivity].
    destruct (Qlt_le_dec a b) as [H|H]; [exact H|].
    apply Qle_bool_iff in H. congruence.
Qed.

Lemma lt_false a b : lt a b = false <-> b <= a.
Proof.
  unfold lt. rewrite negb_false_iff. apply Qle_bool_iff.
Qed.

Lemma round_half_even_comp x y : x == y -> round_half_even x = round_half_even y.
Proof.
  intros Hxy. unfold round_half_even.
  rewrite (Qfloor_comp x y Hxy).
  assert (Hc : Qcompare (x - inject_Z (Qfloor y)) (1 # 2)
               = Qcompare (y - inject_Z (Qfloor y)) (1 # 2)).
  { apply Qcompare_comp; [rewrite Hxy|]; reflexivity. }
  rewrite Hc. reflexivity.
Qed.

(** Equal rationals round to the same decimal. *)
Lemma round_comp x y n : x == y -> round x n = round y n.
Proof.
  intros Hxy. unfold round.
  set (scale := inject_Z (10 ^ Z.of_nat n)).
  rewrite (round_half_even_comp (x * scale) (y * scale)); [reflexivity|].
  rewrite Hxy. reflexivity.
Qed.

End Py.

(** * strategy.py *)

Module Strategy.

Open Scope Q_scope.

(** ** Core calculations (static methods of [BettingEngine]) *)

Definition implied_probability (decimal_odds : Q) : Q :=
  if Py.le decimal_odds 1 then 1 else 1 / decimal_odds.

Definition expected_value (model_prob decimal_odds : Q) : Q :=
  model_prob * (decimal_odds - 1) - (1 - model_prob).

Definition kelly_stake (model_prob decimal_odds : Q) : Q :=
  let b := decimal_odds - 1 in
  if Py.le b 0 then 0
  else
    let q := 1 - model_prob in
    let f_star := (b * model_prob - q) / b in
    Py.max f_star 0.

Definition closing_line_value (model_prob closing_implied : Q) : Q :=
  model_prob - closing_implied.


(** ** Configuration ([BettingEngine.__init__]) *)

Record Config := {
  fractional_kelly : Q;
  min_ev_threshold : Q;
  min_prob_threshold : Q;
  min_odds : Q;
  max_stake_pct : Q;
  initial_bankroll : Q;
  clv_enabled : bool;
  stop_loss_consecutive : Z;
  disagreement_skip : Q;
  pairing_enabled : bool;
  prefer_cross_league : bool
}.

(** The defaults of the [.get(key, default)] calls of [__init__]. *)
Definition default_config : Config := {|
  fractional_kelly := 25 # 100;
  min_ev_threshold := 5 # 100;
  min_prob_threshold := 80 # 100;
  min_odds := 175 # 100;
  max_stake_pct := 3 # 100;
  initial_bankroll := 1000;
  clv_enabled := true;
  stop_loss_consecutive := 5;
  disagreement_skip := 20 # 100;
  pairing_enabled := true;
  prefer_cross_league := true
|}.

(** ** Data classes *)

Record BetRecommendation := {
  match_index : Z;
  home_team : string;
  away_team : string;
  date : string;
  bet_on : string;
  model_prob : Q;
  implied_prob_open : option Q;      (* [None]: NaN opening odds *)
  implied_prob_close : Q;
  edge : Q;
  ev : Q;
  kelly_fraction : Q;
  recommended_stake : Q;
  market_odds : Q;
  clv : Q;
  steam_signal : Z;
  passes_filtro_a : bool;
  passes_filtro_b : bool;
  league : string
}.

Record DoubleBet := {
  leg_1 : BetRecommendation;
  leg_2 : BetRecommendation;
  combined_prob : Q;
  combined_odds : Q;
  double_stake : Q                   (* [DoubleBet.recommended_stake] *)
}.

(** ** Doppio Filtro execution rules *)

Definition _check_filtro_a (cfg : Config) (model_prob : Q) : bool :=
  Py.ge model_prob (min_prob_threshold cfg).

Definition _check_filtro_b (steam : Z) (bet_on : string) : bool :=
  if String.eqb bet_on "over25" && Z.eqb steam (-1) then false
  else if String.eqb bet_on "under25" && Z.eqb steam 1 then false
  else true.

Definition _check_disagreement (cfg : Config) (model_prob implied_prob : Q)
  : bool :=
  Py.le (Py.abs (model_prob - implied_prob)) (disagreement_skip cfg).

(** ** The match table read by [analyse]

    [columns] is [df.columns], [index] is [df.index]; a float cell is
    [None] when it holds NaN.  [row.get(col, default)] answers the
    default exactly when the column is not in the table. *)

Record DataFrame := {
  columns : list string;
  index : list Z;
  fcell : Z -> string -> option Q;
  icell : Z -> string -> Z;
  scell : Z -> string -> string
}.

Definition has_column (df : DataFrame) (c : string) : bool :=
  existsb (String.eqb c) (columns df).

Definition row_get_float (df : DataFrame) (idx : Z) (c : string)
  (default : option Q) : option Q :=
  if has_column df c then fcell df idx c else default.

Definition row_get_int (df : DataFrame) (idx : Z) (c : string) (default : Z)
  : Z :=
  if has_column df c then icell df idx c else default.

Definition row_get_str (df : DataFrame) (idx : Z) (c : string)
  (default : string) : string :=
  if has_column df c then scell df idx c else default.

Definition isnan (x : option Q) : bool :=
  match x with None => true | Some _ => false end.

(** The calibrated probabilities [prob_df]. *)
Record ProbFrame := {
  prob_over25 : Z -> Q;
  prob_under25 : Z -> Q
}.

(** The two values taken by the loop variable [bet_on]. *)
Inductive Side := Over25 | Under25.

Definition side_name (s : Side) : string :=
  match s with Over25 => "over25" | Under25 => "under25" end.

Definition odds_map (s : Side) : string * string :=
  match s with
  | Over25 => ("over25_open_odds", "over25_close_odds")
  | Under25 => ("under25_open_odds", "under25_close_odds")
  end.

Definition prob_map (s : Side) (probs : ProbFrame) : Z -> Q :=
  match s with
  | Over25 => prob_over25 probs
  | Under25 => prob_under25 probs
  end.

Definition has_open (df : DataFrame) : bool :=
  forallb (has_column df) ["over25_open_odds"; "under25_open_odds"].

Definition has_close (df : DataFrame) : bool :=
  forallb (has_column df) ["over25_close_odds"; "under25_close_odds"].

(** "Determine odds to use": the [if / elif / else: continue] chain. *)
Definition select_odds (df : DataFrame) (idx : Z) (s : Side) : option Q :=
  let '(open_col, close_col) := odds_map s in
  if has_close df && negb (isnan (row_get_float df idx close_col None))
  then fcell df idx close_col
  else if has_open df && negb (isnan (row_get_float df idx open_col None))
  then fcell df idx open_col
  else None.

(** ** Evaluation log of the admission checks

    Each call of a check in the body of [analyse] is recorded, in call
    order, so that "which checks were evaluated for this candidate" is a
    value of the embedding. *)

Inductive Check :=
  FiltroA | FiltroB | OddsFloor | Disagreement | EVFloor.

(** The six [continue] statements of the candidate loop. *)
Inductive Exit :=
| NoUsableOdds        (* else: continue *)
| OddsNotTradable     (* market_odds <= 1.0 *)
| RejectedFiltro      (* not passes_a or not passes_b *)
| RejectedMinOdds     (* market_odds < min_odds *)
| RejectedDisagreement
| RejectedEV.

Inductive Decision :=
| Skipped (e : Exit)
| Accepted (r : BetRecommendation).

Definition Logged (A : Type) : Type := list Check -> A * list Check.

Definition ret {A} (a : A) : Logged A := fun log => (a, log).

Definition bind {A B} (m : Logged A) (k : A -> Logged B) : Logged B :=
  fun log => let '(a, log') := m log in k a log'.

Definition evaluated (c : Check) (b : bool) : Logged bool :=
  fun log => (b, log ++ [c]).

Definition run {A} (m : Logged A) : A * list Check := m [].

Notation "'do' x <- m ; k" := (bind m (fun x => k))
  (at level 10, x name, m at level 100, k at level 200).

(** The body of the inner [for bet_on in ("over25", "under25")] loop. *)
Definition analyse_candidate (cfg : Config) (df : DataFrame)
  (prob_df : ProbFrame) (idx : Z) (s : Side) : Logged Decision :=
  let steam := row_get_int df idx "steam_signal" 0 in
  let bet_on := side_name s in
  let model_prob := prob_map s prob_df idx in
  let '(open_col, close_col) := odds_map s in
  match select_odds df idx s with
  | None => ret (Skipped NoUsableOdds)
  | Some market_odds =>
    if Py.le market_odds 1 then ret (Skipped OddsNotTradable)
    else
      let open_odds := row_get_float df idx open_col (Some market_odds) in
      let close_odds := market_odds in
      let imp_open := option_map implied_probability open_odds in
      let imp_close := implied_probability close_odds in
      do passes_a <- evaluated FiltroA (_check_filtro_a cfg model_prob) ;
      do passes_b <- evaluated FiltroB (_check_filtro_b steam bet_on) ;
      if negb passes_a || negb passes_b then ret (Skipped RejectedFiltro)
      else
        do below <- evaluated OddsFloor (Py.lt market_odds (min_odds cfg)) ;
        if below then ret (Skipped RejectedMinOdds)
        else
          do agree <- evaluated Disagreement
                     (_check_disagreement cfg model_prob imp_close) ;
          if negb agree then ret (Skipped RejectedDisagreement)
          else
            let edge_ := model_prob - imp_close in
            let ev_ := expected_value model_prob market_odds in
            do low_ev <- evaluated EVFloor (Py.lt ev_ (min_ev_threshold cfg)) ;
            if low_ev then ret (Skipped RejectedEV)
            else
              let full_kelly := kelly_stake model_prob market_odds in
              let stake :=
                Py.min (full_kelly * fractional_kelly cfg)
                       (max_stake_pct cfg) in
              let clv_ := closing_line_value model_prob imp_close in
              ret (Accepted {|
                match_index := idx;
                home_team := row_get_str df idx "home_team" "";
                away_team := row_get_str df idx "away_team" "";
                date := row_get_str df idx "date" "";
                bet_on := bet_on;
                model_prob := Py.round model_prob 4;
                implied_prob_open :=
                  option_map (fun x => Py.round x 4) imp_open;
                implied_prob_close := Py.round imp_close 4;
                edge := Py.round edge_ 4;
                ev := Py.round ev_ 4;
                kelly_fraction := Py.round full_kelly 4;
                recommended_stake := Py.round stake 4;
                market_odds := market_odds;
                clv := Py.round clv_ 4;
                steam_signal := steam;
                passes_filtro_a := passes_a;
                passes_filtro_b := passes_b;
                league := row_get_str df idx "league" ""
              |})
  end.

(** [sorted(l, key=key, reverse=True)]: stable, descending. *)
Fixpoint insert_desc {A} (key : A -> Q) (x : A) (l : list A) : list A :=
  match l with
  | [] => [x]
  | y :: t =>
    if Py.le (key y) (key x) then x :: y :: t
    else y :: insert_desc key x t
  end.

Definition sorted_desc {A} (key : A -> Q) (l : list A) : list A :=
  foldr (insert_desc key) [] l.

Definition admitted_of (d : Decision) : list BetRecommendation :=
  match d with Accepted r => [r] | Skipped _ => [] end.

Definition analyse (cfg : Config) (df : DataFrame) (prob_df : ProbFrame)
  : list BetRecommendation :=
  let recommendations :=
    flat_map (fun idx =>
      flat_map (fun s =>
        admitted_of (fst (run (analyse_candidate cfg df prob_df idx s))))
        [Over25; Under25])
      (index df) in
  sorted_desc ev recommendations.

(** ** Pairing (doubles) *)

(** [for i in range(len(l) - 1, -1, -1): if f(l[i]): x = l.pop(i); break]:
    the entry of highest position satisfying [f] is removed. *)
Fixpoint pop_last_where {A} (f : A -> bool) (l : list A)
  : option (A * list A) :=
  match l with
  | [] => None
  | x :: t =>
    match pop_last_where f t with
    | Some (y, t') => Some (y, x :: t')
    | None => if f x then Some (x, t) else None
    end
  end.

(** [l.pop(-1)] on a non-empty list. *)
Fixpoint pop_back {A} (l : list A) : option (list A * A) :=
  match l with
  | [] => None
  | [x] => Some ([], x)
  | x :: t =>
    match pop_back t with
    | Some (t', y) => Some (x :: t', y)
    | None => None
    end
  end.

Definition make_double (cfg : Config) (best worst : BetRecommendation)
  : DoubleBet :=
  let combined_prob_ := model_prob best * model_prob worst in
  let combined_odds_ := market_odds best * market_odds worst in
  let full_kelly := kelly_stake combined_prob_ combined_odds_ in
  let stake :=
    Py.min (full_kelly * fractional_kelly cfg) (max_stake_pct cfg) in
  {| leg_1 := best;
     leg_2 := worst;
     combined_prob := Py.round combined_prob_ 4;
     combined_odds := Py.round combined_odds_ 2;
     double_stake := Py.round stake 4 |}.

(** The [while len(sorted_recs) >= 2] loop; [fuel] bounds the number of
    iterations, each of which removes at least two entries. *)
Fixpoint pair_loop (cfg : Config) (fuel : nat)
  (sorted_recs : list BetRecommendation) : list DoubleBet :=
  match fuel with
  | O => []
  | S fuel' =>
    match sorted_recs with
    | best :: after_best =>
      match pop_back after_best with
      | Some (rest, worst) =>
        let '(worst', rest') :=
          if prefer_cross_league cfg
             && String.eqb (league best) (league worst)
          then
            match pop_last_where
                    (fun r => negb (String.eqb (league r) (league best)))
                    rest with
            | Some (w, rest'') => (w, rest'')
            | None => (worst, rest)
            end
          else (worst, rest) in
        make_double cfg best worst' :: pair_loop cfg fuel' rest'
      | None => []
      end
    | [] => []
    end
  end.

Definition pair_doubles (cfg : Config) (recs : list BetRecommendation)
  : list DoubleBet :=
  if negb (pairing_enabled cfg) || (length recs <? 2)%nat then []
  else
    let sorted_recs := sorted_desc model_prob recs in
    pair_loop cfg (length sorted_recs) sorted_recs.

(** ** Bankroll simulation *)

Record LedgerEntry := {
  l_match_index : Z;
  l_date : string;
  l_bet_on : string;
  l_odds : Q;
  l_model_prob : Q;
  l_clv : Q;
  l_stake_pct : Q;
  l_wager : Q;
  l_won : bool;
  l_profit : Q;
  l_bankroll : Q
}.

Record SimState := {
  bankroll : Q;
  history : list LedgerEntry;
  consecutive_losses : Z
}.

Definition sim_init (cfg : Config) : SimState :=
  {| bankroll := initial_bankroll cfg;
     history := [];
     consecutive_losses := 0 |}.

Definition bet_won (rec : BetRecommendation) (actual_over : Z) : bool :=
  (String.eqb (bet_on rec) "over25" && Z.eqb actual_over 1)
  || (String.eqb (bet_on rec) "under25" && Z.eqb actual_over 0).

(** One settlement: the loop body after the two guards. *)
Definition settle (rec : BetRecommendation) (actual_over : Z)
  (st : SimState) : SimState :=
  let won := bet_won rec actual_over in
  let wager := bankroll st * recommended_stake rec in
  let profit := if won then wager * (market_odds rec - 1) else - wager in
  let bankroll' := bankroll st + profit in
  {| bankroll := bankroll';
     consecutive_losses :=
       if won then 0%Z else (consecutive_losses st + 1)%Z;
     history :=
       history st ++
       [{| l_match_index := match_index rec;
           l_date := date rec;
           l_bet_on := bet_on rec;
           l_odds := market_odds rec;
           l_model_prob := model_prob rec;
           l_clv := clv rec;
           l_stake_pct := recommended_stake rec;
           l_wager := Py.round wager 2;
           l_won := won;
           l_profit := Py.round profit 2;
           l_bankroll := Py.round bankroll' 2 |}] |}.

(** The [for rec in recs] loop: [break] on the stop-loss guard,
    [continue] on a match without realised outcome. *)
Fixpoint sim_loop (cfg : Config) (actuals : gmap Z Z)
  (recs : list BetRecommendation) (st : SimState) : SimState :=
  match recs with
  | [] => st
  | rec :: rest =>
    if (stop_loss_consecutive cfg <=? consecutive_losses st)%Z then st
    else
      match actuals !! match_index rec with
      | None => sim_loop cfg actuals rest st
      | Some actual_over =>
        sim_loop cfg actuals rest (settle rec actual_over st)
      end
  end.

(** [simulate_bankroll] returns the ledger; [simulate_state] also keeps
    the local variables [bankroll] and [consecutive_losses] as they are
    when the loop ends. *)
Definition simulate_state (cfg : Config) (recs : list BetRecommendation)
  (actuals : gmap Z Z) : SimState :=
  sim_loop cfg actuals recs (sim_init cfg).

Definition simulate_bankroll (cfg : Config) (recs : list BetRecommendation)
  (actuals : gmap Z Z) : list LedgerEntry :=
  history (simulate_state cfg recs actuals).

End Strategy.

(** * model.py *)

Module Model.

Open Scope R_scope.

(** ** Errors raised by the modelled code *)

Inductive Error :=
| RuntimeError (msg : string)
| ValueError (msg : string)
| AttributeError (msg : string).

Inductive Result (A : Type) :=
| Ok (a : A)
| Err (e : Error).

Arguments Ok {A} a.
Arguments Err {A} e.

(** ** External estimators

    The regressors, the meta-learner, the calibrator and the two metrics
    come from xgboost and scikit-learn; the pipeline only fits them and
    queries them, so they are an interface here.  Of the libraries'
    documented behaviour the interface keeps that every predictor
    returns one value per row it is given. *)

Class Estimators := {
  Params : Type;
  XGB : Type;
  xgb_fit : Params -> list (list R) -> list R -> XGB;
  xgb_predict : XGB -> list (list R) -> list R;
  xgb_importances : XGB -> list R;
  Logit : Type;
  logit_fit : list (list R) -> list Z -> Logit;
  logit_predict_proba1 : Logit -> list (list R) -> list R;
  Iso : Type;
  iso_fit : list R -> list Z -> Iso;
  iso_predict : Iso -> list R -> list R;
  brier_score_loss : list Z -> list R -> R;
  log_loss : list Z -> list R -> R;
  (* each [predict] returns an array of shape [(n_samples,)] *)
  xgb_predict_length :
    forall (b : XGB) (X : list (list R)), length (xgb_predict b X) = length X;
  logit_predict_proba1_length :
    forall (l : Logit) (X : list (list R)),
      length (logit_predict_proba1 l X) = length X;
  iso_predict_length :
    forall (c : Iso) (x : list R), length (iso_predict c x) = length x
}.

(** ** Numeric helpers *)

Definition sum_list (l : list R) : R := fold_right Rplus 0 l.

(** [np.mean] / [Series.mean]. *)
Definition mean (l : list R) : R := sum_list l / INR (length l).

(** [np.clip(x, lo, hi)]. *)
Definition clip (lo hi x : R) : R := Rmin (Rmax x lo) hi.

(** [scipy.stats.poisson.pmf(k, mu)]. *)
Definition poisson_pmf (k : nat) (mu : R) : R :=
  exp (- mu) * mu ^ k / INR (fact k).

(** [range(max_g + 1)] / [np.arange(max_g + 1)]. *)
Definition goal_range (max_g : Z) : list nat := seq 0 (Z.to_nat (max_g + 1)).

(** The test [(i + j) <= line] of the grid loop. *)
Definition within_line (i j : nat) (line : R) : bool :=
  if Rle_dec (INR (i + j)) line then true else false.

(** The double [for] loop accumulating [prob_under]. *)
Definition grid_under (line : R) (max_g : Z) (p_h p_a : list R) : R :=
  fold_left (fun acc i =>
    fold_left (fun acc j =>
      if within_line i j line then acc + nth i p_h 0 * nth j p_a 0
      else acc)
      (goal_range max_g) acc)
    (goal_range max_g) 0.

(** One iteration of the [for idx in range(n)] loop of
    [predict_totals]. *)
Definition over_probability (line : R) (max_g : Z) (home_xg away_xg : R)
  : R :=
  let lam_h := Rmax home_xg 0.01 in
  let lam_a := Rmax away_xg 0.01 in
  let p_h := map (fun k => poisson_pmf k lam_h) (goal_range max_g) in
  let p_a := map (fun k => poisson_pmf k lam_a) (goal_range max_g) in
  let prob_under := grid_under line max_g p_h p_a in
  1 - prob_under.

(** The under-mass as the documentation writes it: the sum, over all
    count pairs of the grid whose total is at most the line, of the
    product of the two Poisson masses. *)
Definition under_mass_spec (line : R) (max_g : Z) (lam_h lam_a : R) : R :=
  sum_list
    (map (fun ij => poisson_pmf (fst ij) lam_h * poisson_pmf (snd ij) lam_a)
       (List.filter (fun ij => within_line (fst ij) (snd ij) line)
          (list_prod (goal_range max_g) (goal_range max_g)))).

(** ** The model object *)

Record QuantModel `{Estimators} := {
  xgb_params : Params;
  ou_line : R;
  poisson_max : Z;
  ts_splits : Z;
  calibration_method : string;
  home_model : option XGB;
  away_model : option XGB;
  meta_model : option Logit;
  calibrator : option Iso;
  feature_cols : list string;
  _is_fitted : bool
}.

(** [QuantModel.__init__] with the defaults of its [.get] calls. *)
Definition init `{Estimators} (params : Params) : QuantModel := {|
  xgb_params := params;
  ou_line := 2.5;
  poisson_max := 10;
  ts_splits := 5;
  calibration_method := "isotonic";
  home_model := None;
  away_model := None;
  meta_model := None;
  calibrator := None;
  feature_cols := [];
  _is_fitted := false
|}.

(** ** The feature table

    [columns] is [df.columns]; [numeric] tells the numeric dtypes; a row
    gives the value of each numeric column and the integer label
    [over25]. *)

Record Row := {
  cell : string -> R;
  over25 : Z
}.

Record DataFrame := {
  columns : list string;
  numeric : string -> bool;
  rows : list Row
}.

Definition has_column (df : DataFrame) (c : string) : bool :=
  existsb (String.eqb c) (columns df).

(** [df[c].values]. *)
Definition column (df : DataFrame) (c : string) : list R :=
  map (fun r => cell r c) (rows df).

(** [df[features].values]. *)
Definition values (df : DataFrame) (features : list string)
  : list (list R) :=
  map (fun r => map (cell r) features) (rows df).

(** [df.iloc[idx]]. *)
Definition iloc (df : DataFrame) (idx : list nat) : DataFrame :=
  {| columns := columns df;
     numeric := numeric df;
     rows := omap (fun i => rows df !! i) idx |}.

(** [np.column_stack]. *)
Definition column_stack2 (a b : list R) : list (list R) :=
  zip_with (fun x y => [x; y]) a b.

Definition column_stack_more (m : list (list R)) (a b : list R)
  : list (list R) :=
  zip_with (fun row xy => row ++ [fst xy; snd xy]) m (zip a b).

(** [len(np.unique(y)) >= 2]. *)
Definition two_classes (y : list Z) : bool :=
  match y with
  | [] => false
  | c :: t => negb (forallb (Z.eqb c) t)
  end.

Section Pipeline.

Context `{E : Estimators}.

(** ** Poisson engine *)

Definition predict_totals (m : QuantModel) (home_xg away_xg : list R)
  : list R :=
  zip_with (over_probability (ou_line m) (poisson_max m)) home_xg away_xg.

(** The rate given to both sides by the baseline. *)
Definition baseline_rate (df : DataFrame) : R :=
  if has_column df "total_xg" then mean (column df "total_xg") / 2
  else 1.3.

Definition _poisson_baseline (m : QuantModel) (df : DataFrame) : list R :=
  let avg_xg := baseline_rate df in
  let home_lam := repeat avg_xg (length (rows df)) in
  let away_lam := repeat avg_xg (length (rows df)) in
  predict_totals m home_lam away_lam.

(** ** Feature resolution *)

Definition exclude : list string :=
  [ "date"; "home_team"; "away_team"; "result"; "season"; "league";
    "home_goals"; "away_goals"; "home_xg"; "away_xg";
    "home_xp"; "away_xp"; "home_pts"; "away_pts";
    "total_goals"; "total_xg"; "over25";
    "over25_open_odds"; "under25_open_odds";
    "over25_close_odds"; "under25_close_odds";
    "liquidity" ].

Definition _resolve_features (m : QuantModel) (df : DataFrame)
  : list string :=
  match feature_cols m with
  | _ :: _ => feature_cols m
  | [] =>
    List.filter (fun c => negb (existsb (String.eqb c) exclude))
      (List.filter (numeric df) (columns df))
  end.

(** The secondary feature matrix of level 2. *)
Definition meta_matrix (df : DataFrame) (prob_xg prob_poisson : list R)
  : list (list R) :=
  let meta_features := column_stack2 prob_xg prob_poisson in
  if has_column df "market_momentum_over"
  then column_stack_more meta_features
         (column df "market_momentum_over") (column df "steam_signal")
  else meta_features.

(** ** Fit

    [fit] gives the model object as the method leaves it when it
    returns.  On a table whose labels hold a single class the logistic
    regression of level 2 raises instead, as it does in a fold of
    [evaluate] below. *)

Definition fit (m : QuantModel) (df : DataFrame) : QuantModel :=
  let features := _resolve_features m df in
  let X := values df features in
  let y_home := column df "home_goals" in
  let y_away := column df "away_goals" in
  let y_over := map over25 (rows df) in
  let hm := xgb_fit (xgb_params m) X y_home in
  let am := xgb_fit (xgb_params m) X y_away in
  let pred_home_xg := xgb_predict hm X in
  let pred_away_xg := xgb_predict am X in
  let prob_xg := predict_totals m pred_home_xg pred_away_xg in
  let prob_poisson := _poisson_baseline m df in
  let meta_features := meta_matrix df prob_xg prob_poisson in
  let mm := logit_fit meta_features y_over in
  let raw_probs := logit_predict_proba1 mm meta_features in
  let iso := iso_fit raw_probs y_over in
  {| xgb_params := xgb_params m;
     ou_line := ou_line m;
     poisson_max := poisson_max m;
     ts_splits := ts_splits m;
     calibration_method := calibration_method m;
     home_model := Some hm;
     away_model := Some am;
     meta_model := Some mm;
     calibrator := Some iso;
     feature_cols := features;
     _is_fitted := true |}.

(** ** Predict *)

Record Probabilities := {
  prob_over25 : list R;
  prob_under25 : list R;
  pred_home_xg : list R;
  pred_away_xg : list R;
  pred_total_xg : list R
}.

Definition none_has_no (attr : string) : Error :=
  AttributeError ("'NoneType' object has no attribute '" ++ attr ++ "'").

Definition predict_proba (m : QuantModel) (df : DataFrame)
  : Result Probabilities :=
  if negb (_is_fitted m)
  then Err (RuntimeError "Model not fitted. Call .fit() first.")
  else
    let X := values df (feature_cols m) in
    match home_model m, away_model m with
    | Some hm, Some am =>
      let pred_home := xgb_predict hm X in
      let pred_away := xgb_predict am X in
      let prob_xg := predict_totals m pred_home pred_away in
      let prob_poisson := _poisson_baseline m df in
      let meta_features := meta_matrix df prob_xg prob_poisson in
      match meta_model m with
      | Some mm =>
        let raw_probs := logit_predict_proba1 mm meta_features in
        match calibrator m with
        | Some iso =>
          let calibrated := map (clip 0.01 0.99) (iso_predict iso raw_probs) in
          Ok {| prob_over25 := calibrated;
                prob_under25 := map (fun c => 1 - c) calibrated;
                pred_home_xg := pred_home;
                pred_away_xg := pred_away;
                pred_total_xg := zip_with Rplus pred_home pred_away |}
        | None => Err (none_has_no "predict")
        end
      | None => Err (none_has_no "predict_proba")
      end
    | _, _ => Err (none_has_no "predict")
    end.

(** ** Evaluate *)

(** scikit-learn's [TimeSeriesSplit(n_splits).split(X)] with its default
    gap and test size: [n_splits] at least 2, more samples than splits,
    and fold [k] tests on the [test_size] rows that follow its training
    prefix. *)
Definition time_series_split (n_splits : Z) (n_samples : nat)
  : Result (list (list nat * list nat)) :=
  if (n_splits <=? 1)%Z
  then Err (ValueError "k-fold cross-validation requires at least one train/test split by setting n_splits=2 or more")
  else
    let k := Z.to_nat n_splits in
    let n_folds := S k in
    if (n_samples <? n_folds)%nat
    then Err (ValueError "Cannot have number of folds greater than the number of samples")
    else
      let test_size := (n_samples / n_folds)%nat in
      let first := (n_samples - k * test_size)%nat in
      Ok (map (fun f =>
                 let test_start := (first + f * test_size)%nat in
                 (seq 0 test_start, seq test_start test_size))
              (seq 0 k)).

(** The two baseline columns of one fold. *)
Definition tr_prob_poi (m : QuantModel) (df : DataFrame)
  (train_idx : list nat) : list R :=
  _poisson_baseline m (iloc df train_idx).

Definition te_prob_poi (m : QuantModel) (df : DataFrame)
  (test_idx : list nat) : list R :=
  _poisson_baseline m (iloc df test_idx).

(** [LogisticRegression.fit(X, y)] as the fold loop meets it:
    scikit-learn raises a [ValueError] unless [np.unique(y)] holds at
    least two classes. *)
Definition logistic_regression_fit (X : list (list R)) (y : list Z)
  : Result Logit :=
  if two_classes y then Ok (logit_fit X y)
  else Err (ValueError "This solver needs samples of at least 2 classes in the data, but the data contains only one class").

(** [sklearn.metrics.log_loss(y_true, y_pred)] without [labels]:
    scikit-learn raises a [ValueError] when [y_true] holds a single
    label. *)
Definition metrics_log_loss (y_true : list Z) (y_pred : list R) : Result R :=
  if two_classes y_true then Ok (log_loss y_true y_pred)
  else Err (ValueError "y_true contains only one label. Please provide the true labels explicitly through the labels argument.").

(** The body of the fold loop: the fold's Brier score and log loss, or
    the exception that a library call of the fold raises. *)
Definition cv_fold (m : QuantModel) (df : DataFrame)
  (features : list string) (fold : list nat * list nat) : Result (R * R) :=
  let '(train_idx, test_idx) := fold in
  let df_tr := iloc df train_idx in
  let df_te := iloc df test_idx in
  let X_tr := values df_tr features in
  let X_te := values df_te features in
  let yh_tr := column df_tr "home_goals" in
  let ya_tr := column df_tr "away_goals" in
  let yo_tr := map over25 (rows df_tr) in
  let yo_te := map over25 (rows df_te) in
  let hm := xgb_fit (xgb_params m) X_tr yh_tr in
  let am := xgb_fit (xgb_params m) X_tr ya_tr in
  let tr_prob_xg :=
    predict_totals m (xgb_predict hm X_tr) (xgb_predict am X_tr) in
  let tr_meta := meta_matrix df_tr tr_prob_xg (tr_prob_poi m df train_idx) in
  let te_prob_xg :=
    predict_totals m (xgb_predict hm X_te) (xgb_predict am X_te) in
  let te_meta := meta_matrix df_te te_prob_xg (te_prob_poi m df test_idx) in
  match logistic_regression_fit tr_meta yo_tr with
  | Err e => Err e
  | Ok mm =>
    let raw_tr := logit_predict_proba1 mm tr_meta in
    let raw_te := logit_predict_proba1 mm te_meta in
    let iso := iso_fit raw_tr yo_tr in
    let cal_te := map (clip 0.01 0.99) (iso_predict iso raw_te) in
    let bs := brier_score_loss yo_te cal_te in
    match metrics_log_loss yo_te cal_te with
    | Err e => Err e
    | Ok ll => Ok (bs, ll)
    end
  end.

(** The [for ... in tscv.split(X)] loop: the scores of the folds in
    order; the first exception ends the loop. *)
Fixpoint cv_folds (m : QuantModel) (df : DataFrame)
  (features : list string) (folds : list (list nat * list nat))
  : Result (list (R * R)) :=
  match folds with
  | [] => Ok []
  | fold :: later =>
    match cv_fold m df features fold with
    | Err e => Err e
    | Ok score =>
      match cv_folds m df features later with
      | Err e => Err e
      | Ok scores => Ok (score :: scores)
      end
    end
  end.

Record Metrics := {
  brier_score : R;
  mean_log_loss : R
}.

Definition evaluate (m : QuantModel) (df : DataFrame) : Result Metrics :=
  let features := _resolve_features m df in
  let X := values df features in
  match time_series_split (ts_splits m) (length X) with
  | Err e => Err e
  | Ok folds =>
    match cv_folds m df features folds with
    | Err e => Err e
    | Ok scores =>
      Ok {| brier_score := mean (map fst scores);
            mean_log_loss := mean (map snd scores) |}
    end
  end.

(** ** Feature importance *)

(** [sort_values("importance", ascending=False)]. *)
Fixpoint insert_by_importance (x : string * R) (l : list (string * R))
  : list (string * R) :=
  match l with
  | [] => [x]
  | y :: t =>
    if Rle_dec (snd y) (snd x) then x :: y :: t
    else y :: insert_by_importance x t
  end.

Definition get_feature_importance (m : QuantModel)
  : Result (list (string * R)) :=
  if negb (_is_fitted m) then Err (RuntimeError "Model not fitted.")
  else
    match home_model m, away_model m with
    | Some hm, Some am =>
      let imp_h := xgb_importances hm in
      let imp_a := xgb_importances am in
      let avg_imp := zip_with (fun a b => (a + b) / 2) imp_h imp_a in
      Ok (foldr insert_by_importance [] (zip (feature_cols m) avg_imp))
    | _, _ => Err (none_has_no "feature_importances_")
    end.

End Pipeline.

End Model.

(** * Properties of the staking functions *)

Section KellyFacts.

Open Scope Q_scope.

Import Strategy.

(** The unfloored Kelly fraction [(b*p - q) / b]. *)
Definition f_star (p odds : Q) : Q :=
  ((odds - 1) * p - (1 - p)) / (odds - 1).

Lemma kelly_stake_unfold p odds :
  1 < odds -> kelly_stake p odds = Py.max (f_star p odds) 0.
Proof.
  intros Hodds. unfold kelly_stake, f_star.
  destruct (Py.le (odds - 1) 0) eqn:Hb; [|reflexivity].
  apply Py.le_spec in Hb. lra.
Qed.

Lemma kelly_stake_low_odds p odds :
  odds <= 1 -> kelly_stake p odds = 0.
Proof.
  intros Hodds. unfold kelly_stake.
  destruct (Py.le (odds - 1) 0) eqn:Hb; [reflexivity|].
  assert (Py.le (odds - 1) 0 = true) by (apply Py.le_spec; lra).
  congruence.
Qed.

Lemma f_star_times_b p odds :
  1 < odds -> f_star p odds * (odds - 1) == (odds - 1) * p - (1 - p).
Proof.
  intros Hodds. unfold f_star. field. lra.
Qed.

Lemma f_star_nonpos p odds :
  1 < odds -> p * (odds - 1) <= 1 - p -> f_star p odds <= 0.
Proof.
  intros Hodds Hedge.
  pose proof (f_star_times_b p odds Hodds) as Hf.
  destruct (Qlt_le_dec 0 (f_star p odds)) as [Hpos|Hle]; [|exact Hle].
  exfalso. nra.
Qed.

Lemma f_star_pos p odds :
  1 < odds -> 1 - p < p * (odds - 1) -> 0 < f_star p odds.
Proof.
  intros Hodds Hedge.
  pose proof (f_star_times_b p odds Hodds) as Hf.
  destruct (Qlt_le_dec 0 (f_star p odds)) as [Hpos|Hle]; [exact Hpos|].
  exfalso. nra.
Qed.

Lemma f_star_increasing p1 p2 odds :
  1 < odds -> p1 < p2 -> f_star p1 odds < f_star p2 odds.
Proof.
  intros Hodds Hp.
  pose proof (f_star_times_b p1 odds Hodds) as H1.
  pose proof (f_star_times_b p2 odds Hodds) as H2.
  destruct (Qlt_le_dec (f_star p1 odds) (f_star p2 odds)) as [Hlt|Hle];
    [exact Hlt|].
  exfalso. nra.
Qed.

Lemma py_max_0_cases x :
  (x <= 0 /\ Py.max x 0 == 0) \/ (0 < x /\ Py.max x 0 = x).
Proof.
  unfold Py.max. destruct (Qlt_le_dec x 0) as [H|H].
  - left. split; [lra | reflexivity].
  - destruct (Qlt_le_dec 0 x) as [H'|H'].
    + right. split; [exact H' | reflexivity].
    + left. split; [exact H' | lra].
Qed.

End KellyFacts.

Section KellyClaims.

Open Scope Q_scope.

Import Strategy.

(** C4 (as stated, refuted): at odds 2 the stakes for [p = 1/10] and
    [p = 2/10] are both the floor 0, so [kelly_stake] is not strictly
    increasing in [p] for a fixed [odds > 1]. *)
Lemma kelly_stake_not_strictly_increasing :
  1 < 2 /\ (1 # 10) < (2 # 10) /\
  ~ (kelly_stake (1 # 10) 2 < kelly_stake (2 # 10) 2).
Proof.
  split; [reflexivity|]. split; [reflexivity|].
  vm_compute. intros H. discriminate H.
Qed.

(** C4 (amended): [kelly_stake p odds] is 0 whenever
    [p*(odds-1) <= 1-p], whatever the odds; for fixed [odds > 1] it is
    non-decreasing in [p], and strictly increasing as soon as the larger
    probability has a positive edge. *)
Theorem kelly_stake_zero_and_monotone (p1 p2 odds : Q) :
  (p1 * (odds - 1) <= 1 - p1 -> kelly_stake p1 odds == 0) /\
  (1 < odds -> p1 < p2 -> kelly_stake p1 odds <= kelly_stake p2 odds) /\
  (1 < odds -> p1 < p2 -> 1 - p2 < p2 * (odds - 1) ->
     kelly_stake p1 odds < kelly_stake p2 odds).
Proof.
  split; [|split].
  - intros Hedge.
    destruct (Qlt_le_dec 1 odds) as [Hodds|Hodds].
    + rewrite kelly_stake_unfold by exact Hodds.
      pose proof (f_star_nonpos p1 odds Hodds Hedge) as Hf.
      destruct (py_max_0_cases (f_star p1 odds)) as [[_ H0]|[Hpos _]];
        [exact H0 | lra].
    + rewrite kelly_stake_low_odds by exact Hodds. reflexivity.
  - intros Hodds Hp.
    rewrite !kelly_stake_unfold by exact Hodds.
    pose proof (f_star_increasing p1 p2 odds Hodds Hp) as Hinc.
    destruct (py_max_0_cases (f_star p1 odds)) as [[Ha Ea]|[Ha Ea]];
      destruct (py_max_0_cases (f_star p2 odds)) as [[Hb Eb]|[Hb Eb]];
      rewrite ?Ea, ?Eb; lra.
  - intros Hodds Hp Hedge.
    rewrite !kelly_stake_unfold by exact Hodds.
    pose proof (f_star_increasing p1 p2 odds Hodds Hp) as Hinc.
    pose proof (f_star_pos p2 odds Hodds Hedge) as Hpos.
    destruct (py_max_0_cases (f_star p1 odds)) as [[Ha Ea]|[Ha Ea]];
      destruct (py_max_0_cases (f_star p2 odds)) as [[Hb Eb]|[Hb Eb]];
      rewrite ?Ea, ?Eb; lra.
Qed.

(** The amended C4 at [p1 = 1/4], [p2 = 3/4], [odds = 2]. *)
Lemma kelly_stake_zero_and_monotone_witness :
  kelly_stake (1 # 4) 2 == 0 /\
  kelly_stake (1 # 4) 2 <= kelly_stake (3 # 4) 2 /\
  kelly_stake (1 # 4) 2 < kelly_stake (3 # 4) 2.
Proof.
  destruct (kelly_stake_zero_and_monotone (1 # 4) (3 # 4) 2)
    as (Hzero & Hmono & Hstrict).
  split; [apply Hzero; vm_compute; discriminate|].
  split; [apply Hmono; reflexivity|].
  apply Hstrict; reflexivity.
Defined.

End KellyClaims.

(** * The bankroll simulation *)

Section BankrollFacts.

Open Scope Q_scope.

Import Strategy.

Variable cfg : Config.
Variable actuals : gmap Z Z.

Definition stopped (st : SimState) : Prop :=
  (stop_loss_consecutive cfg <= consecutive_losses st)%Z.

Lemma sim_loop_stopped recs st :
  stopped st -> sim_loop cfg actuals recs st = st.
Proof.
  unfold stopped. intros Hstop. destruct recs as [|rec rest]; [reflexivity|].
  simpl. destruct (Z.leb_spec (stop_loss_consecutive cfg)
                     (consecutive_losses st)); [reflexivity | lia].
Qed.

Lemma sim_loop_running rec rest st :
  ~ stopped st ->
  sim_loop cfg actuals (rec :: rest) st =
  match actuals !! match_index rec with
  | None => sim_loop cfg actuals rest st
  | Some actual_over =>
    sim_loop cfg actuals rest (settle rec actual_over st)
  end.
Proof.
  unfold stopped. intros Hrun. simpl.
  destruct (Z.leb_spec (stop_loss_consecutive cfg)
              (consecutive_losses st)); [lia | reflexivity].
Qed.

Lemma stopped_dec st : {stopped st} + {~ stopped st}.
Proof. unfold stopped. apply Z_le_dec. Qed.

(** The loop over a concatenation is the loop over the second part
    started where the loop over the first part ended: after a [break]
    the remaining iterations change nothing. *)
Lemma sim_loop_app pre post st :
  sim_loop cfg actuals (pre ++ post) st =
  sim_loop cfg actuals post (sim_loop cfg actuals pre st).
Proof.
  revert st. induction pre as [|rec pre IH]; intros st; [reflexivity|].
  destruct (stopped_dec st) as [Hs|Hr].
  - rewrite (sim_loop_stopped (rec :: pre) st Hs).
    rewrite (sim_loop_stopped ((rec :: pre) ++ post) st Hs).
    symmetry. apply sim_loop_stopped. exact Hs.
  - change ((rec :: pre) ++ post) with (rec :: (pre ++ post)).
    rewrite !sim_loop_running by exact Hr.
    destruct (actuals !! match_index rec); apply IH.
Qed.

Lemma settle_history_length rec a st :
  length (history (settle rec a st)) = S (length (history st)).
Proof. unfold settle. simpl. rewrite length_app. simpl. lia. Qed.

Lemma sim_loop_history_length recs st :
  (length (history (sim_loop cfg actuals recs st))
   <= length (history st) + length recs)%nat.
Proof.
  revert st. induction recs as [|rec rest IH]; intros st; simpl; [lia|].
  destruct (stop_loss_consecutive cfg <=? consecutive_losses st)%Z; [lia|].
  destruct (actuals !! match_index rec) as [a|].
  - specialize (IH (settle rec a st)).
    rewrite settle_history_length in IH. lia.
  - specialize (IH st). lia.
Qed.

(** The last row of the ledger reports the running bankroll, rounded to
    two decimals. *)
Definition ledger_reports_bankroll (st : SimState) : Prop :=
  match last (history st) with
  | None => True
  | Some e => l_bankroll e = Py.round (bankroll st) 2
  end.

Lemma settle_reports_bankroll rec a st :
  ledger_reports_bankroll (settle rec a st).
Proof.
  unfold ledger_reports_bankroll, settle. simpl.
  rewrite last_snoc. reflexivity.
Qed.

Lemma sim_loop_reports_bankroll recs st :
  ledger_reports_bankroll st ->
  ledger_reports_bankroll (sim_loop cfg actuals recs st).
Proof.
  revert st. induction recs as [|rec rest IH]; intros st Hst; simpl;
    [exact Hst|].
  destruct (stop_loss_consecutive cfg <=? consecutive_losses st)%Z;
    [exact Hst|].
  destruct (actuals !! match_index rec) as [a|].
  - apply IH. apply settle_reports_bankroll.
  - apply IH. exact Hst.
Qed.

(** A losing settlement at stake fraction [s]. *)
Lemma settle_loss rec a st :
  bet_won rec a = false ->
  bankroll (settle rec a st) == bankroll st * (1 - recommended_stake rec) /\
  consecutive_losses (settle rec a st) = (consecutive_losses st + 1)%Z.
Proof.
  intros Hlost. unfold settle. rewrite Hlost. simpl. split; [ring | reflexivity].
Qed.

(** A bet of the scenario of C8: resolved, lost, staked at [s]. *)
Definition loses_at (s : Q) (rec : BetRecommendation) : Prop :=
  recommended_stake rec == s /\
  exists a, actuals !! match_index rec = Some a /\ bet_won rec a = false.

(** A run of losing bets that stays below the stop-loss threshold until
    its last settlement: every bet is settled, the bankroll decays
    geometrically and the counter counts them. *)
Lemma sim_loop_losing_run s losers st :
  Forall (loses_at s) losers ->
  (consecutive_losses st + Z.of_nat (length losers)
   <= stop_loss_consecutive cfg)%Z ->
  ~ 1 - s == 0 ->
  let st' := sim_loop cfg actuals losers st in
  bankroll st' == bankroll st * (1 - s) ^ Z.of_nat (length losers) /\
  consecutive_losses st' =
    (consecutive_losses st + Z.of_nat (length losers))%Z /\
  length (history st') = (length (history st) + length losers)%nat.
Proof.
  intros Hall. revert st.
  induction Hall as [|rec rest [Hs (a & Ha & Hlost)] _ IH];
    intros st Hroom Hnz; cbv zeta.
  - simpl. split; [|split]; [ring | lia | lia].
  - assert (Hrun : ~ stopped st).
    { unfold stopped. simpl length in Hroom. lia. }
    rewrite sim_loop_running by exact Hrun. rewrite Ha.
    destruct (settle_loss rec a st Hlost) as [Hb Hc].
    specialize (IH (settle rec a st)). cbv zeta in IH.
    destruct IH as (IHb & IHc & IHl).
    { rewrite Hc. simpl length in Hroom. lia. }
    { exact Hnz. }
    split; [|split].
    + rewrite IHb, Hb, Hs.
      replace (Z.of_nat (length (rec :: rest)))
        with (1 + Z.of_nat (length rest))%Z by (simpl length; lia).
      rewrite Qpower_plus by exact Hnz. rewrite Qpower_1_r. ring.
    + rewrite IHc, Hc. simpl length. lia.
    + rewrite IHl, settle_history_length. simpl length. lia.
Qed.

(** Every row that such a run adds to the ledger is a lost bet. *)
Lemma sim_loop_losing_rows s losers st :
  Forall (loses_at s) losers ->
  (consecutive_losses st + Z.of_nat (length losers)
   <= stop_loss_consecutive cfg)%Z ->
  Forall (fun e => l_won e = false) (history st) ->
  Forall (fun e => l_won e = false)
    (history (sim_loop cfg actuals losers st)).
Proof.
  intros Hall. revert st.
  induction Hall as [|rec rest [Hs (a & Ha & Hlost)] _ IH];
    intros st Hroom Hrows; [exact Hrows|].
  assert (Hrun : ~ stopped st).
  { unfold stopped. simpl length in Hroom. lia. }
  rewrite sim_loop_running by exact Hrun. rewrite Ha.
  destruct (settle_loss rec a st Hlost) as [_ Hc].
  apply IH.
  - rewrite Hc. simpl length in Hroom. lia.
  - unfold settle. simpl history. apply Forall_app. split; [exact Hrows|].
    constructor; [|constructor]. simpl. exact Hlost.
Qed.

End BankrollFacts.

(** ** Concrete bets for the scenarios *)

Module Scenario.

Import Strategy.

Open Scope Q_scope.

(** A recommendation on match [idx] for [side] at stake fraction [stake]
    and decimal odds [odds], in league [lg], with calibrated probability
    [p]; the remaining fields are left at the dataclass defaults. *)
Definition bet (idx : Z) (side : Side) (p stake odds : Q) (lg : string)
  : BetRecommendation := {|
  match_index := idx;
  home_team := "";
  away_team := "";
  date := "";
  bet_on := side_name side;
  model_prob := p;
  implied_prob_open := Some 0;
  implied_prob_close := 0;
  edge := 0;
  ev := 0;
  kelly_fraction := 0;
  recommended_stake := stake;
  market_odds := odds;
  clv := 0;
  steam_signal := 0;
  passes_filtro_a := true;
  passes_filtro_b := true;
  league := lg
|}.

(** Five "over" bets at 3 % on matches 1..5, all of which finished
    under the line, then one more bet on match 6. *)
Definition five_losers : list BetRecommendation :=
  map (fun idx => bet idx Over25 (85 # 100) (3 # 100) 2 "A")
      [1; 2; 3; 4; 5]%Z.

Definition sixth_bet : BetRecommendation :=
  bet 6 Over25 (85 # 100) (3 # 100) 2 "A".

Definition winning_bet : BetRecommendation :=
  bet 1 Under25 (85 # 100) (3 # 100) 2 "A".

Definition unresolved_bet : BetRecommendation :=
  bet 99 Over25 (85 # 100) (3 # 100) 2 "A".

Definition outcomes : gmap Z Z :=
  list_to_map [(1, 0); (2, 0); (3, 0); (4, 0); (5, 0); (6, 1)]%Z.

(** The [bankroll] column of the last row of the returned ledger. *)
Definition final_ledger_bankroll (ledger : list LedgerEntry) : option Q :=
  option_map l_bankroll (last ledger).

End Scenario.

Section BankrollClaims.

Open Scope Q_scope.

Import Strategy.

(** C7: in [simulate_bankroll] (i) the ledger is never longer than the
    bet list; (ii) once the consecutive-loss counter has reached the
    stop-loss threshold, whatever bets follow leave the whole state, and
    so the ledger, as it is; (iii) a winning settlement leaves the
    counter at 0; (iv) a bet whose match has no realised outcome can be
    removed from the list without changing counter, bankroll or
    ledger. *)
Theorem simulate_bankroll_stop_loss_discipline
  (cfg : Config) (actuals : gmap Z Z) :
  (forall recs,
     (length (simulate_bankroll cfg recs actuals) <= length recs)%nat) /\
  (forall pre post,
     (stop_loss_consecutive cfg
      <= consecutive_losses (simulate_state cfg pre actuals))%Z ->
     simulate_state cfg (pre ++ post) actuals
     = simulate_state cfg pre actuals) /\
  (forall pre rec a,
     (consecutive_losses (simulate_state cfg pre actuals)
      < stop_loss_consecutive cfg)%Z ->
     actuals !! match_index rec = Some a ->
     bet_won rec a = true ->
     consecutive_losses (simulate_state cfg (pre ++ [rec]) actuals) = 0%Z) /\
  (forall pre rec post,
     actuals !! match_index rec = None ->
     simulate_state cfg (pre ++ rec :: post) actuals
     = simulate_state cfg (pre ++ post) actuals).
Proof.
  unfold simulate_bankroll, simulate_state. repeat split.
  - intros recs.
    pose proof (sim_loop_history_length cfg actuals recs (sim_init cfg)) as H.
    simpl in H. exact H.
  - intros pre post Hstop. rewrite sim_loop_app.
    apply sim_loop_stopped. exact Hstop.
  - intros pre rec a Hrun Ha Hwon. rewrite sim_loop_app.
    rewrite sim_loop_running by (unfold stopped; lia).
    rewrite Ha. simpl. rewrite Hwon. reflexivity.
  - intros pre rec post Hnone. rewrite !sim_loop_app.
    set (st := sim_loop cfg actuals pre (sim_init cfg)).
    destruct (stopped_dec cfg st) as [Hs|Hr].
    + rewrite !sim_loop_stopped by exact Hs. reflexivity.
    + rewrite sim_loop_running by exact Hr. rewrite Hnone. reflexivity.
Qed.

(** C7 on the scenario: five losses reach the threshold 5, so a sixth
    bet changes nothing; a win from the start leaves the counter at 0; a
    bet on the unknown match 99 is without effect. *)
Lemma simulate_bankroll_stop_loss_discipline_witness :
  simulate_state default_config
    (Scenario.five_losers ++ [Scenario.sixth_bet]) Scenario.outcomes
  = simulate_state default_config Scenario.five_losers Scenario.outcomes /\
  consecutive_losses
    (simulate_state default_config ([] ++ [Scenario.winning_bet])
       Scenario.outcomes) = 0%Z /\
  simulate_state default_config
    ([] ++ Scenario.unresolved_bet :: Scenario.five_losers) Scenario.outcomes
  = simulate_state default_config ([] ++ Scenario.five_losers)
      Scenario.outcomes.
Proof.
  destruct (simulate_bankroll_stop_loss_discipline
              default_config Scenario.outcomes)
    as (_ & Hhalt & Hwin & Hskip).
  split; [|split].
  - apply Hhalt. apply Z.leb_le. vm_compute. reflexivity.
  - apply (Hwin [] Scenario.winning_bet 0%Z).
    + apply Z.ltb_lt. vm_compute. reflexivity.
    + vm_compute. reflexivity.
    + vm_compute. reflexivity.
  - apply Hskip. vm_compute. reflexivity.
Defined.

(** C8 (as stated, refuted): after the five 3 % losses the final
    bankroll that the simulation returns, the bankroll column of the
    last ledger row, is 858.73, which is not greater than
    [1000 * 0.97^5] = 858.7340257. *)
Lemma five_losses_bankroll_not_above_bound :
  Scenario.final_ledger_bankroll
    (simulate_bankroll default_config Scenario.five_losers
       Scenario.outcomes) = Some (85873 # 100) /\
  ~ (1000 * (97 # 100) ^ 5 < 85873 # 100).
Proof.
  split.
  - vm_compute. reflexivity.
  - vm_compute. intros H. discriminate H.
Qed.

(** C8 (amended): with bankroll 1000 and stop-loss 5, five resolved
    losing bets staked at 3 % settle one after the other on the decaying
    bankroll; whatever bets follow, the ledger keeps exactly these five
    entries, all of them lost; the running bankroll ends below 1000, and
    the final bankroll that the simulation returns is the running
    bankroll rounded to two decimals, 858.73, which is below 1000 and
    below [1000 * 0.97^5], by less than half a cent. *)
Theorem five_losses_halt_and_decay
  (cfg : Config) (actuals : gmap Z Z)
  (losers post : list BetRecommendation) :
  initial_bankroll cfg == 1000 ->
  stop_loss_consecutive cfg = 5%Z ->
  length losers = 5%nat ->
  Forall (loses_at actuals (3 # 100)) losers ->
  let st := simulate_state cfg (losers ++ post) actuals in
  st = simulate_state cfg losers actuals /\
  length (history st) = 5%nat /\
  Forall (fun e => l_won e = false) (history st) /\
  consecutive_losses st = 5%Z /\
  bankroll st < 1000 /\
  exists reported,
    Scenario.final_ledger_bankroll (simulate_bankroll cfg (losers ++ post)
                                      actuals) = Some reported /\
    reported = Py.round (bankroll st) 2 /\
    reported == 85873 # 100 /\
    reported < 1000 /\
    reported < 1000 * (97 # 100) ^ 5 /\
    1000 * (97 # 100) ^ 5 - (1 # 200) < reported.
Proof.
  intros Hinit Hstop Hlen Hall. cbv zeta.
  pose proof (sim_loop_losing_run cfg actuals (3 # 100) losers
                (sim_init cfg) Hall) as Hrun.
  cbv zeta in Hrun. simpl (consecutive_losses (sim_init cfg)) in Hrun.
  simpl (history (sim_init cfg)) in Hrun.
  simpl (bankroll (sim_init cfg)) in Hrun.
  rewrite Hlen in Hrun.
  destruct Hrun as (Hb & Hc & Hl); [lia | intros H; discriminate H |].
  assert (Heq : simulate_state cfg (losers ++ post) actuals
                = simulate_state cfg losers actuals).
  { unfold simulate_state. rewrite sim_loop_app.
    apply sim_loop_stopped. unfold stopped. lia. }
  unfold simulate_bankroll. rewrite Heq. unfold simulate_state.
  split; [reflexivity|]. split; [exact Hl|].
  split.
  { pose proof (sim_loop_losing_rows cfg actuals (3 # 100) losers
                  (sim_init cfg) Hall) as Hrows.
    simpl (history (sim_init cfg)) in Hrows. apply Hrows; [|constructor].
    simpl. lia. }
  split; [exact Hc|].
  assert (Hval : bankroll (sim_loop cfg actuals losers (sim_init cfg))
                 == 1000 * (97 # 100) ^ 5).
  { rewrite Hb, Hinit.
    apply Qmult_comp; [reflexivity | reflexivity]. }
  split; [rewrite Hval; reflexivity|].
  pose proof (sim_loop_reports_bankroll cfg actuals losers (sim_init cfg) I)
    as Hrep.
  unfold ledger_reports_bankroll in Hrep.
  unfold Scenario.final_ledger_bankroll.
  destruct (last (history (sim_loop cfg actuals losers (sim_init cfg))))
    as [e|] eqn:Hlast.
  - exists (l_bankroll e). split; [reflexivity|].
    split; [exact Hrep|].
    rewrite Hrep, (Py.round_comp _ _ 2 Hval).
    repeat split; vm_compute; reflexivity.
  - apply last_None in Hlast. rewrite Hlast in Hl. discriminate Hl.
Qed.

(** The amended C8 on the concrete five losers followed by a sixth
    bet. *)
Lemma five_losses_halt_and_decay_witness :
  let st := simulate_state default_config
              (Scenario.five_losers ++ [Scenario.sixth_bet])
              Scenario.outcomes in
  st = simulate_state default_config Scenario.five_losers
         Scenario.outcomes /\
  length (history st) = 5%nat /\
  Forall (fun e => l_won e = false) (history st) /\
  consecutive_losses st = 5%Z /\
  bankroll st < 1000 /\
  exists reported,
    Scenario.final_ledger_bankroll
      (simulate_bankroll default_config
         (Scenario.five_losers ++ [Scenario.sixth_bet]) Scenario.outcomes)
    = Some reported /\
    reported = Py.round (bankroll st) 2 /\
    reported == 85873 # 100 /\
    reported < 1000 /\
    reported < 1000 * (97 # 100) ^ 5 /\
    1000 * (97 # 100) ^ 5 - (1 # 200) < reported.
Proof.
  apply (five_losses_halt_and_decay default_config Scenario.outcomes
           Scenario.five_losers [Scenario.sixth_bet]).
  - reflexivity.
  - reflexivity.
  - reflexivity.
  - unfold Scenario.five_losers. simpl map.
    repeat constructor; try reflexivity;
      exists 0%Z; split; vm_compute; reflexivity.
Defined.

End BankrollClaims.

(** * The admission pipeline of [analyse] *)

Module Candidate.

Import Strategy.

Open Scope Q_scope.

(** The five checks as functions of what a candidate brings: calibrated
    probability [p], steam signal, side and selected odds [o]. *)
Definition passes_prob (cfg : Config) (p : Q) : bool :=
  _check_filtro_a cfg p.

Definition passes_signal (steam : Z) (s : Side) : bool :=
  _check_filtro_b steam (side_name s).

Definition passes_odds (cfg : Config) (o : Q) : bool :=
  negb (Py.lt o (min_odds cfg)).

Definition passes_disagreement (cfg : Config) (p o : Q) : bool :=
  _check_disagreement cfg p (implied_probability o).

Definition passes_ev (cfg : Config) (p o : Q) : bool :=
  negb (Py.lt (expected_value p o) (min_ev_threshold cfg)).

(** What the body of the loop evaluates, and where it leaves, as a
    function of the outcomes of the five checks. *)
Definition expected_log (a b c3 c4 : bool) : list Check :=
  [FiltroA; FiltroB] ++
  (if a && b then
     OddsFloor ::
     (if c3 then Disagreement :: (if c4 then [EVFloor] else []) else [])
   else []).

Definition expected_exit (a b c3 c4 c5 : bool) : option Exit :=
  if negb (a && b) then Some RejectedFiltro
  else if negb c3 then Some RejectedMinOdds
  else if negb c4 then Some RejectedDisagreement
  else if negb c5 then Some RejectedEV
  else None.

(** A one-match table: every odds column unless listed in [missing],
    opening odds [oo]/[uo] and closing odds [oc]/[uc] for the two sides,
    and a steam signal. *)
Definition all_odds_columns : list string :=
  [ "over25_open_odds"; "under25_open_odds";
    "over25_close_odds"; "under25_close_odds" ].

Definition one_match (missing : list string) (oo uo oc uc : option Q)
  (steam : Z) : DataFrame := {|
  columns :=
    List.filter (fun c => negb (existsb (String.eqb c) missing))
      ("steam_signal" :: "league" :: all_odds_columns);
  index := [0%Z];
  fcell := fun _ c =>
    if String.eqb c "over25_open_odds" then oo
    else if String.eqb c "under25_open_odds" then uo
    else if String.eqb c "over25_close_odds" then oc
    else if String.eqb c "under25_close_odds" then uc
    else None;
  icell := fun _ _ => steam;
  scell := fun _ _ => "Serie A"
|}.

Definition probs (p_over : Q) : ProbFrame := {|
  prob_over25 := fun _ => p_over;
  prob_under25 := fun _ => 1 - p_over
|}.

(** The defaults with the disagreement cap widened to 0.40, under which
    the candidate of the examples passes all five checks. *)
Definition lenient_config : Config := {|
  fractional_kelly := 25 # 100;
  min_ev_threshold := 5 # 100;
  min_prob_threshold := 80 # 100;
  min_odds := 175 # 100;
  max_stake_pct := 3 # 100;
  initial_bankroll := 1000;
  clv_enabled := true;
  stop_loss_consecutive := 5;
  disagreement_skip := 40 # 100;
  pairing_enabled := true;
  prefer_cross_league := true
|}.

End Candidate.

Section AdmissionFacts.

Import Strategy Candidate.

Open Scope Q_scope.

Variable cfg : Config.
Variable df : DataFrame.
Variable prob_df : ProbFrame.
Variable idx : Z.

Lemma analyse_candidate_no_odds s :
  select_odds df idx s = None ->
  run (analyse_candidate cfg df prob_df idx s) = (Skipped NoUsableOdds, []).
Proof.
  intros Hsel. unfold analyse_candidate.
  destruct s; simpl odds_map; cbv iota beta; rewrite Hsel; reflexivity.
Qed.

Lemma analyse_candidate_low_odds s o :
  select_odds df idx s = Some o -> o <= 1 ->
  run (analyse_candidate cfg df prob_df idx s)
  = (Skipped OddsNotTradable, []).
Proof.
  intros Hsel Hle. apply Py.le_spec in Hle. unfold analyse_candidate.
  destruct s; simpl odds_map; cbv iota beta; rewrite Hsel, Hle; reflexivity.
Qed.

(** With tradable odds selected, the candidate runs through the checks:
    the two filters are always both evaluated and tested together, the
    three remaining checks one after the other. *)
Lemma analyse_candidate_checks s o :
  select_odds df idx s = Some o -> 1 < o ->
  let p := prob_map s prob_df idx in
  let steam := row_get_int df idx "steam_signal" 0 in
  let a := passes_prob cfg p in
  let b := passes_signal steam s in
  let c3 := passes_odds cfg o in
  let c4 := passes_disagreement cfg p o in
  let c5 := passes_ev cfg p o in
  let res := run (analyse_candidate cfg df prob_df idx s) in
  snd res = expected_log a b c3 c4 /\
  match expected_exit a b c3 c4 c5 with
  | Some e => fst res = Skipped e
  | None =>
    exists r, fst res = Accepted r /\ market_odds r = o /\
              match_index r = idx /\ bet_on r = side_name s
  end.
Proof.
  intros Hsel Hgt. cbv zeta.
  assert (Hle : Py.le o 1 = false).
  { destruct (Py.le o 1) eqn:E; [|reflexivity].
    apply Py.le_spec in E. lra. }
  unfold passes_prob, passes_signal, passes_odds, passes_disagreement,
    passes_ev, expected_log, expected_exit.
  unfold analyse_candidate.
  destruct s; simpl odds_map; cbv iota beta; rewrite Hsel, Hle;
    unfold run, bind, evaluated, ret; simpl side_name; simpl prob_map;
    cbv beta iota zeta.
  all: destruct (_check_filtro_a cfg _) eqn:Ea;
    destruct (_check_filtro_b _ _) eqn:Eb; simpl;
    try (split; reflexivity).
  all: destruct (Py.lt o (min_odds cfg)) eqn:Eo; simpl;
    try (split; reflexivity).
  all: destruct (_check_disagreement cfg _ _) eqn:Ed; simpl;
    try (split; reflexivity).
  all: destruct (Py.lt (expected_value _ o) _) eqn:Ee; simpl;
    try (split; reflexivity).
  all: split; [reflexivity|]; eexists; repeat split; reflexivity.
Qed.

Lemma has_close_columns s :
  has_close df = true -> has_column df (snd (odds_map s)) = true.
Proof.
  unfold has_close. simpl forallb. rewrite !andb_true_iff.
  intros (Ho & Hu & _). destruct s; assumption.
Qed.

Lemma has_open_columns s :
  has_open df = true -> has_column df (fst (odds_map s)) = true.
Proof.
  unfold has_open. simpl forallb. rewrite !andb_true_iff.
  intros (Ho & Hu & _). destruct s; assumption.
Qed.

(** The closing odds are usable: both closing columns are in the table
    and the candidate's closing cell is a number. *)
Definition closing_usable (s : Side) : bool :=
  has_close df && negb (isnan (fcell df idx (snd (odds_map s)))).

Definition opening_usable (s : Side) : bool :=
  has_open df && negb (isnan (fcell df idx (fst (odds_map s)))).

Lemma select_odds_unfold s :
  select_odds df idx s =
  if closing_usable s then fcell df idx (snd (odds_map s))
  else if opening_usable s then fcell df idx (fst (odds_map s))
  else None.
Proof.
  unfold select_odds, closing_usable, opening_usable, row_get_float.
  pose proof (has_close_columns s) as Hc.
  pose proof (has_open_columns s) as Ho.
  destruct s; simpl odds_map in *; cbv iota beta; simpl fst in *;
    simpl snd in *.
  all: destruct (has_close df); [rewrite Hc by reflexivity|];
    destruct (has_open df); [rewrite Ho by reflexivity| |rewrite Ho by reflexivity|];
    reflexivity.
Qed.

End AdmissionFacts.

Section AdmissionClaims.

Import Strategy Candidate.

Open Scope Q_scope.

(** C2 (as stated, refuted): a candidate at probability 0.5 fails the
    probability floor (check 1), and the signal check (check 2) has been
    evaluated for it all the same; the place where it leaves the loop is
    the one shared by checks 1 and 2. *)
Lemma failing_prob_floor_still_evaluates_signal :
  let df := one_match [] (Some (21 # 10)) (Some (18 # 10))
              (Some 2) (Some (19 # 10)) 0 in
  passes_prob default_config (1 # 2) = false /\
  run (analyse_candidate default_config df (probs (1 # 2)) 0 Over25)
  = (Skipped RejectedFiltro, [FiltroA; FiltroB]).
Proof. cbv zeta. split; vm_compute; reflexivity. Qed.

(** C2 (amended): for a candidate with tradable odds, checks 1
    (probability floor) and 2 (signal alignment) are always both
    evaluated and rejected through one common exit; checks 3 (odds
    floor), 4 (disagreement cap) and 5 (expected-value floor) follow in
    this order, each evaluated only if all earlier checks passed, and
    the first of them to fail is the exit taken.  The candidate is
    accepted exactly when all five pass. *)
Theorem admission_checks_order
  (cfg : Config) (df : DataFrame) (prob_df : ProbFrame) (idx : Z)
  (s : Side) (o : Q) :
  select_odds df idx s = Some o -> 1 < o ->
  let p := prob_map s prob_df idx in
  let steam := row_get_int df idx "steam_signal" 0 in
  let a := passes_prob cfg p in
  let b := passes_signal steam s in
  let c3 := passes_odds cfg o in
  let c4 := passes_disagreement cfg p o in
  let c5 := passes_ev cfg p o in
  let res := run (analyse_candidate cfg df prob_df idx s) in
  snd res =
    [FiltroA; FiltroB] ++
    (if a && b then
       OddsFloor ::
       (if c3 then Disagreement :: (if c4 then [EVFloor] else []) else [])
     else []) /\
  (a && b = false -> fst res = Skipped RejectedFiltro) /\
  (a && b = true -> c3 = false -> fst res = Skipped RejectedMinOdds) /\
  (a && b = true -> c3 = true -> c4 = false ->
     fst res = Skipped RejectedDisagreement) /\
  (a && b = true -> c3 = true -> c4 = true -> c5 = false ->
     fst res = Skipped RejectedEV) /\
  (a && b = true -> c3 = true -> c4 = true -> c5 = true ->
     exists r, fst res = Accepted r /\ market_odds r = o) /\
  (forall r, fst res = Accepted r -> a && b && c3 && c4 && c5 = true).
Proof.
  intros Hsel Hgt. cbv zeta.
  pose proof (analyse_candidate_checks cfg df prob_df idx s o Hsel Hgt)
    as [Hlog Hexit].
  cbv zeta in Hlog, Hexit. unfold expected_log in Hlog.
  unfold expected_exit in Hexit.
  split; [exact Hlog|].
  destruct (passes_prob cfg _ && passes_signal _ s) eqn:Eab;
    simpl negb in Hexit; cbv iota in Hexit.
  2: { repeat split; try discriminate; try (intros; exact Hexit).
       intros r Hr. rewrite Hexit in Hr. discriminate Hr. }
  destruct (passes_odds cfg o) eqn:E3; simpl negb in Hexit; cbv iota in Hexit.
  2: { repeat split; try discriminate; try (intros; exact Hexit).
       intros r Hr. rewrite Hexit in Hr. discriminate Hr. }
  destruct (passes_disagreement cfg _ o) eqn:E4; simpl negb in Hexit;
    cbv iota in Hexit.
  2: { repeat split; try discriminate; try (intros; exact Hexit).
       intros r Hr. rewrite Hexit in Hr. discriminate Hr. }
  destruct (passes_ev cfg _ o) eqn:E5; simpl negb in Hexit; cbv iota in Hexit.
  2: { repeat split; try discriminate; try (intros; exact Hexit).
       intros r Hr. rewrite Hexit in Hr. discriminate Hr. }
  destruct Hexit as (r & Hr & Hodds & _).
  repeat split; try discriminate.
  intros _ _ _ _. exists r. split; assumption.
Qed.

(** The amended C2 on a candidate at probability 0.85 and closing odds 2
    under the lenient configuration: all five checks are evaluated and
    the candidate is accepted at odds 2. *)
Lemma admission_checks_order_witness :
  let df := one_match [] (Some (21 # 10)) (Some (18 # 10))
              (Some 2) (Some (19 # 10)) 0 in
  let res := run (analyse_candidate lenient_config df
                    (probs (85 # 100)) 0 Over25) in
  snd res = [FiltroA; FiltroB; OddsFloor; Disagreement; EVFloor] /\
  exists r, fst res = Accepted r /\ market_odds r = 2.
Proof.
  cbv zeta.
  destruct (admission_checks_order lenient_config
              (one_match [] (Some (21 # 10)) (Some (18 # 10))
                 (Some 2) (Some (19 # 10)) 0)
              (probs (85 # 100)) 0 Over25 2)
    as (Hlog & _ & _ & _ & _ & Hacc & _).
  - vm_compute. reflexivity.
  - reflexivity.
  - split.
    + rewrite Hlog. vm_compute. reflexivity.
    + apply Hacc; vm_compute; reflexivity.
Defined.

(** C10 (as stated, refuted): the table has the closing column of the
    "over" side, with the number 1.9 in it, but no closing column for
    the "under" side; the odds selected for the "over" candidate are the
    opening odds 2.1. *)
Lemma closing_odds_present_yet_opening_used :
  let df := one_match ["under25_close_odds"] (Some (21 # 10))
              (Some (18 # 10)) (Some (19 # 10)) None 0 in
  has_column df "over25_close_odds" = true /\
  row_get_float df 0 "over25_close_odds" None = Some (19 # 10) /\
  select_odds df 0 Over25 = Some (21 # 10).
Proof. cbv zeta. repeat split; vm_compute; reflexivity. Qed.

(** C10 (amended): the closing odds of the candidate are used when the
    table has both closing columns and the candidate's closing cell is
    not NaN; otherwise the opening odds are used when the table has both
    opening columns and the candidate's opening cell is not NaN;
    otherwise, or when the selected odds are at most 1, the candidate
    leaves the loop before any check and yields no recommendation; an
    accepted candidate carries the selected odds, which exceed 1. *)
Theorem odds_selection_policy
  (cfg : Config) (df : DataFrame) (prob_df : ProbFrame) (idx : Z)
  (s : Side) :
  let open_col := fst (odds_map s) in
  let close_col := snd (odds_map s) in
  let res := run (analyse_candidate cfg df prob_df idx s) in
  (forall c, has_close df = true -> fcell df idx close_col = Some c ->
     select_odds df idx s = Some c) /\
  (forall o, has_close df = false \/ fcell df idx close_col = None ->
     has_open df = true -> fcell df idx open_col = Some o ->
     select_odds df idx s = Some o) /\
  (has_close df = false \/ fcell df idx close_col = None ->
   has_open df = false \/ fcell df idx open_col = None ->
   select_odds df idx s = None) /\
  (select_odds df idx s = None -> res = (Skipped NoUsableOdds, [])) /\
  (forall o, select_odds df idx s = Some o -> o <= 1 ->
     res = (Skipped OddsNotTradable, [])) /\
  (forall r, fst res = Accepted r ->
     select_odds df idx s = Some (market_odds r) /\ 1 < market_odds r).
Proof.
  cbv zeta.
  split; [|split; [|split; [|split; [|split]]]].
  - intros c Hc Hcell. rewrite select_odds_unfold.
    unfold closing_usable. rewrite Hc, Hcell. reflexivity.
  - intros o Hno Ho Hcell. rewrite select_odds_unfold.
    unfold closing_usable, opening_usable.
    assert (Hcu : has_close df
                  && negb (isnan (fcell df idx (snd (odds_map s)))) = false).
    { destruct Hno as [H|H]; rewrite H; [reflexivity|].
      simpl. apply andb_false_r. }
    rewrite Hcu, Ho, Hcell. reflexivity.
  - intros Hno Hnop. rewrite select_odds_unfold.
    unfold closing_usable, opening_usable.
    assert (Hcu : has_close df
                  && negb (isnan (fcell df idx (snd (odds_map s)))) = false).
    { destruct Hno as [H|H]; rewrite H; [reflexivity|].
      simpl. apply andb_false_r. }
    assert (Hou : has_open df
                  && negb (isnan (fcell df idx (fst (odds_map s)))) = false).
    { destruct Hnop as [H|H]; rewrite H; [reflexivity|].
      simpl. apply andb_false_r. }
    rewrite Hcu, Hou. reflexivity.
  - apply analyse_candidate_no_odds.
  - apply analyse_candidate_low_odds.
  - intros r Hr.
    destruct (select_odds df idx s) as [o|] eqn:Hsel.
    + destruct (Qlt_le_dec 1 o) as [Hgt|Hle].
      * pose proof (analyse_candidate_checks cfg df prob_df idx s o Hsel Hgt)
          as [_ Hexit].
        cbv zeta in Hexit.
        destruct (expected_exit _ _ _ _ _).
        -- rewrite Hexit in Hr. discriminate Hr.
        -- destruct Hexit as (r' & Hr' & Hodds & _).
           rewrite Hr' in Hr. injection Hr as <-.
           rewrite Hodds. split; [reflexivity | exact Hgt].
      * rewrite (analyse_candidate_low_odds cfg df prob_df idx s o Hsel Hle)
          in Hr.
        discriminate Hr.
    + rewrite (analyse_candidate_no_odds cfg df prob_df idx s Hsel) in Hr.
      discriminate Hr.
Qed.

(** The amended C10 on one-match tables: closing 2 preferred to opening
    2.1; NaN closing falls back to opening 2.1; both NaN and closing
    odds 0.9 yield no recommendation. *)
Lemma odds_selection_policy_witness :
  select_odds (one_match [] (Some (21 # 10)) (Some (18 # 10))
                 (Some 2) (Some (19 # 10)) 0) 0 Over25 = Some 2 /\
  select_odds (one_match [] (Some (21 # 10)) (Some (18 # 10))
                 None (Some (19 # 10)) 0) 0 Over25 = Some (21 # 10) /\
  run (analyse_candidate default_config
         (one_match [] None (Some (18 # 10)) None (Some (19 # 10)) 0)
         (probs (85 # 100)) 0 Over25) = (Skipped NoUsableOdds, []) /\
  run (analyse_candidate default_config
         (one_match [] (Some (21 # 10)) (Some (18 # 10))
            (Some (9 # 10)) (Some (19 # 10)) 0)
         (probs (85 # 100)) 0 Over25) = (Skipped OddsNotTradable, []).
Proof.
  split; [|split; [|split]].
  - destruct (odds_selection_policy default_config
                (one_match [] (Some (21 # 10)) (Some (18 # 10))
                   (Some 2) (Some (19 # 10)) 0) (probs (85 # 100)) 0 Over25)
      as (Hclose & _).
    apply Hclose; vm_compute; reflexivity.
  - destruct (odds_selection_policy default_config
                (one_match [] (Some (21 # 10)) (Some (18 # 10))
                   None (Some (19 # 10)) 0) (probs (85 # 100)) 0 Over25)
      as (_ & Hopen & _).
    apply Hopen; [right | |]; vm_compute; reflexivity.
  - destruct (odds_selection_policy default_config
                (one_match [] None (Some (18 # 10)) None (Some (19 # 10)) 0)
                (probs (85 # 100)) 0 Over25)
      as (_ & _ & Hnone & Hskip & _).
    apply Hskip. apply Hnone; right; vm_compute; reflexivity.
  - destruct (odds_selection_policy default_config
                (one_match [] (Some (21 # 10)) (Some (18 # 10))
                   (Some (9 # 10)) (Some (19 # 10)) 0)
                (probs (85 # 100)) 0 Over25)
      as (_ & _ & _ & _ & Hlow & _).
    apply (Hlow (9 # 10)).
    + vm_compute. reflexivity.
    + vm_compute. discriminate.
Defined.

End AdmissionClaims.

(** * The pairing of singles into doubles *)

Section PairingFacts.

Import Strategy.

Open Scope Q_scope.

(** The two singles of a double. *)
Definition legs (d : DoubleBet) : list BetRecommendation :=
  [leg_1 d; leg_2 d].

Lemma insert_desc_perm {A} (key : A -> Q) x l :
  insert_desc key x l ≡ₚ x :: l.
Proof.
  induction l as [|y t IH]; simpl; [reflexivity|].
  destruct (Py.le (key y) (key x)); [reflexivity|].
  rewrite IH. apply Permutation_swap.
Qed.

Lemma sorted_desc_perm {A} (key : A -> Q) l :
  sorted_desc key l ≡ₚ l.
Proof.
  unfold sorted_desc. induction l as [|x t IH]; simpl; [reflexivity|].
  rewrite insert_desc_perm, IH. reflexivity.
Qed.

Lemma sorted_desc_length {A} (key : A -> Q) l :
  length (sorted_desc key l) = length l.
Proof. apply Permutation_length, sorted_desc_perm. Qed.

Lemma pop_back_snoc {A} (l : list A) x :
  pop_back (l ++ [x]) = Some (l, x).
Proof.
  induction l as [|y t IH]; [reflexivity|].
  simpl. rewrite IH. destruct (t ++ [x]) eqn:E; [|reflexivity].
  destruct t; discriminate E.
Qed.

Lemma pop_back_Some {A} (l rest : list A) x :
  pop_back l = Some (rest, x) -> l = rest ++ [x].
Proof.
  destruct (decide (l = [])) as [->|Hne]; [discriminate|].
  destruct (exists_last Hne) as (l' & y & ->).
  rewrite pop_back_snoc. intros H. injection H as <- <-. reflexivity.
Qed.

Lemma pop_back_None {A} (l : list A) :
  pop_back l = None -> l = [].
Proof.
  destruct (decide (l = [])) as [->|Hne]; [reflexivity|].
  destruct (exists_last Hne) as (l' & y & ->).
  rewrite pop_back_snoc. discriminate.
Qed.

Lemma pop_last_where_perm {A} (f : A -> bool) l y l' :
  pop_last_where f l = Some (y, l') -> l ≡ₚ y :: l'.
Proof.
  revert y l'. induction l as [|x t IH]; intros y l'; simpl; [discriminate|].
  destruct (pop_last_where f t) as [[z t']|].
  - intros H. injection H as <- <-.
    rewrite (IH z t' eq_refl). apply Permutation_swap.
  - destruct (f x); [|discriminate].
    intros H. injection H as <- <-. reflexivity.
Qed.

Lemma pop_last_where_found {A} (f : A -> bool) l y l' :
  pop_last_where f l = Some (y, l') -> f y = true.
Proof.
  revert y l'. induction l as [|x t IH]; intros y l'; simpl; [discriminate|].
  destruct (pop_last_where f t) as [[z t']|] eqn:Hpop.
  - intros H. injection H as <- <-. eapply IH. reflexivity.
  - destruct (f x) eqn:E; [|discriminate].
    intros H. injection H as <- <-. exact E.
Qed.

Lemma pop_last_where_none {A} (f : A -> bool) l :
  pop_last_where f l = None -> Forall (fun x => f x = false) l.
Proof.
  induction l as [|x t IH]; simpl; [constructor|].
  destruct (pop_last_where f t) as [[z t']|]; [discriminate|].
  destruct (f x) eqn:E; [discriminate|].
  intros _. constructor; [exact E | apply IH; reflexivity].
Qed.

(** An entry of the list satisfying [f] is found by the scan. *)
Lemma pop_last_where_exists {A} (f : A -> bool) l :
  Exists (fun x => f x = true) l ->
  exists y l', pop_last_where f l = Some (y, l').
Proof.
  intros Hex. destruct (pop_last_where f l) as [[y l']|] eqn:Hpop; [eauto|].
  apply pop_last_where_none in Hpop. exfalso.
  apply Exists_exists in Hex. destruct Hex as (x & Hin & Hx).
  rewrite Forall_forall in Hpop. rewrite (Hpop x Hin) in Hx. discriminate Hx.
Qed.

Variable cfg : Config.

(** One turn of the loop on a list of at least two entries. *)
Definition cross_league_partner (best worst : BetRecommendation)
  (rest : list BetRecommendation)
  : BetRecommendation * list BetRecommendation :=
  if prefer_cross_league cfg && String.eqb (league best) (league worst)
  then
    match pop_last_where
            (fun r => negb (String.eqb (league r) (league best))) rest with
    | Some (w, rest'') => (w, rest'')
    | None => (worst, rest)
    end
  else (worst, rest).

Lemma pair_loop_step fuel best rest worst :
  pair_loop cfg (S fuel) (best :: rest ++ [worst]) =
  make_double cfg best (fst (cross_league_partner best worst rest))
  :: pair_loop cfg fuel (snd (cross_league_partner best worst rest)).
Proof.
  simpl. rewrite pop_back_snoc. unfold cross_league_partner.
  destruct (prefer_cross_league cfg && _)%bool; [|reflexivity].
  destruct (pop_last_where _ rest) as [[w rest'']|]; reflexivity.
Qed.

Lemma pair_loop_short fuel l :
  (length l < 2)%nat -> pair_loop cfg fuel l = [].
Proof.
  intros Hlen. destruct fuel; [reflexivity|].
  destruct l as [|x [|y t]]; simpl in *; try reflexivity. lia.
Qed.

(** Every list of at least two entries is [best :: rest ++ [worst]]. *)
Lemma two_ends {A} (l : list A) :
  (2 <= length l)%nat -> exists best rest worst, l = best :: rest ++ [worst].
Proof.
  destruct l as [|best t]; simpl; [lia|]. intros Hlen.
  assert (Hne : t <> []) by (destruct t; simpl in *; [lia | discriminate]).
  destruct (exists_last Hne) as (rest & worst & ->). eauto.
Qed.

(** The partner found and the entries left over come from [rest] and
    [worst]; a swap leaves the original [worst] out. *)
Lemma cross_league_partner_perm best worst rest :
  exists dropped,
    fst (cross_league_partner best worst rest)
    :: snd (cross_league_partner best worst rest) ++ dropped
    ≡ₚ rest ++ [worst] /\
    (length dropped <= 1)%nat /\
    (prefer_cross_league cfg = false -> dropped = []).
Proof.
  unfold cross_league_partner.
  destruct (prefer_cross_league cfg) eqn:Hpref; simpl andb.
  - destruct (String.eqb (league best) (league worst)).
    + destruct (pop_last_where _ rest) as [[w rest'']|] eqn:Hpop.
      * exists [worst]. simpl fst; simpl snd. split; [|split].
        -- apply pop_last_where_perm in Hpop. rewrite Hpop. reflexivity.
        -- simpl. lia.
        -- discriminate.
      * exists []. simpl. rewrite app_nil_r. split; [|split].
        -- apply Permutation_cons_append.
        -- lia.
        -- reflexivity.
    + exists []. simpl. rewrite app_nil_r. split; [|split].
      * apply Permutation_cons_append.
      * lia.
      * reflexivity.
  - exists []. simpl. rewrite app_nil_r. split; [|split].
    + apply Permutation_cons_append.
    + lia.
    + reflexivity.
Qed.

Lemma cross_league_partner_length best worst rest :
  (length (snd (cross_league_partner best worst rest)) <= length rest)%nat.
Proof.
  destruct (cross_league_partner_perm best worst rest) as (dropped & Hp & _).
  apply Permutation_length in Hp. simpl in Hp.
  rewrite !length_app in Hp. simpl in Hp. lia.
Qed.

(** The fuel given by [pair_doubles] is enough: any fuel at least the
    length of the list gives the same pairs. *)
Lemma pair_loop_fuel fuel1 fuel2 l :
  (length l <= fuel1)%nat -> (length l <= fuel2)%nat ->
  pair_loop cfg fuel1 l = pair_loop cfg fuel2 l.
Proof.
  revert fuel2 l. induction fuel1 as [|fuel1 IH]; intros fuel2 l H1 H2.
  - destruct l; [|simpl in H1; lia]. destruct fuel2; reflexivity.
  - destruct (le_lt_dec 2 (length l)) as [Hlen|Hlen].
    + destruct (two_ends l Hlen) as (best & rest & worst & ->).
      destruct fuel2 as [|fuel2]; [simpl in H2; lia|].
      rewrite !pair_loop_step. f_equal.
      pose proof (cross_league_partner_length best worst rest) as Hl.
      simpl in H1, H2. rewrite length_app in H1, H2. simpl in H1, H2.
      apply IH; lia.
    + rewrite !pair_loop_short by exact Hlen. reflexivity.
Qed.

(** The singles used by the pairs, together with the singles left out,
    are the singles given. *)
Lemma pair_loop_uses_entries_once fuel l :
  exists unused, flat_map legs (pair_loop cfg fuel l) ++ unused ≡ₚ l.
Proof.
  revert l. induction fuel as [|fuel IH]; intros l.
  - exists l. reflexivity.
  - destruct (le_lt_dec 2 (length l)) as [Hlen|Hlen].
    + destruct (two_ends l Hlen) as (best & rest & worst & ->).
      rewrite pair_loop_step.
      destruct (cross_league_partner_perm best worst rest)
        as (dropped & Hp & _).
      destruct (IH (snd (cross_league_partner best worst rest)))
        as (unused & Hu).
      exists (unused ++ dropped). simpl.
      apply Permutation_skip. rewrite <- Hp.
      apply Permutation_skip. rewrite app_assoc, Hu. reflexivity.
    + rewrite pair_loop_short by exact Hlen. exists l. reflexivity.
Qed.

Lemma pair_loop_length_le fuel l :
  (length (pair_loop cfg fuel l) <= length l / 2)%nat.
Proof.
  revert l. induction fuel as [|fuel IH]; intros l; [simpl; lia|].
  destruct (le_lt_dec 2 (length l)) as [Hlen|Hlen].
  - destruct (two_ends l Hlen) as (best & rest & worst & ->).
    rewrite pair_loop_step. simpl length. rewrite length_app. simpl length.
    specialize (IH (snd (cross_league_partner best worst rest))).
    pose proof (cross_league_partner_length best worst rest) as Hl.
    replace (S (length rest + 1)) with (length rest + 1 * 2)%nat by lia.
    rewrite Nat.div_add by lia.
    assert (length (snd (cross_league_partner best worst rest)) / 2
            <= length rest / 2)%nat
      by (apply Nat.Div0.div_le_mono; exact Hl).
    lia.
  - rewrite pair_loop_short by exact Hlen. simpl. lia.
Qed.

Lemma pair_loop_length_exact fuel l :
  prefer_cross_league cfg = false ->
  (length l <= fuel)%nat ->
  length (pair_loop cfg fuel l) = (length l / 2)%nat.
Proof.
  intros Hpref. revert l. induction fuel as [|fuel IH]; intros l Hfuel.
  - destruct l; [reflexivity | simpl in Hfuel; lia].
  - destruct (le_lt_dec 2 (length l)) as [Hlen|Hlen].
    + destruct (two_ends l Hlen) as (best & rest & worst & ->).
      rewrite pair_loop_step. unfold cross_league_partner.
      rewrite Hpref. simpl andb. cbv iota. simpl fst; simpl snd.
      simpl length. rewrite length_app. simpl length.
      simpl in Hfuel. rewrite length_app in Hfuel. simpl in Hfuel.
      rewrite IH by lia.
      replace (S (length rest + 1)) with (length rest + 1 * 2)%nat by lia.
      rewrite Nat.div_add by lia. lia.
    + rewrite pair_loop_short by exact Hlen.
      destruct l as [|x [|y t]]; simpl in *; try reflexivity. lia.
Qed.

Lemma pair_loop_combined fuel l :
  Forall (fun d =>
            combined_prob d
            = Py.round (model_prob (leg_1 d) * model_prob (leg_2 d)) 4 /\
            combined_odds d
            = Py.round (market_odds (leg_1 d) * market_odds (leg_2 d)) 2)
         (pair_loop cfg fuel l).
Proof.
  revert l. induction fuel as [|fuel IH]; intros l; [constructor|].
  destruct (le_lt_dec 2 (length l)) as [Hlen|Hlen].
  - destruct (two_ends l Hlen) as (best & rest & worst & ->).
    rewrite pair_loop_step. constructor; [|apply IH].
    split; reflexivity.
  - rewrite pair_loop_short by exact Hlen. constructor.
Qed.

(** In a duplicate-free list of match identifiers, the two legs of each
    pair are different matches. *)
Lemma legs_distinct_of_nodup (ds : list DoubleBet) :
  NoDup (map match_index (flat_map legs ds)) ->
  Forall (fun d => match_index (leg_1 d) <> match_index (leg_2 d)) ds.
Proof.
  induction ds as [|d ds IH]; intros Hnd; [constructor|].
  simpl in Hnd. inversion Hnd as [|? ? Hnotin Hnd']; subst.
  inversion Hnd' as [|? ? _ Hnd'']; subst.
  constructor; [|apply IH; exact Hnd''].
  intros Heq. apply Hnotin. rewrite Heq. left.
Qed.

End PairingFacts.

Module PairingScenario.

Import Strategy.

Open Scope Q_scope.

(** Four singles, by decreasing probability, in leagues A, B, B, A. *)
Definition four_singles : list BetRecommendation :=
  [ Scenario.bet 1 Over25 (90 # 100) (3 # 100) 2 "A";
    Scenario.bet 2 Over25 (88 # 100) (3 # 100) 2 "B";
    Scenario.bet 3 Over25 (86 # 100) (3 # 100) 2 "B";
    Scenario.bet 4 Over25 (84 # 100) (3 # 100) 2 "A" ].

(** A configuration with the probability floor at 0.40, and a match
    priced 1.91 / 2.34 at the close for which the model gives 0.5512 to
    the "over" side: both sides of the match pass the five checks. *)
Definition two_sided_config : Config := {|
  fractional_kelly := 25 # 100;
  min_ev_threshold := 5 # 100;
  min_prob_threshold := 40 # 100;
  min_odds := 175 # 100;
  max_stake_pct := 3 # 100;
  initial_bankroll := 1000;
  clv_enabled := true;
  stop_loss_consecutive := 5;
  disagreement_skip := 20 # 100;
  pairing_enabled := true;
  prefer_cross_league := true
|}.

Definition two_sided_match : DataFrame :=
  Candidate.one_match [] (Some (195 # 100)) (Some (230 # 100))
    (Some (191 # 100)) (Some (234 # 100)) 0.

Definition two_sided_probs : ProbFrame := Candidate.probs (5512 # 10000).

(** The defaults with the cross-league preference switched off. *)
Definition same_league_config : Config := {|
  fractional_kelly := 25 # 100;
  min_ev_threshold := 5 # 100;
  min_prob_threshold := 80 # 100;
  min_odds := 175 # 100;
  max_stake_pct := 3 # 100;
  initial_bankroll := 1000;
  clv_enabled := true;
  stop_loss_consecutive := 5;
  disagreement_skip := 20 # 100;
  pairing_enabled := true;
  prefer_cross_league := false
|}.

End PairingScenario.

Section PairingClaims.

Import Strategy.

Open Scope Q_scope.

(** With the probability floor at 0.40, both sides of the match priced
    1.91 / 2.34 are admitted by [analyse], and [pair_doubles], which
    never looks at match identifiers, pairs them with each other; the
    pair stores the combined probability 0.2474 and the combined odds
    4.47, the products 0.24737856 and 4.4694 rounded. *)
Lemma pair_of_one_match_with_rounded_values :
  let recs := analyse PairingScenario.two_sided_config
                PairingScenario.two_sided_match
                PairingScenario.two_sided_probs in
  length recs = 2%nat /\
  exists d,
    pair_doubles PairingScenario.two_sided_config recs = [d] /\
    match_index (leg_1 d) = match_index (leg_2 d) /\
    combined_prob d == 2474 # 10000 /\
    combined_odds d == 447 # 100.
Proof.
  cbv zeta. split; [vm_compute; reflexivity|].
  eexists. split; [vm_compute; reflexivity|].
  repeat split; vm_compute; congruence.
Qed.

(** With the cross-league preference off the count is the one
    intended: every two entries give a pair. *)
Lemma pair_doubles_count_without_preference
  (cfg : Config) (recs : list BetRecommendation) :
  pairing_enabled cfg = true -> prefer_cross_league cfg = false ->
  length (pair_doubles cfg recs) = (length recs / 2)%nat.
Proof.
  intros Hon Hpref. unfold pair_doubles. rewrite Hon. simpl negb. simpl orb.
  destruct (Nat.ltb_spec (length recs) 2) as [Hshort|Hlong].
  - destruct recs as [|x [|y t]]; simpl in *; try reflexivity. lia.
  - rewrite pair_loop_length_exact by (exact Hpref || lia).
    rewrite sorted_desc_length. reflexivity.
Qed.

(** C6 (the code at failing inputs): with pairing enabled and the
    cross-league preference on, as shipped, take a list of admitted bets
    whose strongest and weakest entries share a league while some entry
    between them, in decreasing order of probability, belongs to another
    league.  The first turn of the loop pops the weakest entry, swaps in
    the last entry of another league, and never puts the weakest entry
    back: the first pair joins the strongest entry with that partner,
    all later pairs are made of the entries between them that remain,
    so every leg comes from the list without its weakest entry; hence at
    most [floor((n - 1) / 2)] pairs are produced, and for an even number
    [n] of bets fewer than [floor(n / 2)]. *)
Theorem pair_doubles_swap_drops_entry
  (cfg : Config) (recs : list BetRecommendation)
  (best worst : BetRecommendation) (rest : list BetRecommendation) :
  pairing_enabled cfg = true ->
  prefer_cross_league cfg = true ->
  sorted_desc model_prob recs = best :: rest ++ [worst] ->
  league best = league worst ->
  Exists (fun r => league r <> league best) rest ->
  let doubles := pair_doubles cfg recs in
  (exists partner rest',
     rest ≡ₚ partner :: rest' /\ league partner <> league best /\
     doubles
     = make_double cfg best partner :: pair_loop cfg (length rest') rest') /\
  (exists unused, flat_map legs doubles ++ unused ≡ₚ best :: rest) /\
  (length doubles <= (length recs - 1) / 2)%nat /\
  (Nat.Even (length recs) -> (length doubles < length recs / 2)%nat).
Proof.
  intros Hon Hpref Hsorted Hsame Hother. cbv zeta.
  pose proof (sorted_desc_length model_prob recs) as Hlen.
  rewrite Hsorted in Hlen. simpl in Hlen. rewrite length_app in Hlen.
  simpl in Hlen.
  destruct (pop_last_where_exists
              (fun r => negb (String.eqb (league r) (league best))) rest)
    as (partner & rest' & Hpop).
  { eapply Exists_impl; [exact Hother|]. intros r Hr. simpl.
    apply negb_true_iff, String.eqb_neq. exact Hr. }
  pose proof (pop_last_where_perm _ _ _ _ Hpop) as Hperm.
  pose proof (pop_last_where_found _ _ _ _ Hpop) as Hfound. simpl in Hfound.
  apply negb_true_iff, String.eqb_neq in Hfound.
  pose proof (Permutation_length Hperm) as Hlen'. simpl in Hlen'.
  assert (Hdoubles :
            pair_doubles cfg recs
            = make_double cfg best partner
              :: pair_loop cfg (length rest') rest').
  { unfold pair_doubles. rewrite Hon. simpl negb. simpl orb.
    destruct (Nat.ltb_spec (length recs) 2) as [Hshort|_]; [lia|].
    rewrite Hsorted. simpl length. rewrite length_app. simpl length.
    rewrite pair_loop_step. unfold cross_league_partner.
    rewrite Hpref, Hsame, String.eqb_refl. simpl andb. cbv iota.
    rewrite <- Hsame, Hpop. simpl fst; simpl snd. f_equal.
    apply pair_loop_fuel; lia. }
  rewrite Hdoubles.
  assert (Hcount : (length (pair_loop cfg (length rest') rest')
                    <= length rest' / 2)%nat) by apply pair_loop_length_le.
  split; [exists partner, rest'; repeat split; assumption|].
  split.
  { destruct (pair_loop_uses_entries_once cfg (length rest') rest')
      as (unused & Hu).
    exists unused. simpl. apply Permutation_skip.
    rewrite Hperm. apply Permutation_skip. exact Hu. }
  assert (Hbound : (S (length rest' / 2) <= (length recs - 1) / 2)%nat).
  { replace (length recs - 1)%nat with (length rest' + 1 * 2)%nat by lia.
    rewrite Nat.div_add by lia. lia. }
  split; [simpl length; lia|].
  intros [k Hk]. simpl length.
  assert (Hhalf : (length recs / 2 = k)%nat).
  { rewrite Hk, Nat.mul_comm. apply Nat.div_mul. lia. }
  assert (Hless : ((length recs - 1) / 2 < k)%nat).
  { apply Nat.Div0.div_lt_upper_bound. lia. }
  lia.
Qed.

(** C6 on four singles in leagues A, B, B, A, under the shipped
    configuration: one pair instead of two. *)
Lemma pair_doubles_swap_drops_entry_witness :
  length PairingScenario.four_singles = 4%nat /\
  (length (pair_doubles default_config PairingScenario.four_singles)
   < length PairingScenario.four_singles / 2)%nat /\
  length (pair_doubles default_config PairingScenario.four_singles) = 1%nat /\
  length (pair_doubles PairingScenario.same_league_config
            PairingScenario.four_singles) = 2%nat.
Proof.
  destruct (pair_doubles_swap_drops_entry default_config
              PairingScenario.four_singles
              (Scenario.bet 1 Over25 (90 # 100) (3 # 100) 2 "A")
              (Scenario.bet 4 Over25 (84 # 100) (3 # 100) 2 "A")
              [ Scenario.bet 2 Over25 (88 # 100) (3 # 100) 2 "B";
                Scenario.bet 3 Over25 (86 # 100) (3 # 100) 2 "B" ])
    as (_ & _ & _ & Hfewer).
  - reflexivity.
  - reflexivity.
  - vm_compute. reflexivity.
  - reflexivity.
  - constructor. simpl. discriminate.
  - split; [reflexivity|]. split; [|split].
    + apply Hfewer. exists 2%nat. reflexivity.
    + vm_compute. reflexivity.
    + apply pair_doubles_count_without_preference; reflexivity.
Defined.

End PairingClaims.

(** * The Poisson grid *)

Section GridFacts.

Import Model.

Open Scope R_scope.

Lemma sum_list_app l1 l2 :
  sum_list (l1 ++ l2) = sum_list l1 + sum_list l2.
Proof.
  unfold sum_list. induction l1 as [|x t IH]; simpl; [lra|].
  rewrite IH. lra.
Qed.

Lemma sum_list_nonneg l :
  Forall (fun x => 0 <= x) l -> 0 <= sum_list l.
Proof.
  unfold sum_list. induction 1 as [|x t Hx _ IH]; simpl; lra.
Qed.

Lemma sum_list_map_le {A} (f g : A -> R) l :
  (forall x, List.In x l -> f x <= g x) ->
  sum_list (map f l) <= sum_list (map g l).
Proof.
  unfold sum_list. induction l as [|x t IH]; intros H; simpl; [lra|].
  pose proof (H x (or_introl eq_refl)).
  assert (fold_right Rplus 0 (map f t) <= fold_right Rplus 0 (map g t)).
  { apply IH. intros y Hy. apply H. right. exact Hy. }
  lra.
Qed.

Lemma sum_list_map_ext {A} (f g : A -> R) l :
  (forall x, List.In x l -> f x = g x) ->
  sum_list (map f l) = sum_list (map g l).
Proof.
  intros H. f_equal. apply map_ext_in. exact H.
Qed.

Lemma sum_list_map_scale {A} (c : R) (f : A -> R) l :
  sum_list (map (fun x => c * f x) l) = c * sum_list (map f l).
Proof.
  unfold sum_list. induction l as [|x t IH]; simpl; [lra|].
  rewrite IH. lra.
Qed.

Lemma sum_list_map_scale_r {A} (c : R) (f : A -> R) l :
  sum_list (map (fun x => f x * c) l) = sum_list (map f l) * c.
Proof.
  unfold sum_list. induction l as [|x t IH]; simpl; [lra|].
  rewrite IH. lra.
Qed.

(** The inner loop adds to the accumulator the terms that pass the
    test. *)
Lemma fold_left_guarded_sum {A} (c : A -> bool) (g : A -> R) l acc :
  fold_left (fun a j => if c j then a + g j else a) l acc
  = acc + sum_list (map (fun j => if c j then g j else 0) l).
Proof.
  revert acc. unfold sum_list.
  induction l as [|x t IH]; intros acc; simpl; [lra|].
  rewrite IH. destruct (c x); lra.
Qed.

Lemma fold_left_grid_sum {A B} (c : A -> B -> bool) (g : A -> B -> R)
  (outer : list A) (inner : list B) acc :
  fold_left (fun a i =>
               fold_left (fun a' j => if c i j then a' + g i j else a')
                 inner a)
    outer acc
  = acc + sum_list
            (map (fun i =>
                    sum_list (map (fun j => if c i j then g i j else 0)
                                inner))
                 outer).
Proof.
  revert acc. induction outer as [|i t IH]; intros acc; simpl.
  - unfold sum_list. simpl. lra.
  - rewrite IH, fold_left_guarded_sum. unfold sum_list. simpl. lra.
Qed.

(** The accumulated [prob_under] as a double sum. *)
Lemma grid_under_double_sum line max_g p_h p_a :
  grid_under line max_g p_h p_a
  = sum_list
      (map (fun i =>
              sum_list
                (map (fun j =>
                        if within_line i j line
                        then nth i p_h 0 * nth j p_a 0 else 0)
                     (goal_range max_g)))
           (goal_range max_g)).
Proof.
  unfold grid_under.
  rewrite (fold_left_grid_sum (fun i j => within_line i j line)
             (fun i j => nth i p_h 0 * nth j p_a 0)).
  lra.
Qed.

Lemma nth_map_seq (f : nat -> R) n i :
  List.In i (seq 0 n) -> nth i (map f (seq 0 n)) 0 = f i.
Proof.
  intros Hin. apply in_seq in Hin.
  rewrite (nth_indep _ 0 (f 0%nat)) by (rewrite length_map, length_seq; lia).
  rewrite (map_nth f (seq 0 n) 0%nat i). rewrite seq_nth by lia.
  reflexivity.
Qed.

Lemma sum_list_filter_map {A} (c : A -> bool) (f : A -> R) l :
  sum_list (map f (List.filter c l))
  = sum_list (map (fun x => if c x then f x else 0) l).
Proof.
  unfold sum_list. induction l as [|x t IH]; simpl; [reflexivity|].
  destruct (c x); simpl; rewrite IH; lra.
Qed.

Lemma sum_list_list_prod {A B} (f : A * B -> R) l1 l2 :
  sum_list (map f (list_prod l1 l2))
  = sum_list (map (fun i => sum_list (map (fun j => f (i, j)) l2)) l1).
Proof.
  induction l1 as [|x t IH]; simpl; [reflexivity|].
  rewrite map_app, sum_list_app, IH, map_map. reflexivity.
Qed.

End GridFacts.

Section PoissonFacts.

Import Model.

Open Scope R_scope.

Lemma poisson_pmf_nonneg k mu : 0 < mu -> 0 <= poisson_pmf k mu.
Proof.
  intros Hmu. unfold poisson_pmf.
  pose proof (exp_pos (- mu)) as He.
  pose proof (pow_lt mu k Hmu) as Hp.
  pose proof (INR_fact_lt_0 k) as Hf.
  apply Rlt_le. apply Rdiv_lt_0_compat; [|exact Hf].
  apply Rmult_lt_0_compat; assumption.
Qed.

Lemma sum_list_seq_sum_f_R0 (g : nat -> R) N :
  sum_list (map g (seq 0 (S N))) = sum_f_R0 g N.
Proof.
  induction N as [|N IH].
  - unfold sum_list. simpl. lra.
  - rewrite seq_S, map_app, sum_list_app, IH. simpl sum_f_R0.
    unfold sum_list. simpl. lra.
Qed.

(** A partial sum of the exponential series of a non-negative number
    stays below its limit. *)
Lemma exp_partial_sum_le mu N :
  0 <= mu -> sum_f_R0 (fun i => / INR (fact i) * mu ^ i) N <= exp mu.
Proof.
  intros Hmu. apply sum_incr.
  - unfold exp. destruct (exist_exp mu) as (l & Hl). simpl.
    exact Hl.
  - intros n. apply Rmult_le_pos.
    + apply Rlt_le, Rinv_0_lt_compat, INR_fact_lt_0.
    + apply pow_le. exact Hmu.
Qed.

Lemma poisson_pmf_series k mu :
  poisson_pmf k mu = exp (- mu) * (/ INR (fact k) * mu ^ k).
Proof.
  unfold poisson_pmf. pose proof (INR_fact_neq_0 k). field. assumption.
Qed.

(** The Poisson masses over [0 .. n-1] sum to at most 1. *)
Lemma poisson_mass_le_1 mu n :
  0 < mu -> sum_list (map (fun k => poisson_pmf k mu) (seq 0 n)) <= 1.
Proof.
  intros Hmu. destruct n as [|N].
  - unfold sum_list. simpl. lra.
  - rewrite (sum_list_map_ext _
               (fun k => exp (- mu) * (/ INR (fact k) * mu ^ k)))
      by (intros; apply poisson_pmf_series).
    rewrite sum_list_map_scale, sum_list_seq_sum_f_R0.
    pose proof (exp_partial_sum_le mu N (Rlt_le _ _ Hmu)) as Hs.
    pose proof (exp_pos (- mu)) as He.
    assert (Hone : exp (- mu) * exp mu = 1).
    { rewrite <- exp_plus. replace (- mu + mu) with 0 by lra. apply exp_0. }
    rewrite <- Hone. apply Rmult_le_compat_l; [lra | exact Hs].
Qed.

Lemma poisson_mass_nonneg mu n :
  0 < mu -> 0 <= sum_list (map (fun k => poisson_pmf k mu) (seq 0 n)).
Proof.
  intros Hmu. apply sum_list_nonneg. apply Forall_forall.
  intros x Hx. apply list_elem_of_In, in_map_iff in Hx.
  destruct Hx as (k & <- & _). apply poisson_pmf_nonneg. exact Hmu.
Qed.

Lemma floored_rate_pos x : 0 < Rmax x 0.01.
Proof.
  pose proof (Rmax_r x 0.01). lra.
Qed.

Lemma within_line_negative i j line : line < 0 -> within_line i j line = false.
Proof.
  intros Hneg. unfold within_line.
  destruct (Rle_dec (INR (i + j)) line) as [H|H]; [|reflexivity].
  pose proof (pos_INR (i + j)). lra.
Qed.

(** The loop of [predict_totals] computes the documented sum. *)
Lemma grid_under_is_under_mass line max_g lam_h lam_a :
  grid_under line max_g
    (map (fun k => poisson_pmf k lam_h) (goal_range max_g))
    (map (fun k => poisson_pmf k lam_a) (goal_range max_g))
  = under_mass_spec line max_g lam_h lam_a.
Proof.
  rewrite grid_under_double_sum. unfold under_mass_spec.
  rewrite sum_list_filter_map.
  rewrite (sum_list_list_prod
             (fun ij => if within_line (fst ij) (snd ij) line
                        then poisson_pmf (fst ij) lam_h
                             * poisson_pmf (snd ij) lam_a
                        else 0)).
  unfold goal_range.
  apply sum_list_map_ext. intros i Hi.
  apply sum_list_map_ext. intros j Hj. simpl.
  rewrite !nth_map_seq by assumption. reflexivity.
Qed.

Lemma under_mass_spec_bounds line max_g lam_h lam_a :
  0 < lam_h -> 0 < lam_a ->
  0 <= under_mass_spec line max_g lam_h lam_a <= 1.
Proof.
  intros Hh Ha. unfold under_mass_spec.
  rewrite sum_list_filter_map.
  rewrite (sum_list_list_prod
             (fun ij => if within_line (fst ij) (snd ij) line
                        then poisson_pmf (fst ij) lam_h
                             * poisson_pmf (snd ij) lam_a
                        else 0)).
  set (rng := goal_range max_g).
  assert (Hterm : forall i j,
             0 <= (if within_line i j line
                   then poisson_pmf i lam_h * poisson_pmf j lam_a else 0)
             <= poisson_pmf i lam_h * poisson_pmf j lam_a).
  { intros i j.
    pose proof (poisson_pmf_nonneg i lam_h Hh).
    pose proof (poisson_pmf_nonneg j lam_a Ha).
    assert (0 <= poisson_pmf i lam_h * poisson_pmf j lam_a)
      by (apply Rmult_le_pos; assumption).
    destruct (within_line i j line); lra. }
  split.
  - apply sum_list_nonneg, Forall_forall. intros x Hx.
    apply list_elem_of_In, in_map_iff in Hx. destruct Hx as (i & <- & _).
    apply sum_list_nonneg, Forall_forall. intros y Hy.
    apply list_elem_of_In, in_map_iff in Hy. destruct Hy as (j & <- & _).
    simpl. apply Hterm.
  - apply Rle_trans with
      (sum_list (map (fun k => poisson_pmf k lam_h) rng)
       * sum_list (map (fun k => poisson_pmf k lam_a) rng)).
    + rewrite <- sum_list_map_scale_r.
      apply sum_list_map_le. intros i _.
      rewrite <- sum_list_map_scale.
      apply sum_list_map_le. intros j _. simpl. apply Hterm.
    + unfold rng, goal_range.
      pose proof (poisson_mass_le_1 lam_h (Z.to_nat (max_g + 1)) Hh).
      pose proof (poisson_mass_le_1 lam_a (Z.to_nat (max_g + 1)) Ha).
      pose proof (poisson_mass_nonneg lam_h (Z.to_nat (max_g + 1)) Hh).
      pose proof (poisson_mass_nonneg lam_a (Z.to_nat (max_g + 1)) Ha).
      nra.
Qed.

Lemma over_probability_complement line max_g home_xg away_xg :
  over_probability line max_g home_xg away_xg
  = 1 - under_mass_spec line max_g (Rmax home_xg 0.01) (Rmax away_xg 0.01).
Proof.
  unfold over_probability. rewrite grid_under_is_under_mass. reflexivity.
Qed.

Lemma over_probability_bounds line max_g home_xg away_xg :
  0 <= over_probability line max_g home_xg away_xg <= 1.
Proof.
  rewrite over_probability_complement.
  pose proof (under_mass_spec_bounds line max_g _ _
                (floored_rate_pos home_xg) (floored_rate_pos away_xg)).
  lra.
Qed.

End PoissonFacts.

Section GridClaims.

Import Model.

Open Scope R_scope.

(** C5: for all expected goals (floored at 0.01), every line and every
    grid bound, the over-probability computed by [predict_totals] lies
    in [0, 1]; it is 1 minus the sum, over all pairs of counts of the
    grid with [i + j <= line], of the product of the two Poisson masses,
    so that over and under add up to 1; and a negative line gives
    probability 1. *)
Theorem over_probability_grid
  (line : R) (max_g : Z) (home_xg away_xg : R) :
  let lam_h := Rmax home_xg 0.01 in
  let lam_a := Rmax away_xg 0.01 in
  let over := over_probability line max_g home_xg away_xg in
  let under := under_mass_spec line max_g lam_h lam_a in
  0 <= over <= 1 /\
  over = 1 - under /\
  Rabs (over + under - 1) <= 1 / 1000000000 /\
  (line < 0 -> over = 1).
Proof.
  cbv zeta.
  pose proof (over_probability_bounds line max_g home_xg away_xg) as Hb.
  rewrite over_probability_complement in *.
  split; [exact Hb|]. split; [reflexivity|]. split.
  - replace (1 - under_mass_spec line max_g (Rmax home_xg 0.01)
                   (Rmax away_xg 0.01)
             + under_mass_spec line max_g (Rmax home_xg 0.01)
                 (Rmax away_xg 0.01) - 1) with 0 by lra.
    rewrite Rabs_R0. lra.
  - intros Hneg. unfold under_mass_spec.
    rewrite sum_list_filter_map.
    rewrite (sum_list_map_ext _ (fun _ => 0)).
    + assert (Hz : forall (A : Type) (l : list A),
                 sum_list (map (fun _ => 0) l) = 0).
      { intros A l. unfold sum_list.
        induction l as [|x t IH]; simpl; [reflexivity|].
        rewrite IH. lra. }
      rewrite Hz. lra.
    + intros [i j] _. simpl.
      rewrite within_line_negative by exact Hneg. reflexivity.
Qed.

(** C5 at the line -1 with the default grid bound 10. *)
Lemma over_probability_grid_witness :
  over_probability (-1) 10 1.5 1.2 = 1.
Proof.
  apply (over_probability_grid (-1) 10 1.5 1.2). lra.
Defined.

(** Every entry of the array returned by [predict_totals] is an
    over-probability of the grid, hence in [0, 1]. *)
Lemma predict_totals_in_unit_interval `{E : Estimators}
  (m : QuantModel) (home_xg away_xg : list R) :
  Forall (fun p => 0 <= p <= 1) (predict_totals m home_xg away_xg).
Proof.
  unfold predict_totals. revert away_xg.
  induction home_xg as [|h t IH]; intros [|a t']; simpl; try constructor.
  - apply over_probability_bounds.
  - apply IH.
Qed.

End GridClaims.

(** * The ensemble: fit before use, clipping, cross-validation *)

Module ModelScenario.

Import Model.

Open Scope R_scope.

(** A concrete instance of the estimator interface for the closed
    examples: regressors predicting the mean of their training targets,
    a meta-learner returning its first input column, a calibrator
    returning its input, the mean squared error and the mean negative
    log-likelihood. *)
#[local] Instance mean_estimators : Estimators := {|
  Params := unit;
  XGB := R;
  xgb_fit := fun _ _ y => mean y;
  xgb_predict := fun avg X => map (fun _ => avg) X;
  xgb_importances := fun _ => [];
  Logit := unit;
  logit_fit := fun _ _ => tt;
  logit_predict_proba1 := fun _ meta => map (fun row => nth 0 row 0) meta;
  Iso := unit;
  iso_fit := fun _ _ => tt;
  iso_predict := fun _ raw => raw;
  brier_score_loss := fun y p =>
    mean (zip_with (fun yi pi => (IZR yi - pi) * (IZR yi - pi)) y p);
  log_loss := fun y p =>
    - mean (zip_with (fun yi pi =>
                        IZR yi * ln pi + (1 - IZR yi) * ln (1 - pi)) y p);
  xgb_predict_length := fun avg X => length_map (fun _ => avg) X;
  logit_predict_proba1_length := fun _ meta =>
    length_map (fun row => nth 0 row 0) meta;
  iso_predict_length := fun _ raw => eq_refl
|}.

(** A match row: one feature [x], the goals, and the total xG. *)
Definition match_row (x home_goals away_goals total_xg : R) (label : Z)
  : Row := {|
  cell := fun c =>
    if String.eqb c "x" then x
    else if String.eqb c "home_goals" then home_goals
    else if String.eqb c "away_goals" then away_goals
    else if String.eqb c "total_xg" then total_xg
    else 0;
  over25 := label
|}.

Definition r0 : Row := match_row 1 2 1 2 1.
Definition r1 : Row := match_row 2 0 1 2 0.
Definition r2 : Row := match_row 3 1 1 2 0.
Definition r3 : Row := match_row 4 3 1 2 1.
Definition r4 : Row := match_row 5 0 0 2 0.
Definition r5 : Row := match_row 6 2 2 2 1.

(** The same last match with total xG 1 instead of 2. *)
Definition r5' : Row := match_row 6 2 2 1 1.

Definition frame (rs : list Row) : DataFrame := {|
  columns := ["x"; "home_goals"; "away_goals"; "total_xg"; "over25"];
  numeric := fun _ => true;
  rows := rs
|}.

(** Six matches in chronological order, and the same six with another
    total xG in the last one. *)
Definition season : DataFrame := frame [r0; r1; r2; r3; r4; r5].
Definition season' : DataFrame := frame [r0; r1; r2; r3; r4; r5'].

(** The same matches in a table with one more numeric column. *)
Definition wider_season : DataFrame := {|
  columns := ["x"; "form"; "home_goals"; "away_goals"; "total_xg"; "over25"];
  numeric := fun _ => true;
  rows := [r0; r1; r2; r3; r4; r5]
|}.


(** A model straight out of [__init__]. *)
Definition fresh : QuantModel := init tt.

(** The last fold of the five-fold split of six matches. *)
Definition last_train : list nat := [0; 1; 2; 3; 4]%nat.
Definition last_test : list nat := [5]%nat.

End ModelScenario.

Section EnsembleFacts.

Import Model.

Open Scope R_scope.

Context `{E : Estimators}.

Lemma clip_bounds x : 0.01 <= clip 0.01 0.99 x <= 0.99.
Proof.
  unfold clip, Rmin, Rmax.
  destruct (Rle_dec x 0.01); destruct (Rle_dec _ 0.99); lra.
Qed.

(** [np.clip] keeps a value of the interval and moves any other to the
    nearer end. *)
Lemma clip_cases x :
  (0.01 <= x <= 0.99 -> clip 0.01 0.99 x = x) /\
  (x < 0.01 -> clip 0.01 0.99 x = 0.01) /\
  (0.99 < x -> clip 0.01 0.99 x = 0.99).
Proof.
  unfold clip, Rmin, Rmax.
  destruct (Rle_dec x 0.01); destruct (Rle_dec _ 0.99);
    repeat split; intros; lra.
Qed.



(** After [fit], [predict_proba] returns a table. *)
Lemma predict_proba_after_fit (m0 : QuantModel) df_fit df :
  exists out, predict_proba (fit m0 df_fit) df = Ok out.
Proof. unfold predict_proba, fit. simpl. eexists. reflexivity. Qed.

(** *** One value per row *)

Lemma values_length df features :
  length (values df features) = length (rows df).
Proof. unfold values. apply length_map. Qed.

Lemma column_length df c : length (column df c) = length (rows df).
Proof. unfold column. apply length_map. Qed.

Lemma predict_totals_length (m : QuantModel) h a :
  length (predict_totals m h a) = Nat.min (length h) (length a).
Proof. unfold predict_totals. apply length_zip_with. Qed.

Lemma poisson_baseline_length (m : QuantModel) df :
  length (_poisson_baseline m df) = length (rows df).
Proof.
  unfold _poisson_baseline. cbv zeta.
  rewrite predict_totals_length, repeat_length. lia.
Qed.

Lemma meta_matrix_length df a b :
  length a = length (rows df) -> length b = length (rows df) ->
  length (meta_matrix df a b) = length (rows df).
Proof.
  intros Ha Hb. unfold meta_matrix, column_stack_more, column_stack2.
  cbv zeta. destruct (has_column df "market_momentum_over").
  - rewrite !length_zip_with, !column_length. lia.
  - rewrite length_zip_with. lia.
Qed.

(** The calibrator's output in [predict_proba], before [np.clip]: the
    forward pass through the two regressors, the grid, the baseline, the
    meta-learner and the calibrator. *)
Definition calibrator_output (m : QuantModel) (df : DataFrame)
  (hm am : XGB) (mm : Logit) (iso : Iso) : list R :=
  let X := values df (feature_cols m) in
  let prob_xg := predict_totals m (xgb_predict hm X) (xgb_predict am X) in
  let meta_features := meta_matrix df prob_xg (_poisson_baseline m df) in
  iso_predict iso (logit_predict_proba1 mm meta_features).

Lemma calibrator_output_length (m : QuantModel) df hm am mm iso :
  length (calibrator_output m df hm am mm iso) = length (rows df).
Proof.
  unfold calibrator_output. cbv zeta.
  rewrite iso_predict_length, logit_predict_proba1_length.
  apply meta_matrix_length.
  - rewrite predict_totals_length, !xgb_predict_length, values_length. lia.
  - apply poisson_baseline_length.
Qed.

Lemma predict_proba_fitted (m : QuantModel) df hm am mm iso :
  _is_fitted m = true ->
  home_model m = Some hm -> away_model m = Some am ->
  meta_model m = Some mm -> calibrator m = Some iso ->
  exists out,
    predict_proba m df = Ok out /\
    prob_over25 out
    = map (clip 0.01 0.99) (calibrator_output m df hm am mm iso) /\
    prob_under25 out = map (fun c => 1 - c) (prob_over25 out).
Proof.
  intros Hfit Hh Ha Hm Hc. unfold predict_proba.
  rewrite Hfit, Hh, Ha, Hm, Hc. simpl negb. cbv iota zeta.
  eexists. split; [reflexivity|]. split; reflexivity.
Qed.

(** *** What [evaluate] reads of the model object *)




(** Resolving again after a fit on the same table gives the same
    columns. *)
Lemma resolve_features_after_fit (m : QuantModel) df :
  _resolve_features (fit m df) df = _resolve_features m df.
Proof.
  unfold _resolve_features at 1. simpl feature_cols.
  destruct (_resolve_features m df) as [|c t] eqn:Hres; [|reflexivity].
  unfold _resolve_features in Hres.
  destruct (feature_cols m); [exact Hres | discriminate Hres].
Qed.





(** *** The exceptions of [evaluate] *)





End EnsembleFacts.

Section EnsembleClaims.

Import Model.

Open Scope R_scope.

(** C9: on a fitted model (the fitted flag set and the four estimators
    stored, as [fit] leaves them) [predict_proba] returns a table with
    one over-probability and one under-probability per row of the table
    given; each over-probability is the calibrator's output for its row
    clipped into [0.01, 0.99] (kept when it lies in the interval, moved
    to 0.01 when below, to 0.99 when above); the under-probability
    column is 1 minus the over-probability column, row by row, and so it
    lies in [0.01, 0.99] too. *)
Theorem predict_proba_clipped `{E : Estimators}
  (m : QuantModel) (df : DataFrame)
  (hm am : XGB) (mm : Logit) (iso : Iso) :
  _is_fitted m = true ->
  home_model m = Some hm -> away_model m = Some am ->
  meta_model m = Some mm -> calibrator m = Some iso ->
  exists out,
    predict_proba m df = Ok out /\
    length (prob_over25 out) = length (rows df) /\
    length (prob_under25 out) = length (rows df) /\
    Forall2 (fun c p =>
               0.01 <= p <= 0.99 /\
               (0.01 <= c <= 0.99 -> p = c) /\
               (c < 0.01 -> p = 0.01) /\
               (0.99 < c -> p = 0.99))
      (calibrator_output m df hm am mm iso) (prob_over25 out) /\
    Forall (fun p => 0.01 <= p <= 0.99) (prob_over25 out) /\
    prob_under25 out = map (fun p => 1 - p) (prob_over25 out) /\
    Forall (fun p => 0.01 <= p <= 0.99) (prob_under25 out).
Proof.
  intros Hfit Hh Ha Hm Hc.
  destruct (predict_proba_fitted m df hm am mm iso Hfit Hh Ha Hm Hc)
    as (out & Hout & Hover & Hunder).
  exists out. split; [exact Hout|].
  rewrite Hunder, Hover.
  rewrite !length_map, calibrator_output_length.
  split; [reflexivity|]. split; [reflexivity|].
  split; [|split; [|split; [reflexivity|]]].
  - clear Hover. induction (calibrator_output m df hm am mm iso)
      as [|c t IH]; simpl; constructor; [|exact IH].
    split; [apply clip_bounds | apply clip_cases].
  - apply Forall_forall. intros p Hp.
    apply list_elem_of_In, in_map_iff in Hp.
    destruct Hp as (c & <- & _). apply clip_bounds.
  - apply Forall_forall. intros p Hp.
    apply list_elem_of_In, in_map_iff in Hp.
    destruct Hp as (q & <- & Hq). apply in_map_iff in Hq.
    destruct Hq as (c & <- & _).
    pose proof (clip_bounds c). lra.
Qed.

(** C9 on the model fitted on the six matches of the scenario and
    queried on the same matches. *)
Lemma predict_proba_clipped_witness :
  let m := fit ModelScenario.fresh ModelScenario.season in
  exists hm am mm iso out,
    predict_proba m ModelScenario.season = Ok out /\
    length (prob_over25 out) = length (rows ModelScenario.season) /\
    length (prob_under25 out) = length (rows ModelScenario.season) /\
    Forall2 (fun c p =>
               0.01 <= p <= 0.99 /\
               (0.01 <= c <= 0.99 -> p = c) /\
               (c < 0.01 -> p = 0.01) /\
               (0.99 < c -> p = 0.99))
      (calibrator_output m ModelScenario.season hm am mm iso)
      (prob_over25 out) /\
    Forall (fun p => 0.01 <= p <= 0.99) (prob_over25 out) /\
    prob_under25 out = map (fun p => 1 - p) (prob_over25 out) /\
    Forall (fun p => 0.01 <= p <= 0.99) (prob_under25 out).
Proof.
  cbv zeta. do 4 eexists.
  apply (predict_proba_clipped
           (fit ModelScenario.fresh ModelScenario.season)
           ModelScenario.season); reflexivity.
Defined.

(** On the six matches of the first scenario the first fold trains on a
    single match, hence on a single class, and the logistic regression
    refuses it: [evaluate] raises a [ValueError]. *)
Lemma evaluate_single_class_fold :
  exists msg,
    evaluate ModelScenario.fresh ModelScenario.season
    = Err (ValueError msg).
Proof. eexists. reflexivity. Qed.




End EnsembleClaims.

Section BaselineFacts.

Import Model.

Open Scope R_scope.

(** At the line 2.5 the test of the grid loop is [i + j <= 2]. *)
Lemma within_line_default i j :
  within_line i j 2.5 = (i + j <=? 2)%nat.
Proof.
  unfold within_line.
  destruct (Rle_dec (INR (i + j)) 2.5) as [H|H];
    destruct (Nat.leb_spec (i + j) 2) as [Hn|Hn]; try reflexivity.
  - exfalso. assert (H3 : INR 3 <= INR (i + j)) by (apply le_INR; lia).
    assert (E3 : INR 3 = 3) by (simpl; lra). lra.
  - exfalso. apply H. assert (H2 : INR (i + j) <= INR 2) by (apply le_INR; lia).
    assert (E2 : INR 2 = 2) by (simpl; lra). lra.
Qed.

Lemma default_grid_pairs :
  List.filter (fun ij : nat * nat => (fst ij + snd ij <=? 2)%nat)
    (list_prod (goal_range 10) (goal_range 10))
  = [(0, 0); (0, 1); (0, 2); (1, 0); (1, 1); (2, 0)]%nat.
Proof. vm_compute. reflexivity. Qed.

(** The under-mass of the default grid (line 2.5, counts 0..10) when
    both sides have the rate [lam]. *)
Lemma under_mass_default lam :
  under_mass_spec 2.5 10 lam lam
  = exp (- lam) * exp (- lam) * (1 + 2 * lam + 2 * lam * lam).
Proof.
  unfold under_mass_spec.
  rewrite (filter_ext _ (fun ij : nat * nat => (fst ij + snd ij <=? 2)%nat))
    by (intros [i j]; apply within_line_default).
  rewrite default_grid_pairs.
  unfold sum_list, poisson_pmf. simpl. field.
Qed.

Lemma over_probability_default lam :
  0.01 <= lam ->
  over_probability 2.5 10 lam lam
  = 1 - exp (- lam) * exp (- lam) * (1 + 2 * lam + 2 * lam * lam).
Proof.
  intros Hlam. rewrite over_probability_complement.
  rewrite Rmax_left by lra. rewrite under_mass_default. reflexivity.
Qed.

End BaselineFacts.

Section BaselineClaims.

Import Model.

Open Scope R_scope.

(** The baseline column of a set of rows is a function of those rows
    (and of the grid settings) alone. *)
Lemma baseline_of_rows `{E : Estimators}
  (m : QuantModel) (df df' : DataFrame) (idx : list nat) :
  iloc df idx = iloc df' idx ->
  _poisson_baseline m (iloc df idx) = _poisson_baseline m (iloc df' idx).
Proof. intros ->. reflexivity. Qed.

Lemma te_baseline_season :
  te_prob_poi ModelScenario.fresh ModelScenario.season
    ModelScenario.last_test
  = [1 - exp (-1) * exp (-1) * 5].
Proof.
  unfold te_prob_poi, _poisson_baseline, predict_totals, baseline_rate,
    mean, column.
  simpl. replace ((2 + 0) / 1 / 2) with 1 by lra.
  rewrite over_probability_default by lra.
  replace (Ropp 1) with (-1) by lra. f_equal. lra.
Qed.

Lemma te_baseline_season' :
  te_prob_poi ModelScenario.fresh ModelScenario.season'
    ModelScenario.last_test
  = [1 - exp (-1) * (5 / 2)].
Proof.
  unfold te_prob_poi, _poisson_baseline, predict_totals, baseline_rate,
    mean, column.
  simpl. replace ((1 + 0) / 1 / 2) with (1 / 2) by lra.
  rewrite over_probability_default by lra.
  rewrite <- exp_plus. replace (- (1 / 2) + - (1 / 2)) with (-1) by lra.
  f_equal. lra.
Qed.

Lemma exp_minus_one_below_half : exp (-1) < 1 / 2.
Proof.
  pose proof (exp_ineq1 1) as H1.
  assert (Hgt : 2 < exp 1) by (apply H1; lra).
  assert (Hinv : exp (- 1) * exp 1 = 1).
  { rewrite <- exp_plus. replace (-1 + 1) with 0 by lra. apply exp_0. }
  pose proof (exp_pos (-1)) as Hpos.
  nra.
Qed.

(** C1 (the code at a failing input): six matches, five folds; the last
    fold trains on matches 0..4 and tests on match 5.  Two seasons that
    agree on the training matches, and differ only in the total xG of
    the test match, get the same training-row baseline and different
    test-row baselines: the test-row baseline is computed from the test
    row. *)
Theorem test_baseline_computed_from_test_rows :
  let m := ModelScenario.fresh in
  (exists folds,
     time_series_split (ts_splits m) (length (rows ModelScenario.season))
     = Ok (folds ++ [(ModelScenario.last_train, ModelScenario.last_test)]))
  /\
  iloc ModelScenario.season ModelScenario.last_train
  = iloc ModelScenario.season' ModelScenario.last_train /\
  tr_prob_poi m ModelScenario.season ModelScenario.last_train
  = tr_prob_poi m ModelScenario.season' ModelScenario.last_train /\
  te_prob_poi m ModelScenario.season ModelScenario.last_test
  <> te_prob_poi m ModelScenario.season' ModelScenario.last_test.
Proof.
  cbv zeta. split; [|split; [|split]].
  - eexists [_; _; _; _]. vm_compute. reflexivity.
  - reflexivity.
  - reflexivity.
  - rewrite te_baseline_season, te_baseline_season'.
    intros Heq. injection Heq as Heq.
    pose proof exp_minus_one_below_half as Hhalf.
    pose proof (exp_pos (-1)) as Hpos.
    nra.
Qed.

End BaselineClaims.

(** * Further properties of the strategy code *)

(** ** Decimal rounding *)

Section RoundingFacts.

Open Scope Q_scope.

Lemma round_half_even_cases s :
  Py.round_half_even s = Qfloor s \/
  (Py.round_half_even s = (Qfloor s + 1)%Z /\ 1 # 2 <= s - inject_Z (Qfloor s)).
Proof.
  unfold Py.round_half_even.
  destruct (Qcompare_spec (s - inject_Z (Qfloor s)) (1 # 2)) as [H|H|H].
  - destruct (Z.even (Qfloor s)); [left; reflexivity|].
    right. split; [reflexivity | lra].
  - left. reflexivity.
  - right. split; [reflexivity | lra].
Qed.

Lemma round_half_even_floor s :
  s - inject_Z (Qfloor s) < 1 # 2 -> Py.round_half_even s = Qfloor s.
Proof.
  intros H. unfold Py.round_half_even.
  destruct (Qcompare_spec (s - inject_Z (Qfloor s)) (1 # 2)) as [E|E|E];
    [lra | reflexivity | lra].
Qed.

Lemma round_half_even_ceil s :
  1 # 2 < s - inject_Z (Qfloor s) ->
  Py.round_half_even s = (Qfloor s + 1)%Z.
Proof.
  intros H. unfold Py.round_half_even.
  destruct (Qcompare_spec (s - inject_Z (Qfloor s)) (1 # 2)) as [E|E|E];
    [lra | lra | reflexivity].
Qed.

Lemma round_half_even_lower s : (Qfloor s <= Py.round_half_even s)%Z.
Proof.
  destruct (round_half_even_cases s) as [H|[H _]]; rewrite H; lia.
Qed.

Lemma round_half_even_upper s : (Py.round_half_even s <= Qfloor s + 1)%Z.
Proof.
  destruct (round_half_even_cases s) as [H|[H _]]; rewrite H; lia.
Qed.

(** Rounding to the nearest integer is monotone. *)
Lemma round_half_even_mono s t :
  s <= t -> (Py.round_half_even s <= Py.round_half_even t)%Z.
Proof.
  intros Hst.
  pose proof (Qfloor_resp_le s t Hst) as Hfl.
  destruct (Z.eq_dec (Qfloor s) (Qfloor t)) as [Heq|Hne].
  - destruct (Qcompare_spec (t - inject_Z (Qfloor t)) (1 # 2)) as [E|E|E].
    + (* t sits on the tie *)
      destruct (Qcompare_spec (s - inject_Z (Qfloor s)) (1 # 2)) as [F|F|F].
      * assert (Hs : s == t).
        { rewrite Heq in F. lra. }
        rewrite (Py.round_half_even_comp s t Hs). lia.
      * rewrite (round_half_even_floor s F), Heq.
        apply round_half_even_lower.
      * rewrite Heq in F. lra.
    + assert (F : s - inject_Z (Qfloor s) < 1 # 2) by (rewrite Heq; lra).
      rewrite (round_half_even_floor s F), Heq.
      apply round_half_even_lower.
    + rewrite (round_half_even_ceil t E), <- Heq.
      apply round_half_even_upper.
  - pose proof (round_half_even_upper s). pose proof (round_half_even_lower t).
    lia.
Qed.

Lemma scale_pos n : 0 < inject_Z (10 ^ Z.of_nat n).
Proof.
  change 0 with (inject_Z 0). rewrite <- Zlt_Qlt.
  apply Z.pow_pos_nonneg; lia.
Qed.

(** [round(x, n)] is monotone in [x]. *)
Lemma py_round_mono x y n : x <= y -> Py.round x n <= Py.round y n.
Proof.
  intros Hxy. unfold Py.round.
  pose proof (scale_pos n) as Hs.
  set (scale := inject_Z (10 ^ Z.of_nat n)) in *.
  assert (Hm : x * scale <= y * scale) by nra.
  apply round_half_even_mono in Hm. rewrite Zle_Qle in Hm.
  apply Qmult_le_compat_r with (z := / scale) in Hm.
  - exact Hm.
  - apply Qlt_le_weak, Qinv_lt_0_compat, Hs.
Qed.

Lemma py_round_0 n : Py.round 0 n == 0.
Proof.
  unfold Py.round.
  rewrite (Py.round_half_even_comp (0 * inject_Z (10 ^ Z.of_nat n)) 0)
    by apply Qmult_0_l.
  change (Py.round_half_even 0) with 0%Z. unfold Qdiv. apply Qmult_0_l.
Qed.

Lemma py_round_nonneg x n : 0 <= x -> 0 <= Py.round x n.
Proof.
  intros Hx. rewrite <- (py_round_0 n). apply py_round_mono. exact Hx.
Qed.

Lemma py_min_le_r a b : Py.min a b <= b.
Proof. unfold Py.min. destruct (Qlt_le_dec b a); lra. Qed.

Lemma py_min_le_l a b : Py.min a b <= a.
Proof. unfold Py.min. destruct (Qlt_le_dec b a); lra. Qed.

Lemma py_min_glb a b c : c <= a -> c <= b -> c <= Py.min a b.
Proof. unfold Py.min. destruct (Qlt_le_dec b a); lra. Qed.

End RoundingFacts.

(** ** Implied probability, expected value and Kelly stake together *)

Section CoreCalculations.

Import Strategy.

Open Scope Q_scope.

Lemma implied_probability_high o :
  1 < o -> implied_probability o * o == 1.
Proof.
  intros Ho. unfold implied_probability.
  destruct (Py.le o 1) eqn:E.
  - apply Py.le_spec in E. lra.
  - field. lra.
Qed.

Lemma implied_probability_low o : o <= 1 -> implied_probability o = 1.
Proof.
  intros Ho. unfold implied_probability.
  apply Py.le_spec in Ho. rewrite Ho. reflexivity.
Qed.

Lemma implied_probability_range o :
  0 < implied_probability o <= 1.
Proof.
  destruct (Qlt_le_dec 1 o) as [Ho|Ho].
  - pose proof (implied_probability_high o Ho) as Hm.
    assert (Hpos : 0 < implied_probability o).
    { destruct (Qlt_le_dec 0 (implied_probability o)); [assumption|].
      exfalso. nra. }
    split; [exact Hpos | nra].
  - rewrite (implied_probability_low o Ho). split; lra.
Qed.

Lemma implied_probability_antitone o1 o2 :
  o1 <= o2 -> implied_probability o2 <= implied_probability o1.
Proof.
  intros Hle.
  destruct (Qlt_le_dec 1 o1) as [H1|H1].
  - assert (H2 : 1 < o2) by lra.
    pose proof (implied_probability_high o1 H1) as E1.
    pose proof (implied_probability_high o2 H2) as E2.
    pose proof (implied_probability_range o1) as R1.
    pose proof (implied_probability_range o2) as R2.
    destruct (Qlt_le_dec (implied_probability o1) (implied_probability o2));
      [exfalso; nra | assumption].
  - rewrite (implied_probability_low o1 H1).
    apply implied_probability_range.
Qed.

(** X1: the implied probability always lies in (0, 1], and longer odds
    never imply a higher probability. *)
Theorem implied_probability_bounds_antitone (o1 o2 : Q) :
  0 < implied_probability o1 <= 1 /\
  (o1 <= o2 -> implied_probability o2 <= implied_probability o1).
Proof.
  split; [apply implied_probability_range | apply implied_probability_antitone].
Qed.

Lemma implied_probability_bounds_antitone_witness :
  implied_probability (5 # 2) <= implied_probability 2.
Proof.
  apply (implied_probability_bounds_antitone 2 (5 # 2)).
  vm_compute. discriminate.
Defined.

(** X2: for tradable odds the four signs agree: the expected value is
    positive exactly when the probability exceeds the implied one
    (positive closing-line value) and exactly when the Kelly stake is
    positive; and a non-negative expected value is the Kelly stake times
    the net odds. *)
Theorem positive_edge_equivalences (p odds : Q) :
  1 < odds ->
  (0 < expected_value p odds <-> implied_probability odds < p) /\
  (0 < expected_value p odds <->
   0 < closing_line_value p (implied_probability odds)) /\
  (0 < expected_value p odds <-> 0 < kelly_stake p odds) /\
  (0 <= expected_value p odds ->
   kelly_stake p odds * (odds - 1) == expected_value p odds).
Proof.
  intros Hodds.
  pose proof (implied_probability_high odds Hodds) as Himp.
  pose proof (implied_probability_range odds) as Hr.
  assert (Hev : expected_value p odds == p * odds - 1)
    by (unfold expected_value; ring).
  assert (H1 : 0 < expected_value p odds <-> implied_probability odds < p).
  { rewrite Hev. split; intros H.
    - destruct (Qlt_le_dec (implied_probability odds) p); [assumption|].
      exfalso. nra.
    - nra. }
  split; [exact H1|]. split.
  { rewrite H1. unfold closing_line_value. split; intros; lra. }
  rewrite kelly_stake_unfold by exact Hodds.
  pose proof (f_star_times_b p odds Hodds) as Hf.
  assert (Hfe : f_star p odds * (odds - 1) == expected_value p odds).
  { rewrite Hf. unfold expected_value. ring. }
  destruct (py_max_0_cases (f_star p odds)) as [[Hle E]|[Hpos E]].
  - split.
    + rewrite E. split; intros H; [exfalso; nra | lra].
    + intros Hnn. rewrite E. assert (expected_value p odds <= 0) by nra. lra.
  - rewrite E. split.
    + split; intros _; [exact Hpos | nra].
    + intros _. exact Hfe.
Qed.

Lemma positive_edge_equivalences_witness :
  0 < kelly_stake (8 # 10) (18 # 10) /\
  kelly_stake (8 # 10) (18 # 10) * ((18 # 10) - 1)
  == expected_value (8 # 10) (18 # 10).
Proof.
  destruct (positive_edge_equivalences (8 # 10) (18 # 10)) as (_ & _ & Hk & He).
  - reflexivity.
  - split; [apply Hk; reflexivity | apply He; vm_compute; discriminate].
Defined.

Lemma kelly_stake_is_a_fraction_nonneg p odds : 0 <= kelly_stake p odds.
Proof.
  destruct (Qlt_le_dec 1 odds) as [Hodds|Hodds].
  - rewrite kelly_stake_unfold by exact Hodds.
    destruct (py_max_0_cases (f_star p odds)) as [[_ E]|[Hpos E]];
      rewrite E; lra.
  - rewrite kelly_stake_low_odds by exact Hodds. lra.
Qed.

(** X3: the Kelly stake is never negative, and for a probability in
    [0, 1] it never exceeds that probability, so it is a fraction of the
    bankroll. *)
Theorem kelly_stake_is_a_fraction (p odds : Q) :
  0 <= kelly_stake p odds /\
  (0 <= p -> p <= 1 -> kelly_stake p odds <= p).
Proof.
  destruct (Qlt_le_dec 1 odds) as [Hodds|Hodds].
  - rewrite kelly_stake_unfold by exact Hodds.
    pose proof (f_star_times_b p odds Hodds) as Hf.
    destruct (py_max_0_cases (f_star p odds)) as [[Hle E]|[Hpos E]];
      rewrite E.
    + split; [lra | intros; lra].
    + split; [lra|]. intros H0 H1.
      destruct (Qlt_le_dec p (f_star p odds)); [exfalso; nra | assumption].
  - rewrite kelly_stake_low_odds by exact Hodds. split; [lra | intros; lra].
Qed.

Lemma kelly_stake_is_a_fraction_witness :
  kelly_stake (8 # 10) (18 # 10) <= 8 # 10.
Proof.
  apply (kelly_stake_is_a_fraction (8 # 10) (18 # 10));
    vm_compute; discriminate.
Defined.

End CoreCalculations.

(** ** What [analyse] returns *)

Section AnalyseFacts.

Import Strategy Candidate.

Open Scope Q_scope.

Variable cfg : Config.
Variable df : DataFrame.
Variable prob_df : ProbFrame.

(** The fields of an accepted candidate. *)
Lemma analyse_candidate_accepted idx s r :
  fst (run (analyse_candidate cfg df prob_df idx s)) = Accepted r ->
  let p := prob_map s prob_df idx in
  let steam := row_get_int df idx "steam_signal" 0 in
  exists o,
    select_odds df idx s = Some o /\ 1 < o /\
    passes_prob cfg p = true /\ passes_signal steam s = true /\
    passes_odds cfg o = true /\ passes_disagreement cfg p o = true /\
    passes_ev cfg p o = true /\
    match_index r = idx /\ bet_on r = side_name s /\
    market_odds r = o /\ steam_signal r = steam /\
    model_prob r = Py.round p 4 /\
    implied_prob_close r = Py.round (implied_probability o) 4 /\
    edge r = Py.round (p - implied_probability o) 4 /\
    clv r = Py.round (p - implied_probability o) 4 /\
    ev r = Py.round (expected_value p o) 4 /\
    kelly_fraction r = Py.round (kelly_stake p o) 4 /\
    recommended_stake r
    = Py.round (Py.min (kelly_stake p o * fractional_kelly cfg)
                  (max_stake_pct cfg)) 4 /\
    passes_filtro_a r = true /\ passes_filtro_b r = true.
Proof.
  intros Hacc. cbv zeta.
  destruct (select_odds df idx s) as [o|] eqn:Hsel.
  2: { rewrite (analyse_candidate_no_odds cfg df prob_df idx s Hsel) in Hacc.
       discriminate Hacc. }
  destruct (Qlt_le_dec 1 o) as [Hgt|Hle].
  2: { rewrite (analyse_candidate_low_odds cfg df prob_df idx s o Hsel Hle)
         in Hacc. discriminate Hacc. }
  exists o. split; [reflexivity|]. split; [exact Hgt|].
  assert (Hle : Py.le o 1 = false).
  { destruct (Py.le o 1) eqn:E; [|reflexivity].
    apply Py.le_spec in E. lra. }
  revert Hacc.
  unfold passes_prob, passes_signal, passes_odds, passes_disagreement,
    passes_ev, closing_line_value.
  unfold analyse_candidate.
  destruct s; simpl odds_map; cbv iota beta; rewrite Hsel, Hle;
    unfold run, bind, evaluated, ret; simpl side_name; simpl prob_map;
    cbv beta iota zeta.
  all: destruct (_check_filtro_a cfg _) eqn:Ea;
    destruct (_check_filtro_b _ _) eqn:Eb; simpl; try discriminate.
  all: destruct (Py.lt o (min_odds cfg)) eqn:Eo; simpl; try discriminate.
  all: destruct (_check_disagreement cfg _ _) eqn:Ed; simpl; try discriminate.
  all: destruct (Py.lt (expected_value _ o) _) eqn:Ee; simpl; try discriminate.
  all: intros Hacc; injection Hacc as <-; simpl;
    unfold closing_line_value; repeat split; reflexivity.
Qed.

(** The recommendations are the accepted candidates of the table. *)
Lemma analyse_elements r :
  r ∈ analyse cfg df prob_df <->
  exists idx s,
    idx ∈ index df /\
    fst (run (analyse_candidate cfg df prob_df idx s)) = Accepted r.
Proof.
  unfold analyse. rewrite sorted_desc_perm.
  rewrite list_elem_of_In, in_flat_map. split.
  - intros (idx & Hidx & Hin). apply in_flat_map in Hin.
    destruct Hin as (s & _ & Hin). exists idx, s.
    split; [apply list_elem_of_In; exact Hidx|].
    destruct (fst (run (analyse_candidate cfg df prob_df idx s))) as [e|r'];
      simpl in Hin; [contradiction|].
    destruct Hin as [->|[]]. reflexivity.
  - intros (idx & s & Hidx & Hacc). exists idx.
    split; [apply list_elem_of_In; exact Hidx|].
    apply in_flat_map. exists s. split; [destruct s; simpl; auto|].
    rewrite Hacc. simpl. left. reflexivity.
Qed.

End AnalyseFacts.

Section SortingFacts.

Import Strategy.

Open Scope Q_scope.

Context {A : Type} (key : A -> Q).

(** Descending by [key]. *)
Definition desc_by (a b : A) : Prop := key b <= key a.

Lemma insert_desc_sorted x l :
  StronglySorted desc_by l -> StronglySorted desc_by (insert_desc key x l).
Proof.
  induction 1 as [|y t Hsorted IH Hall]; simpl.
  - repeat constructor.
  - destruct (Py.le (key y) (key x)) eqn:E.
    + apply Py.le_spec in E. constructor; [constructor; assumption|].
      constructor; [exact E|].
      eapply Forall_impl; [exact Hall|]. unfold desc_by. intros z Hz. lra.
    + constructor; [exact IH|].
      apply (Permutation_Forall (x := x :: t)).
      * symmetry. apply insert_desc_perm.
      * constructor; [|exact Hall]. unfold desc_by.
        destruct (Qlt_le_dec (key x) (key y)) as [H|H]; [lra|].
        apply Py.le_spec in H. congruence.
Qed.

Lemma sorted_desc_sorted l : StronglySorted desc_by (sorted_desc key l).
Proof.
  unfold sorted_desc. induction l as [|x t IH]; simpl; [constructor|].
  apply insert_desc_sorted. exact IH.
Qed.

End SortingFacts.

Section AnalyseTableFacts.

Import Strategy.

Lemma analyse_recommendations_in_table cfg df prob_df :
  Forall (fun r => match_index r ∈ index df) (analyse cfg df prob_df).
Proof.
  apply Forall_forall. intros r Hr.
  apply analyse_elements in Hr. destruct Hr as (idx & s & Hidx & Hacc).
  apply analyse_candidate_accepted in Hacc. cbv zeta in Hacc.
  destruct Hacc as (o & _ & _ & _ & _ & _ & _ & _ & Hm & _).
  rewrite Hm. exact Hidx.
Qed.

(** Counting the entries that satisfy a test does not depend on the
    order of the list. *)
Lemma filter_length_perm {A} (f : A -> bool) (l l' : list A) :
  l ≡ₚ l' -> length (List.filter f l) = length (List.filter f l').
Proof.
  induction 1 as [|x l l' _ IH|x y l|l l' l'' _ IH1 _ IH2]; simpl.
  - reflexivity.
  - destruct (f x); simpl; congruence.
  - destruct (f x), (f y); reflexivity.
  - congruence.
Qed.

(** If each match of the table contributes at most [k] recommendations
    that satisfy a test, and only when it carries the label [idx], then
    the list returned holds at most [k] of them per row labelled
    [idx]. *)
Lemma analyse_count_per_label cfg df prob_df
  (f : BetRecommendation -> bool) (k : nat) (idx : Z) :
  (forall idx',
     (length (List.filter f
        (flat_map (fun s =>
           admitted_of (fst (run (analyse_candidate cfg df prob_df idx' s))))
           [Over25; Under25]))
      <= if Z.eq_dec idx' idx then k else 0)%nat) ->
  (length (List.filter f (analyse cfg df prob_df))
   <= k * count_occ Z.eq_dec (index df) idx)%nat.
Proof.
  intros Hblock. unfold analyse.
  rewrite (filter_length_perm f _ _ (sorted_desc_perm ev _)).
  induction (index df) as [|idx' t IH]; [simpl; lia|].
  specialize (Hblock idx'). simpl flat_map in Hblock, IH |- *.
  rewrite List.filter_app, length_app.
  cbn [count_occ].
  destruct (Z.eq_dec idx' idx); rewrite ?Nat.mul_succ_r; lia.
Qed.

(** A candidate contributes at most one recommendation, on its own
    match and side. *)
Lemma admitted_of_candidate cfg df prob_df idx s :
  let out := admitted_of
               (fst (run (analyse_candidate cfg df prob_df idx s))) in
  (length out <= 1)%nat /\
  Forall (fun r => match_index r = idx /\ bet_on r = side_name s) out.
Proof.
  cbv zeta.
  destruct (fst (run (analyse_candidate cfg df prob_df idx s)))
    as [e|r] eqn:Hacc; simpl.
  - split; [lia | constructor].
  - split; [lia|]. constructor; [|constructor].
    apply analyse_candidate_accepted in Hacc. cbv zeta in Hacc.
    destruct Hacc as (o & _ & _ & _ & _ & _ & _ & _ & Hm & Hbet & _).
    split; assumption.
Qed.

Lemma filter_none {A} (f : A -> bool) (l : list A) :
  Forall (fun x => f x = false) l -> List.filter f l = [].
Proof.
  induction 1 as [|x t Hx _ IH]; simpl; [reflexivity|].
  rewrite Hx. exact IH.
Qed.

Lemma filter_length_le {A} (f : A -> bool) (l : list A) :
  (length (List.filter f l) <= length l)%nat.
Proof.
  induction l as [|x t IH]; simpl; [lia|]. destruct (f x); simpl; lia.
Qed.

End AnalyseTableFacts.

Section AnalyseStakeFacts.

Import Strategy.

Open Scope Q_scope.

Lemma analyse_sound_bets cfg df prob_df :
  0 <= fractional_kelly cfg -> 0 <= max_stake_pct cfg ->
  Forall (fun r =>
    0 <= recommended_stake r <= Py.round (max_stake_pct cfg) 4 /\
    1 < market_odds r)
    (analyse cfg df prob_df).
Proof.
  intros Hfrac Hmax. apply Forall_forall. intros r Hr.
  apply analyse_elements in Hr. destruct Hr as (idx & s & _ & Hacc).
  apply analyse_candidate_accepted in Hacc. cbv zeta in Hacc.
  destruct Hacc as (o & _ & Hgt & _ & _ & _ & _ & _ & _ & _ & Hodds
                    & _ & _ & _ & _ & _ & _ & _ & Hstake & _).
  rewrite Hstake, Hodds. split; [split|exact Hgt].
  - apply py_round_nonneg. apply py_min_glb; [|exact Hmax].
    pose proof (kelly_stake_is_a_fraction_nonneg (prob_map s prob_df idx) o).
    nra.
  - apply py_round_mono, py_min_le_r.
Qed.

End AnalyseStakeFacts.

Section AnalyseExtras.

Import Strategy Candidate.

Open Scope Q_scope.

(** X4: every recommendation returned by [analyse] is a candidate of
    the table that passed the five checks: it belongs to a match of the
    table, bets on one of the two sides, carries odds above 1 and not
    below the odds floor, a rounded probability and a rounded expected
    value not below the rounded floors, a rounded edge within the rounded
    disagreement cap, a closing-line value equal to its edge, both
    filter flags set and a steam signal that is not adverse. *)
Theorem analyse_recommendations_passed_every_check
  (cfg : Config) (df : DataFrame) (prob_df : ProbFrame) :
  Forall (fun r =>
    match_index r ∈ index df /\
    (bet_on r = "over25" \/ bet_on r = "under25") /\
    1 < market_odds r /\ min_odds cfg <= market_odds r /\
    Py.round (min_prob_threshold cfg) 4 <= model_prob r /\
    Py.round (min_ev_threshold cfg) 4 <= ev r /\
    edge r <= Py.round (disagreement_skip cfg) 4 /\
    clv r = edge r /\
    passes_filtro_a r = true /\ passes_filtro_b r = true /\
    _check_filtro_b (steam_signal r) (bet_on r) = true)
    (analyse cfg df prob_df).
Proof.
  apply Forall_forall. intros r Hr.
  apply analyse_elements in Hr. destruct Hr as (idx & s & Hidx & Hacc).
  apply analyse_candidate_accepted in Hacc. cbv zeta in Hacc.
  destruct Hacc as (o & _ & Hgt & Ha & Hb & Ho & Hd & He & Hm & Hbet & Hodds
                    & Hsteam & Hp & _ & Hedge & Hclv & Hev & _ & _ & Hfa & Hfb).
  rewrite Hm, Hbet, Hodds, Hsteam, Hp, Hev, Hedge, Hclv.
  split; [exact Hidx|]. split; [destruct s; simpl; auto|].
  split; [exact Hgt|]. split.
  { unfold passes_odds in Ho. apply negb_true_iff, Py.lt_false in Ho. exact Ho. }
  split.
  { apply py_round_mono. unfold passes_prob, _check_filtro_a in Ha.
    apply Py.ge_spec in Ha. exact Ha. }
  split.
  { apply py_round_mono. unfold passes_ev in He.
    apply negb_true_iff, Py.lt_false in He. exact He. }
  split.
  { apply py_round_mono. unfold passes_disagreement, _check_disagreement in Hd.
    apply Py.le_spec in Hd. unfold Py.abs in Hd.
    pose proof (Qle_Qabs (prob_map s prob_df idx - implied_probability o)).
    lra. }
  split; [reflexivity|]. split; [exact Hfa|]. split; [exact Hfb|].
  exact Hb.
Qed.

(** X5: with a non-negative Kelly multiplier and stake cap, every
    recommended stake lies between 0 and the cap (rounded to four
    decimals). *)
Theorem analyse_stake_within_cap
  (cfg : Config) (df : DataFrame) (prob_df : ProbFrame) :
  0 <= fractional_kelly cfg -> 0 <= max_stake_pct cfg ->
  Forall (fun r =>
    0 <= recommended_stake r <= Py.round (max_stake_pct cfg) 4)
    (analyse cfg df prob_df).
Proof.
  intros Hfrac Hmax.
  eapply Forall_impl; [apply analyse_sound_bets; assumption|].
  intros r [H _]. exact H.
Qed.

Lemma analyse_stake_within_cap_witness :
  let recs := analyse lenient_config
                (one_match [] (Some (21 # 10)) (Some (18 # 10))
                   (Some 2) (Some (19 # 10)) 0) (probs (85 # 100)) in
  length recs = 1%nat /\
  Forall (fun r => 0 <= recommended_stake r <= Py.round (3 # 100) 4) recs.
Proof.
  cbv zeta. split; [vm_compute; reflexivity|].
  apply (analyse_stake_within_cap lenient_config); vm_compute; discriminate.
Defined.

(** X6: the list returned by [analyse] is sorted by (rounded) expected
    value, highest first; for every match label and side it holds at
    most one recommendation per row of the table carrying that label,
    hence at most two recommendations per such row for the match, and
    at most two per match when the labels of the table are unique; in
    all, at most twice as many recommendations as the table has rows. *)
Theorem analyse_sorted_by_ev
  (cfg : Config) (df : DataFrame) (prob_df : ProbFrame) :
  let recs := analyse cfg df prob_df in
  StronglySorted (fun a b => ev b <= ev a) recs /\
  (forall idx s,
     (length (List.filter
                (fun r => Z.eqb (match_index r) idx
                          && String.eqb (bet_on r) (side_name s)) recs)
      <= count_occ Z.eq_dec (index df) idx)%nat) /\
  (forall idx,
     (length (List.filter (fun r => Z.eqb (match_index r) idx) recs)
      <= 2 * count_occ Z.eq_dec (index df) idx)%nat) /\
  (forall idx,
     count_occ Z.eq_dec (index df) idx = 1%nat ->
     (length (List.filter (fun r => Z.eqb (match_index r) idx) recs)
      <= 2)%nat) /\
  (length recs <= 2 * length (index df))%nat.
Proof.
  cbv zeta.
  assert (Hmatch : forall idx,
            (length (List.filter (fun r => Z.eqb (match_index r) idx)
                       (analyse cfg df prob_df))
             <= 2 * count_occ Z.eq_dec (index df) idx)%nat).
  { intros idx. apply analyse_count_per_label. intros idx'.
    cbn [flat_map]. rewrite app_nil_r, List.filter_app, length_app.
    destruct (admitted_of_candidate cfg df prob_df idx' Over25) as [Ho Hao].
    destruct (admitted_of_candidate cfg df prob_df idx' Under25) as [Hu Hau].
    cbv zeta in Ho, Hu, Hao, Hau.
    destruct (Z.eq_dec idx' idx) as [->|Hne].
    - pose proof (filter_length_le (fun r => Z.eqb (match_index r) idx)
                    (admitted_of (fst (run (analyse_candidate cfg df
                                              prob_df idx Over25))))).
      pose proof (filter_length_le (fun r => Z.eqb (match_index r) idx)
                    (admitted_of (fst (run (analyse_candidate cfg df
                                              prob_df idx Under25))))).
      lia.
    - rewrite !filter_none; [simpl; lia | |].
      + eapply Forall_impl; [exact Hau|]. intros r [Hm _]. simpl.
        rewrite Hm. apply Z.eqb_neq. exact Hne.
      + eapply Forall_impl; [exact Hao|]. intros r [Hm _]. simpl.
        rewrite Hm. apply Z.eqb_neq. exact Hne. }
  split; [unfold analyse; apply (sorted_desc_sorted ev)|].
  split.
  { intros idx s. rewrite <- (Nat.mul_1_l (count_occ _ _ _)).
    apply analyse_count_per_label. intros idx'.
    cbn [flat_map]. rewrite app_nil_r, List.filter_app, length_app.
    destruct (admitted_of_candidate cfg df prob_df idx' Over25) as [Ho Hao].
    destruct (admitted_of_candidate cfg df prob_df idx' Under25) as [Hu Hau].
    cbv zeta in Ho, Hu, Hao, Hau.
    set (f := fun r => Z.eqb (match_index r) idx
                       && String.eqb (bet_on r) (side_name s)).
    assert (Hwrong_side : forall s' l,
              s' <> s ->
              Forall (fun r => match_index r = idx' /\ bet_on r = side_name s')
                l ->
              List.filter f l = []).
    { intros s' l Hs Hl. apply filter_none.
      eapply Forall_impl; [exact Hl|]. intros r [_ Hb]. unfold f.
      rewrite Hb. apply andb_false_iff. right. apply String.eqb_neq.
      destruct s, s'; simpl; congruence. }
    assert (Hwrong_match : forall s' l,
              idx' <> idx ->
              Forall (fun r => match_index r = idx' /\ bet_on r = side_name s')
                l ->
              List.filter f l = []).
    { intros s' l Hne Hl. apply filter_none.
      eapply Forall_impl; [exact Hl|]. intros r [Hm _]. unfold f.
      rewrite Hm. apply andb_false_iff. left. apply Z.eqb_neq. exact Hne. }
    destruct (Z.eq_dec idx' idx) as [Heq|Hne].
    - pose proof (filter_length_le f
                    (admitted_of (fst (run (analyse_candidate cfg df
                                              prob_df idx' Over25))))).
      pose proof (filter_length_le f
                    (admitted_of (fst (run (analyse_candidate cfg df
                                              prob_df idx' Under25))))).
      destruct s.
      + rewrite (Hwrong_side Under25 _ ltac:(discriminate) Hau).
        simpl length. lia.
      + rewrite (Hwrong_side Over25 _ ltac:(discriminate) Hao).
        simpl length. lia.
    - rewrite (Hwrong_match Over25 _ Hne Hao),
        (Hwrong_match Under25 _ Hne Hau). simpl. lia. }
  split; [exact Hmatch|].
  split.
  { intros idx Hone. specialize (Hmatch idx). rewrite Hone in Hmatch.
    exact Hmatch. }
  clear Hmatch. unfold analyse. rewrite sorted_desc_length.
  induction (index df) as [|idx t IH]; simpl; [lia|].
  rewrite !length_app. simpl length in *.
  assert (Hone : forall s,
             (length (admitted_of
                (fst (run (analyse_candidate cfg df prob_df idx s))))
              <= 1)%nat).
  { intros s. destruct (fst _); simpl; lia. }
  pose proof (Hone Over25). pose proof (Hone Under25). lia.
Qed.

(** X6 on the match priced 1.91 / 2.34 with the probability floor at
    0.40: both sides are recommended, one recommendation each, and no
    more than two for the match. *)
Lemma analyse_sorted_by_ev_witness :
  let recs := analyse PairingScenario.two_sided_config
                PairingScenario.two_sided_match
                PairingScenario.two_sided_probs in
  length recs = 2%nat /\
  (length (List.filter (fun r => Z.eqb (match_index r) 0) recs) <= 2)%nat.
Proof.
  cbv zeta. split; [vm_compute; reflexivity|].
  destruct (analyse_sorted_by_ev PairingScenario.two_sided_config
              PairingScenario.two_sided_match
              PairingScenario.two_sided_probs)
    as (_ & _ & _ & Hunique & _).
  apply Hunique. reflexivity.
Defined.

(** X7: when the probability floor exceeds the probability implied by
    the odds floor by more than the disagreement cap, no candidate can
    pass both floors and the disagreement check: [analyse] returns the
    empty list for every table.  The default thresholds (0.80, 1.75,
    0.20) are of this kind. *)
Theorem analyse_empty_when_thresholds_clash
  (cfg : Config) (df : DataFrame) (prob_df : ProbFrame) :
  disagreement_skip cfg
  < min_prob_threshold cfg - implied_probability (min_odds cfg) ->
  analyse cfg df prob_df = [].
Proof.
  intros Hclash.
  destruct (analyse cfg df prob_df) as [|r t] eqn:Hrecs; [reflexivity|].
  exfalso.
  assert (Hr : r ∈ analyse cfg df prob_df) by (rewrite Hrecs; left).
  apply analyse_elements in Hr. destruct Hr as (idx & s & _ & Hacc).
  apply analyse_candidate_accepted in Hacc. cbv zeta in Hacc.
  destruct Hacc as (o & _ & _ & Ha & _ & Ho & Hd & _).
  unfold passes_prob, _check_filtro_a in Ha. apply Py.ge_spec in Ha.
  unfold passes_odds in Ho. apply negb_true_iff, Py.lt_false in Ho.
  unfold passes_disagreement, _check_disagreement in Hd.
  apply Py.le_spec in Hd. unfold Py.abs in Hd.
  pose proof (Qle_Qabs (prob_map s prob_df idx - implied_probability o)).
  pose proof (implied_probability_antitone (min_odds cfg) o Ho).
  lra.
Qed.

Lemma analyse_empty_when_thresholds_clash_witness :
  analyse default_config
    (one_match [] (Some (21 # 10)) (Some (18 # 10))
       (Some 2) (Some (19 # 10)) 0) (probs (85 # 100)) = [].
Proof.
  apply analyse_empty_when_thresholds_clash. vm_compute. reflexivity.
Defined.

End AnalyseExtras.

(** ** More on the pairing *)

Section PairingOrderFacts.

Import Strategy.

Open Scope Q_scope.

Variable cfg : Config.

Abbreviation by_prob := (desc_by model_prob).

Lemma pop_last_where_sorted (f : BetRecommendation -> bool) l y l' :
  StronglySorted by_prob l ->
  pop_last_where f l = Some (y, l') -> StronglySorted by_prob l'.
Proof.
  intros Hs. revert y l'.
  induction Hs as [|x t Hsorted IH Hall]; intros y l'; simpl; [discriminate|].
  destruct (pop_last_where f t) as [[z t']|] eqn:Hpop.
  - intros H. injection H as <- <-. constructor; [eapply IH; reflexivity|].
    apply pop_last_where_perm in Hpop.
    apply (Permutation_Forall Hpop) in Hall.
    inversion Hall; assumption.
  - destruct (f x); [|discriminate].
    intros H. injection H as <- <-. exact Hsorted.
Qed.

Lemma cross_league_partner_sorted best worst rest :
  StronglySorted by_prob rest ->
  StronglySorted by_prob (snd (cross_league_partner cfg best worst rest)).
Proof.
  intros Hs. unfold cross_league_partner.
  destruct (prefer_cross_league cfg && _)%bool; [|exact Hs].
  destruct (pop_last_where _ rest) as [[w rest'']|] eqn:Hpop; [|exact Hs].
  simpl. eapply pop_last_where_sorted; eassumption.
Qed.

Lemma cross_league_partner_from_tail best worst rest :
  fst (cross_league_partner cfg best worst rest) ∈ rest ++ [worst].
Proof.
  destruct (cross_league_partner_perm cfg best worst rest)
    as (dropped & Hp & _).
  rewrite <- Hp. left.
Qed.

Lemma pair_loop_leg_order fuel l :
  StronglySorted by_prob l ->
  Forall (fun d => model_prob (leg_2 d) <= model_prob (leg_1 d))
    (pair_loop cfg fuel l).
Proof.
  revert l. induction fuel as [|fuel IH]; intros l Hs; [constructor|].
  destruct (le_lt_dec 2 (length l)) as [Hlen|Hlen].
  - destruct (two_ends l Hlen) as (best & rest & worst & ->).
    rewrite pair_loop_step.
    inversion Hs as [|? ? Htail Hall]; subst.
    constructor.
    + simpl. rewrite Forall_forall in Hall.
      apply (Hall _ (cross_league_partner_from_tail best worst rest)).
    + apply IH, cross_league_partner_sorted.
      eapply StronglySorted_app_1_l. exact Htail.
  - rewrite pair_loop_short by exact Hlen. constructor.
Qed.

(** Without the cross-league preference the loop pairs the k-th entry
    from the top with the k-th entry from the bottom. *)
Lemma pair_loop_strongest_with_weakest fuel l :
  prefer_cross_league cfg = false ->
  (length l <= fuel)%nat ->
  pair_loop cfg fuel l
  = zip_with (make_double cfg)
      (take (length l / 2) l) (take (length l / 2) (reverse l)).
Proof.
  intros Hpref. revert l. induction fuel as [|fuel IH]; intros l Hfuel.
  - destruct l; [reflexivity | simpl in Hfuel; lia].
  - destruct (le_lt_dec 2 (length l)) as [Hlen|Hlen].
    + destruct (two_ends l Hlen) as (best & rest & worst & ->).
      rewrite pair_loop_step. unfold cross_league_partner.
      rewrite Hpref. simpl andb. cbv iota. simpl fst; simpl snd.
      simpl in Hfuel. rewrite length_app in Hfuel. simpl in Hfuel.
      rewrite IH by lia.
      assert (Hhalf : (length (best :: rest ++ [worst]) / 2
                       = S (length rest / 2))%nat).
      { simpl length. rewrite length_app. simpl length.
        replace (S (length rest + 1)) with (length rest + 1 * 2)%nat by lia.
        rewrite Nat.div_add by lia. lia. }
      rewrite Hhalf.
      assert (Hle : (length rest / 2 <= length rest)%nat)
        by (apply Nat.Div0.div_le_upper_bound; lia).
      rewrite reverse_cons, reverse_app. simpl reverse.
      change ([worst] ++ reverse rest) with (worst :: reverse rest).
      simpl take. simpl zip_with.
      rewrite !take_app_le by (rewrite ?length_reverse; exact Hle).
      reflexivity.
    + rewrite pair_loop_short by exact Hlen.
      destruct l as [|x [|y t]]; simpl in *; try reflexivity. lia.
Qed.

Lemma make_double_stake_bounds best worst :
  0 <= fractional_kelly cfg -> 0 <= max_stake_pct cfg ->
  0 <= double_stake (make_double cfg best worst)
  <= Py.round (max_stake_pct cfg) 4.
Proof.
  intros Hfrac Hmax. unfold make_double. simpl. split.
  - apply py_round_nonneg. apply py_min_glb; [|exact Hmax].
    pose proof (kelly_stake_is_a_fraction_nonneg
                  (model_prob best * model_prob worst)
                  (market_odds best * market_odds worst)).
    nra.
  - apply py_round_mono, py_min_le_r.
Qed.

Lemma pair_loop_stake_bounds fuel l :
  0 <= fractional_kelly cfg -> 0 <= max_stake_pct cfg ->
  Forall (fun d => 0 <= double_stake d <= Py.round (max_stake_pct cfg) 4)
    (pair_loop cfg fuel l).
Proof.
  intros Hfrac Hmax. revert l.
  induction fuel as [|fuel IH]; intros l; [constructor|].
  destruct (le_lt_dec 2 (length l)) as [Hlen|Hlen].
  - destruct (two_ends l Hlen) as (best & rest & worst & ->).
    rewrite pair_loop_step. constructor; [|apply IH].
    apply make_double_stake_bounds; assumption.
  - rewrite pair_loop_short by exact Hlen. constructor.
Qed.

End PairingOrderFacts.

Section PairingExtras.

Import Strategy.

Open Scope Q_scope.

(** X8: in every pair returned by [pair_doubles] the first leg is at
    least as probable as the second. *)
Theorem pair_doubles_first_leg_stronger
  (cfg : Config) (recs : list BetRecommendation) :
  Forall (fun d => model_prob (leg_2 d) <= model_prob (leg_1 d))
    (pair_doubles cfg recs).
Proof.
  unfold pair_doubles.
  destruct (negb (pairing_enabled cfg) || (length recs <? 2)%nat);
    [constructor|].
  apply pair_loop_leg_order. apply (sorted_desc_sorted model_prob).
Qed.

(** X9: without the cross-league preference, [pair_doubles] is the
    "Bilanciato" pairing of its docstring: after sorting by probability
    (highest first), the k-th pair is the k-th strongest single with the
    k-th weakest one, for the first [floor(n/2)] values of k. *)
Theorem pair_doubles_strongest_with_weakest
  (cfg : Config) (recs : list BetRecommendation) :
  pairing_enabled cfg = true ->
  prefer_cross_league cfg = false ->
  let sorted_recs := sorted_desc model_prob recs in
  let half := (length recs / 2)%nat in
  pair_doubles cfg recs
  = zip_with (make_double cfg)
      (take half sorted_recs) (take half (reverse sorted_recs)).
Proof.
  intros Hon Hpref. cbv zeta. unfold pair_doubles. rewrite Hon. simpl negb.
  simpl orb.
  destruct (Nat.ltb_spec (length recs) 2) as [Hshort|Hlong].
  - replace (length recs / 2)%nat with 0%nat; [reflexivity|].
    destruct recs as [|x [|y t]]; simpl in *; try reflexivity. lia.
  - rewrite pair_loop_strongest_with_weakest by (auto; lia).
    rewrite sorted_desc_length. reflexivity.
Qed.

Lemma pair_doubles_strongest_with_weakest_witness :
  pair_doubles PairingScenario.same_league_config
    PairingScenario.four_singles
  = [ make_double PairingScenario.same_league_config
        (Scenario.bet 1 Over25 (90 # 100) (3 # 100) 2 "A")
        (Scenario.bet 4 Over25 (84 # 100) (3 # 100) 2 "A");
      make_double PairingScenario.same_league_config
        (Scenario.bet 2 Over25 (88 # 100) (3 # 100) 2 "B")
        (Scenario.bet 3 Over25 (86 # 100) (3 # 100) 2 "B") ].
Proof.
  rewrite (pair_doubles_strongest_with_weakest
             PairingScenario.same_league_config
             PairingScenario.four_singles eq_refl eq_refl).
  reflexivity.
Defined.

(** X10: with the cross-league preference on, the first pair (the one
    of the most probable single) joins two singles of the same league
    only when every single of the list is of that league. *)
Theorem first_pair_same_league_only_if_forced
  (cfg : Config) (recs : list BetRecommendation)
  (d : DoubleBet) (ds : list DoubleBet) :
  prefer_cross_league cfg = true ->
  pair_doubles cfg recs = d :: ds ->
  league (leg_1 d) = league (leg_2 d) ->
  Forall (fun r => league r = league (leg_1 d)) recs.
Proof.
  intros Hpref Hpairs Hsame. unfold pair_doubles in Hpairs.
  destruct (negb (pairing_enabled cfg) || (length recs <? 2)%nat) eqn:Hgo;
    [discriminate|].
  apply orb_false_iff in Hgo. destruct Hgo as [_ Hlen].
  apply Nat.ltb_ge in Hlen.
  pose proof (sorted_desc_perm model_prob recs) as Hperm.
  rewrite <- (sorted_desc_length model_prob recs) in Hlen.
  set (sorted_recs := sorted_desc model_prob recs) in *.
  destruct (two_ends sorted_recs Hlen) as (best & rest & worst & Hs).
  rewrite Hs in Hpairs, Hperm.
  simpl length in Hpairs. rewrite pair_loop_step in Hpairs.
  injection Hpairs as <- _. simpl in Hsame |- *.
  apply (Permutation_Forall Hperm).
  unfold cross_league_partner in Hsame. rewrite Hpref in Hsame.
  simpl andb in Hsame.
  destruct (String.eqb (league best) (league worst)) eqn:Elg.
  - apply String.eqb_eq in Elg.
    destruct (pop_last_where _ rest) as [[w rest'']|] eqn:Hpop.
    + apply pop_last_where_found in Hpop. simpl in Hsame.
      rewrite negb_true_iff in Hpop. apply String.eqb_neq in Hpop.
      congruence.
    + apply pop_last_where_none in Hpop.
      constructor; [reflexivity|]. apply Forall_app. split.
      * eapply Forall_impl; [exact Hpop|]. intros r Hr. simpl in Hr.
        rewrite negb_false_iff in Hr. apply String.eqb_eq in Hr. exact Hr.
      * constructor; [symmetry; exact Elg | constructor].
  - simpl in Hsame. apply String.eqb_neq in Elg. congruence.
Qed.

Lemma first_pair_same_league_only_if_forced_witness :
  let recs := analyse PairingScenario.two_sided_config
                PairingScenario.two_sided_match
                PairingScenario.two_sided_probs in
  exists d,
    pair_doubles PairingScenario.two_sided_config recs = [d] /\
    Forall (fun r => league r = league (leg_1 d)) recs.
Proof.
  cbv zeta. eexists. split; [vm_compute; reflexivity|].
  eapply (first_pair_same_league_only_if_forced
            PairingScenario.two_sided_config _ _ []).
  - reflexivity.
  - vm_compute. reflexivity.
  - vm_compute. reflexivity.
Defined.

(** X11: with a non-negative Kelly multiplier and stake cap, the stake
    of every double lies between 0 and the cap (rounded to four
    decimals), whatever the stakes of its legs. *)
Theorem pair_doubles_stake_within_cap
  (cfg : Config) (recs : list BetRecommendation) :
  0 <= fractional_kelly cfg -> 0 <= max_stake_pct cfg ->
  Forall (fun d => 0 <= double_stake d <= Py.round (max_stake_pct cfg) 4)
    (pair_doubles cfg recs).
Proof.
  intros Hfrac Hmax. unfold pair_doubles.
  destruct (negb (pairing_enabled cfg) || (length recs <? 2)%nat);
    [constructor|].
  apply pair_loop_stake_bounds; assumption.
Qed.

Lemma pair_doubles_stake_within_cap_witness :
  Forall (fun d => 0 <= double_stake d <= Py.round (3 # 100) 4)
    (pair_doubles default_config PairingScenario.four_singles).
Proof.
  apply (pair_doubles_stake_within_cap default_config);
    vm_compute; discriminate.
Defined.

End PairingExtras.

(** ** More on the bankroll simulation *)

Section BankrollInvariants.

Import Strategy.

Open Scope Q_scope.

Variable cfg : Config.
Variable actuals : gmap Z Z.

(** A bet whose stake is a proper fraction and whose odds are at least
    even. *)
Definition sound_bet (rec : BetRecommendation) : Prop :=
  0 <= recommended_stake rec /\ recommended_stake rec < 1 /\
  1 <= market_odds rec.

Lemma settle_bankroll_positive rec a st :
  sound_bet rec -> 0 < bankroll st -> 0 < bankroll (settle rec a st).
Proof.
  intros (H0 & H1 & Ho) Hb. unfold settle. simpl.
  assert (Hw : 0 <= bankroll st * recommended_stake rec)
    by (apply Qmult_le_0_compat; lra).
  assert (Hlt : bankroll st * recommended_stake rec < bankroll st) by nra.
  destruct (bet_won rec a); [|lra].
  assert (0 <= bankroll st * recommended_stake rec * (market_odds rec - 1))
    by (apply Qmult_le_0_compat; lra).
  lra.
Qed.

Lemma sim_loop_bankroll_positive recs st :
  Forall sound_bet recs -> 0 < bankroll st ->
  0 < bankroll (sim_loop cfg actuals recs st).
Proof.
  intros Hall. revert st.
  induction Hall as [|rec rest Hrec _ IH]; intros st Hb; simpl; [exact Hb|].
  destruct (stop_loss_consecutive cfg <=? consecutive_losses st)%Z;
    [exact Hb|].
  destruct (actuals !! match_index rec) as [a|].
  - apply IH. apply settle_bankroll_positive; assumption.
  - apply IH. exact Hb.
Qed.

Lemma sim_loop_ledger_nonneg recs st :
  Forall sound_bet recs -> 0 < bankroll st ->
  Forall (fun e => 0 <= l_bankroll e) (history st) ->
  Forall (fun e => 0 <= l_bankroll e)
    (history (sim_loop cfg actuals recs st)).
Proof.
  intros Hall. revert st.
  induction Hall as [|rec rest Hrec _ IH]; intros st Hb Hh; simpl;
    [exact Hh|].
  destruct (stop_loss_consecutive cfg <=? consecutive_losses st)%Z;
    [exact Hh|].
  destruct (actuals !! match_index rec) as [a|].
  - pose proof (settle_bankroll_positive rec a st Hrec Hb) as Hb'.
    apply IH; [exact Hb'|].
    unfold settle in *. simpl in *. apply Forall_app. split; [exact Hh|].
    constructor; [|constructor]. simpl.
    apply py_round_nonneg. lra.
  - apply IH; assumption.
Qed.

(** The counter stays between 0 and the threshold. *)
Lemma sim_loop_counter_bounds recs st :
  (0 <= consecutive_losses st <= stop_loss_consecutive cfg)%Z ->
  (0 <= consecutive_losses (sim_loop cfg actuals recs st)
   <= stop_loss_consecutive cfg)%Z.
Proof.
  revert st. induction recs as [|rec rest IH]; intros st Hc; simpl;
    [exact Hc|].
  destruct (Z.leb_spec (stop_loss_consecutive cfg) (consecutive_losses st));
    [exact Hc|].
  destruct (actuals !! match_index rec) as [a|].
  - apply IH. unfold settle. simpl. destruct (bet_won rec a); lia.
  - apply IH. exact Hc.
Qed.

(** The rows added by the loop, in terms of the bets processed. *)
Definition resolved (rec : BetRecommendation) : Prop :=
  is_Some (actuals !! match_index rec).

Lemma sim_loop_new_rows recs st :
  exists new,
    history (sim_loop cfg actuals recs st) = history st ++ new /\
    map l_match_index new `sublist_of` map match_index recs /\
    Forall (fun e =>
              exists a, actuals !! l_match_index e = Some a /\
                l_won e
                = (String.eqb (l_bet_on e) "over25" && Z.eqb a 1
                   || String.eqb (l_bet_on e) "under25" && Z.eqb a 0)%bool)
      new /\
    (Forall resolved recs ->
     map l_match_index new `prefix_of` map match_index recs /\
     (length new = length recs \/
      (stop_loss_consecutive cfg
       <= consecutive_losses (sim_loop cfg actuals recs st))%Z)).
Proof.
  revert st. induction recs as [|rec rest IH]; intros st.
  - exists []. simpl. rewrite app_nil_r.
    split; [reflexivity|]. split; [apply sublist_nil_l|].
    split; [constructor|]. intros _.
    split; [apply prefix_nil | left; reflexivity].
  - simpl.
    destruct (Z.leb_spec (stop_loss_consecutive cfg) (consecutive_losses st))
      as [Hstop|Hrun].
    + exists []. rewrite app_nil_r. simpl.
      split; [reflexivity|]. split; [apply sublist_nil_l|].
      split; [constructor|]. intros _.
      split; [apply prefix_nil | right; exact Hstop].
    + destruct (actuals !! match_index rec) as [a|] eqn:Ha.
      * destruct (IH (settle rec a st)) as (new & Hh & Hsub & Hres & Hpre).
        eexists (_ :: new). split.
        { rewrite Hh. unfold settle at 1. simpl.
          rewrite <- app_assoc. reflexivity. }
        simpl. split; [apply sublist_skip; exact Hsub|].
        split; [constructor; [simpl; exists a; split; [exact Ha|reflexivity]
                             | exact Hres]|].
        intros Hall. inversion Hall as [|? ? _ Hall']; subst.
        destruct (Hpre Hall') as [Hp Hor].
        split; [apply prefix_cons; exact Hp|].
        destruct Hor as [Hl|Hs]; [left; simpl; lia | right; exact Hs].
      * destruct (IH st) as (new & Hh & Hsub & Hres & _).
        exists new. split; [exact Hh|].
        split; [apply sublist_cons; exact Hsub|].
        split; [exact Hres|].
        intros Hall. inversion Hall as [|? ? Hr _]; subst.
        unfold resolved in Hr. rewrite Ha in Hr. destruct Hr as [? Hr].
        discriminate Hr.
Qed.

End BankrollInvariants.

Section BankrollGrowth.

Import Strategy.

Open Scope Q_scope.

Variable cfg : Config.
Variable actuals : gmap Z Z.

(** The factor by which one bet multiplies the bankroll when it is
    processed: 1 when its match has no outcome. *)
Definition settle_factor (rec : BetRecommendation) : Q :=
  match actuals !! match_index rec with
  | None => 1
  | Some a =>
    if bet_won rec a
    then 1 + recommended_stake rec * (market_odds rec - 1)
    else 1 - recommended_stake rec
  end.

Definition growth (recs : list BetRecommendation) : Q :=
  fold_right (fun rec acc => settle_factor rec * acc) 1 recs.

(** The number of bets whose match has an outcome. *)
Definition resolved_count (recs : list BetRecommendation) : nat :=
  length (omap (fun rec => actuals !! match_index rec) recs).

Lemma resolved_count_cons rec rest :
  resolved_count (rec :: rest)
  = match actuals !! match_index rec with
    | Some _ => S (resolved_count rest)
    | None => resolved_count rest
    end.
Proof.
  unfold resolved_count. simpl.
  destruct (actuals !! match_index rec); reflexivity.
Qed.

Lemma growth_unresolved recs :
  resolved_count recs = 0%nat -> growth recs == 1.
Proof.
  induction recs as [|rec rest IH]; [reflexivity|].
  rewrite resolved_count_cons. simpl growth. unfold settle_factor.
  destruct (actuals !! match_index rec).
  - discriminate.
  - intros H. rewrite (IH H). ring.
Qed.

Lemma settle_bankroll rec a st :
  actuals !! match_index rec = Some a ->
  bankroll (settle rec a st) == bankroll st * settle_factor rec.
Proof.
  intros Ha. unfold settle, settle_factor. rewrite Ha. simpl.
  destruct (bet_won rec a); ring.
Qed.

(** When every resolved bet has been settled, the bankroll is the
    starting bankroll times the factors of the bets. *)
Lemma sim_loop_growth recs st :
  length (history (sim_loop cfg actuals recs st))
  = (length (history st) + resolved_count recs)%nat ->
  bankroll (sim_loop cfg actuals recs st) == bankroll st * growth recs.
Proof.
  revert st. induction recs as [|rec rest IH]; intros st Hlen.
  - simpl. ring.
  - destruct (stopped_dec cfg st) as [Hs|Hr].
    + rewrite (sim_loop_stopped cfg actuals (rec :: rest) st Hs) in Hlen.
      rewrite (sim_loop_stopped cfg actuals (rec :: rest) st Hs).
      assert (H0 : resolved_count (rec :: rest) = 0%nat) by lia.
      rewrite (growth_unresolved _ H0). ring.
    + rewrite (sim_loop_running cfg actuals rec rest st Hr) in Hlen.
      rewrite (sim_loop_running cfg actuals rec rest st Hr).
      rewrite resolved_count_cons in Hlen. simpl growth.
      destruct (actuals !! match_index rec) as [a|] eqn:Ha.
      * rewrite IH.
        -- rewrite (settle_bankroll rec a st Ha). ring.
        -- rewrite settle_history_length. lia.
      * rewrite IH by exact Hlen.
        unfold settle_factor. rewrite Ha. ring.
Qed.

Lemma growth_perm recs1 recs2 :
  recs1 ≡ₚ recs2 -> growth recs1 == growth recs2.
Proof.
  unfold growth. induction 1 as [|x l l' _ IH|x y l|l l' l'' _ IH1 _ IH2];
    simpl.
  - reflexivity.
  - rewrite IH. reflexivity.
  - ring.
  - rewrite IH1. exact IH2.
Qed.

End BankrollGrowth.

(** ** The backtest step of [main.py] *)

Module Main.

Import Strategy.

(** [actuals = df["over25"]]: the outcome column, keyed by the index of
    the table. *)
Definition over25_series (df : DataFrame) : gmap Z Z :=
  list_to_map (map (fun idx => (idx, icell df idx "over25")) (index df)).

(** Steps 6 and 8 of [main]: the recommendations of the table, replayed
    against its own outcome column when there are any. *)
Definition backtest_state (cfg : Config) (df : DataFrame)
  (prob_df : ProbFrame) : SimState :=
  simulate_state cfg (analyse cfg df prob_df) (over25_series df).

Definition backtest (cfg : Config) (df : DataFrame) (prob_df : ProbFrame)
  : list LedgerEntry :=
  match analyse cfg df prob_df with
  | [] => []
  | recommendations =>
    simulate_bankroll cfg recommendations (over25_series df)
  end.

End Main.

Section BankrollExtras.

Import Strategy.

Open Scope Q_scope.

(** X12: starting from a positive bankroll, with every stake a fraction
    in [0, 1) and all odds at least 1, the bankroll stays positive
    through the whole simulation and every bankroll reported in the
    ledger is non-negative. *)
Theorem simulate_bankroll_never_ruined
  (cfg : Config) (actuals : gmap Z Z) (recs : list BetRecommendation) :
  0 < initial_bankroll cfg ->
  Forall sound_bet recs ->
  0 < bankroll (simulate_state cfg recs actuals) /\
  Forall (fun e => 0 <= l_bankroll e) (simulate_bankroll cfg recs actuals).
Proof.
  intros Hinit Hall. unfold simulate_bankroll, simulate_state. split.
  - apply sim_loop_bankroll_positive; assumption.
  - apply sim_loop_ledger_nonneg; [assumption | assumption | constructor].
Qed.

Lemma simulate_bankroll_never_ruined_witness :
  0 < bankroll (simulate_state default_config
                  [Scenario.winning_bet; Scenario.sixth_bet]
                  Scenario.outcomes).
Proof.
  apply (simulate_bankroll_never_ruined default_config Scenario.outcomes
           [Scenario.winning_bet; Scenario.sixth_bet]).
  - reflexivity.
  - repeat constructor; vm_compute; congruence.
Defined.

(** X13: with a non-negative stop-loss threshold the consecutive-loss
    counter always ends between 0 and the threshold; with a threshold of
    0 or less the simulation stops before the first bet and the ledger
    is empty. *)
Theorem loss_counter_within_threshold
  (cfg : Config) (actuals : gmap Z Z) (recs : list BetRecommendation) :
  ((0 <= stop_loss_consecutive cfg)%Z ->
   (0 <= consecutive_losses (simulate_state cfg recs actuals)
    <= stop_loss_consecutive cfg)%Z) /\
  ((stop_loss_consecutive cfg <= 0)%Z ->
   simulate_bankroll cfg recs actuals = []).
Proof.
  unfold simulate_bankroll, simulate_state. split.
  - intros Hpos. apply sim_loop_counter_bounds. simpl. lia.
  - intros Hneg. rewrite sim_loop_stopped; [reflexivity|].
    unfold stopped. simpl. exact Hneg.
Qed.

Lemma loss_counter_within_threshold_witness :
  (0 <= consecutive_losses
          (simulate_state default_config
             (Scenario.five_losers ++ [Scenario.sixth_bet])
             Scenario.outcomes) <= 5)%Z.
Proof.
  apply (loss_counter_within_threshold default_config Scenario.outcomes
           (Scenario.five_losers ++ [Scenario.sixth_bet])).
  vm_compute. discriminate.
Defined.

(** X14: the ledger follows the order of the bet list: its matches are
    a subsequence of the matches of the bets, and every row is a match
    with a realised outcome, won exactly when the side of the bet agrees
    with that outcome.  When every bet has an outcome, the ledger is the
    settled beginning of the list, and it is complete unless the
    stop-loss has been reached. *)
Theorem ledger_follows_bet_order
  (cfg : Config) (actuals : gmap Z Z) (recs : list BetRecommendation) :
  let ledger := simulate_bankroll cfg recs actuals in
  map l_match_index ledger `sublist_of` map match_index recs /\
  Forall (fun e =>
            exists a, actuals !! l_match_index e = Some a /\
              l_won e
              = (String.eqb (l_bet_on e) "over25" && Z.eqb a 1
                 || String.eqb (l_bet_on e) "under25" && Z.eqb a 0)%bool)
    ledger /\
  (Forall (resolved actuals) recs ->
   map l_match_index ledger `prefix_of` map match_index recs /\
   (length ledger = length recs \/
    (stop_loss_consecutive cfg
     <= consecutive_losses (simulate_state cfg recs actuals))%Z)).
Proof.
  cbv zeta. unfold simulate_bankroll, simulate_state.
  destruct (sim_loop_new_rows cfg actuals recs (sim_init cfg))
    as (new & Hh & Hsub & Hrows & Hpre).
  simpl in Hh. rewrite Hh.
  split; [exact Hsub|]. split; [exact Hrows | exact Hpre].
Qed.

Lemma ledger_follows_bet_order_witness :
  map l_match_index
    (simulate_bankroll default_config
       (Scenario.five_losers ++ [Scenario.sixth_bet]) Scenario.outcomes)
  `prefix_of`
  map match_index (Scenario.five_losers ++ [Scenario.sixth_bet]).
Proof.
  apply (ledger_follows_bet_order default_config Scenario.outcomes
           (Scenario.five_losers ++ [Scenario.sixth_bet])).
  repeat constructor; vm_compute; eexists; reflexivity.
Defined.

(** X15: as long as the stop-loss does not cut the run short (the
    ledger has a row for every bet with an outcome), the final bankroll
    is the initial bankroll times one factor per bet, [1 - stake] for a
    loss and [1 + stake * (odds - 1)] for a win; it is therefore the
    same for every order of the same bets that is not cut short
    either. *)
Theorem final_bankroll_order_independent
  (cfg : Config) (actuals : gmap Z Z)
  (recs1 recs2 : list BetRecommendation) :
  recs1 ≡ₚ recs2 ->
  length (simulate_bankroll cfg recs1 actuals)
  = resolved_count actuals recs1 ->
  length (simulate_bankroll cfg recs2 actuals)
  = resolved_count actuals recs2 ->
  bankroll (simulate_state cfg recs1 actuals)
  == initial_bankroll cfg * growth actuals recs1 /\
  bankroll (simulate_state cfg recs1 actuals)
  == bankroll (simulate_state cfg recs2 actuals).
Proof.
  intros Hperm H1 H2. unfold simulate_bankroll, simulate_state in *.
  pose proof (sim_loop_growth cfg actuals recs1 (sim_init cfg) H1) as G1.
  pose proof (sim_loop_growth cfg actuals recs2 (sim_init cfg) H2) as G2.
  simpl in G1, G2. split; [exact G1|].
  rewrite G1, G2, (growth_perm actuals recs1 recs2 Hperm). reflexivity.
Qed.

Lemma final_bankroll_order_independent_witness :
  bankroll (simulate_state default_config
              [Scenario.winning_bet; Scenario.sixth_bet;
               Scenario.unresolved_bet] Scenario.outcomes)
  == bankroll (simulate_state default_config
                 [Scenario.unresolved_bet; Scenario.sixth_bet;
                  Scenario.winning_bet] Scenario.outcomes).
Proof.
  apply (final_bankroll_order_independent default_config Scenario.outcomes).
  - apply Permutation_rev.
  - vm_compute. reflexivity.
  - vm_compute. reflexivity.
Defined.

End BankrollExtras.

Section MainExtras.

Import Strategy Main.

Open Scope Q_scope.

Lemma over25_series_lookup df idx a :
  over25_series df !! idx = Some a -> a = icell df idx "over25".
Proof.
  unfold over25_series. intros H.
  apply elem_of_list_to_map_2, list_elem_of_In, in_map_iff in H.
  destruct H as (i & Hi & _). injection Hi as -> <-. reflexivity.
Qed.

Lemma over25_series_resolved df idx :
  idx ∈ index df -> is_Some (over25_series df !! idx).
Proof.
  intros Hin. unfold over25_series.
  destruct (list_to_map _ !! idx) eqn:E; [eexists; reflexivity|].
  exfalso. apply not_elem_of_list_to_map in E. apply E.
  clear E. induction (index df) as [|x t IH]; simpl.
  - inversion Hin.
  - apply elem_of_cons in Hin. destruct Hin as [->|Hin].
    + left.
    + right. apply IH. exact Hin.
Qed.

Lemma analyse_resolved cfg df prob_df :
  Forall (resolved (over25_series df)) (analyse cfg df prob_df).
Proof.
  pose proof (analyse_recommendations_in_table cfg df prob_df) as H.
  eapply Forall_impl; [exact H|]. intros r Hr.
  apply over25_series_resolved. exact Hr.
Qed.

(** X16: in the backtest of [main], on a table with unique index
    labels, no recommendation is skipped: the ledger is the beginning of
    the recommendation list in its order by expected value, complete
    unless the stop-loss is reached, and each row is won exactly when
    the bet's side agrees with the [over25] value of its own match. *)
Theorem backtest_settles_recommendations_in_order
  (cfg : Config) (df : DataFrame) (prob_df : ProbFrame) :
  NoDup (index df) ->
  let recs := analyse cfg df prob_df in
  let ledger := backtest cfg df prob_df in
  map l_match_index ledger `prefix_of` map match_index recs /\
  (length ledger = length recs \/
   (stop_loss_consecutive cfg
    <= consecutive_losses (backtest_state cfg df prob_df))%Z) /\
  Forall (fun e =>
            l_won e
            = (String.eqb (l_bet_on e) "over25"
                 && Z.eqb (icell df (l_match_index e) "over25") 1
               || String.eqb (l_bet_on e) "under25"
                 && Z.eqb (icell df (l_match_index e) "over25") 0)%bool)
    ledger.
Proof.
  intros _. cbv zeta.
  assert (Hb : backtest cfg df prob_df
               = simulate_bankroll cfg (analyse cfg df prob_df)
                   (over25_series df)).
  { unfold backtest. destruct (analyse cfg df prob_df); reflexivity. }
  rewrite Hb. unfold backtest_state.
  unfold simulate_bankroll, simulate_state.
  destruct (sim_loop_new_rows cfg (over25_series df)
              (analyse cfg df prob_df) (sim_init cfg))
    as (new & Hh & _ & Hrows & Hpre).
  simpl in Hh. rewrite Hh.
  destruct (Hpre (analyse_resolved cfg df prob_df)) as [Hp Hor].
  split; [exact Hp|]. split; [exact Hor|].
  eapply Forall_impl; [exact Hrows|].
  intros e (a & Ha & Hwon). apply over25_series_lookup in Ha.
  rewrite Hwon, Ha. reflexivity.
Qed.

Lemma backtest_settles_recommendations_in_order_witness :
  let df := Candidate.one_match [] (Some (21 # 10)) (Some (18 # 10))
              (Some 2) (Some (19 # 10)) 0 in
  length (analyse Candidate.lenient_config df (Candidate.probs (85 # 100)))
  = 1%nat /\
  map l_match_index
    (backtest Candidate.lenient_config df (Candidate.probs (85 # 100)))
  `prefix_of`
  map match_index
    (analyse Candidate.lenient_config df (Candidate.probs (85 # 100))).
Proof.
  cbv zeta. split; [vm_compute; reflexivity|].
  apply (backtest_settles_recommendations_in_order Candidate.lenient_config).
  simpl. repeat constructor. inversion 1.
Defined.

(** X17: in the backtest of [main], with a positive initial bankroll, a
    non-negative Kelly multiplier and a stake cap that rounds to less
    than 1, the bankroll stays positive whatever the table and the
    outcomes. *)
Theorem backtest_never_ruined
  (cfg : Config) (df : DataFrame) (prob_df : ProbFrame) :
  0 < initial_bankroll cfg ->
  0 <= fractional_kelly cfg ->
  0 <= max_stake_pct cfg ->
  Py.round (max_stake_pct cfg) 4 < 1 ->
  0 < bankroll (backtest_state cfg df prob_df) /\
  Forall (fun e => 0 <= l_bankroll e) (backtest cfg df prob_df).
Proof.
  intros Hinit Hfrac Hmax Hcap.
  assert (Hsound : Forall sound_bet (analyse cfg df prob_df)).
  { eapply Forall_impl; [apply analyse_sound_bets; assumption|].
    intros r [[H0 H1] Ho]. unfold sound_bet. repeat split; lra. }
  assert (Hb : backtest cfg df prob_df
               = simulate_bankroll cfg (analyse cfg df prob_df)
                   (over25_series df)).
  { unfold backtest. destruct (analyse cfg df prob_df); reflexivity. }
  rewrite Hb. unfold backtest_state, simulate_bankroll, simulate_state.
  split.
  - apply sim_loop_bankroll_positive; assumption.
  - apply sim_loop_ledger_nonneg; [assumption | assumption | constructor].
Qed.

Lemma backtest_never_ruined_witness :
  0 < bankroll
        (backtest_state Candidate.lenient_config
           (Candidate.one_match [] (Some (21 # 10)) (Some (18 # 10))
              (Some 2) (Some (19 # 10)) 0) (Candidate.probs (85 # 100))).
Proof.
  apply (backtest_never_ruined Candidate.lenient_config);
    vm_compute; congruence.
Defined.

End MainExtras.

(** ** The closing-line-value summary *)

Module Reports.

Import Strategy.

Open Scope Q_scope.

Record ClvSummary := {
  avg_clv : Q;
  pct_positive_clv : Q;
  total_bets : nat
}.

(** [sum(l)] and [np.mean(l)] on a list of floats. *)
Definition py_sum (l : list Q) : Q := fold_right Qplus 0 l.

Definition np_mean (l : list Q) : Q :=
  py_sum l / inject_Z (Z.of_nat (length l)).

(** [sum(1 for c in clvs if c > 0)]. *)
Definition count_positive (clvs : list Q) : nat :=
  length (List.filter (fun c => Py.lt 0 c) clvs).

Definition clv_summary (recs : list BetRecommendation) : ClvSummary :=
  match recs with
  | [] => {| avg_clv := 0; pct_positive_clv := 0; total_bets := 0 |}
  | _ =>
    let clvs := map clv recs in
    {| avg_clv := Py.round (np_mean clvs) 4;
       pct_positive_clv :=
         Py.round (inject_Z (Z.of_nat (count_positive clvs))
                   / inject_Z (Z.of_nat (length clvs))) 4;
       total_bets := length recs |}
  end.

End Reports.

Section ReportFacts.

Import Strategy Reports.

Open Scope Q_scope.

Lemma py_sum_bounds lo hi l :
  Forall (fun x => lo <= x <= hi) l ->
  lo * inject_Z (Z.of_nat (length l)) <= py_sum l
  <= hi * inject_Z (Z.of_nat (length l)).
Proof.
  induction 1 as [|x t Hx _ IH].
  - simpl. change (inject_Z (Z.of_nat 0)) with 0. split; lra.
  - change (py_sum (x :: t)) with (x + py_sum t).
    replace (Z.of_nat (length (x :: t))) with (1 + Z.of_nat (length t))%Z
      by (simpl length; lia).
    rewrite inject_Z_plus. change (inject_Z 1) with 1.
    destruct IH. split; lra.
Qed.

Lemma np_mean_bounds lo hi l :
  l <> [] -> Forall (fun x => lo <= x <= hi) l ->
  lo <= np_mean l <= hi.
Proof.
  intros Hne Hall. unfold np_mean.
  pose proof (py_sum_bounds lo hi l Hall) as [Hl Hh].
  assert (Hn : 0 < inject_Z (Z.of_nat (length l))).
  { change 0 with (inject_Z 0). rewrite <- Zlt_Qlt.
    destruct l; [congruence | simpl length; lia]. }
  set (n := inject_Z (Z.of_nat (length l))) in *.
  split.
  - apply Qle_shift_div_l; assumption.
  - apply Qle_shift_div_r; assumption.
Qed.

Lemma count_positive_le l : (count_positive l <= length l)%nat.
Proof.
  unfold count_positive. induction l as [|x t IH]; simpl; [lia|].
  destruct (Py.lt 0 x); simpl; lia.
Qed.

Lemma count_positive_all l :
  Forall (fun c => 0 < c) l -> count_positive l = length l.
Proof.
  unfold count_positive. induction 1 as [|x t Hx _ IH]; simpl; [reflexivity|].
  apply Py.lt_spec in Hx. rewrite Hx. simpl. rewrite IH. reflexivity.
Qed.

(** X18: [clv_summary] counts every recommendation; the share of
    positive closing-line values lies in [0, 1] and is 1 when all of
    them are positive; the average lies between any bounds of the
    values, rounded to four decimals; and an empty list gives zeros. *)
Theorem clv_summary_bounds (recs : list BetRecommendation) (lo hi : Q) :
  let s := clv_summary recs in
  total_bets s = length recs /\
  0 <= pct_positive_clv s <= 1 /\
  (recs = [] -> avg_clv s = 0 /\ pct_positive_clv s = 0) /\
  (recs <> [] -> Forall (fun r => 0 < clv r) recs ->
   pct_positive_clv s == 1) /\
  (recs <> [] -> Forall (fun r => lo <= clv r <= hi) recs ->
   Py.round lo 4 <= avg_clv s <= Py.round hi 4).
Proof.
  cbv zeta. destruct recs as [|r0 t].
  - simpl. repeat split; try lra; try congruence.
  - set (recs := r0 :: t). change (clv_summary recs) with
      {| avg_clv := Py.round (np_mean (map clv recs)) 4;
         pct_positive_clv :=
           Py.round (inject_Z (Z.of_nat (count_positive (map clv recs)))
                     / inject_Z (Z.of_nat (length (map clv recs)))) 4;
         total_bets := length recs |}.
    cbn [avg_clv pct_positive_clv total_bets].
    assert (Hn : 0 < inject_Z (Z.of_nat (length (map clv recs)))).
    { change 0 with (inject_Z 0). rewrite <- Zlt_Qlt.
      unfold recs. simpl length. lia. }
    assert (H1 : Py.round 1 4 == 1) by (vm_compute; reflexivity).
    split; [reflexivity|]. split; [|split; [|split]].
    + pose proof (count_positive_le (map clv recs)) as Hc.
      assert (Hq : 0 <= inject_Z (Z.of_nat (count_positive (map clv recs)))
                   <= inject_Z (Z.of_nat (length (map clv recs)))).
      { split.
        - change 0 with (inject_Z 0). rewrite <- Zle_Qle. lia.
        - rewrite <- Zle_Qle. lia. }
      split.
      * apply py_round_nonneg. apply Qle_shift_div_l; [exact Hn|]. lra.
      * rewrite <- H1. apply py_round_mono.
        apply Qle_shift_div_r; [exact Hn|]. lra.
    + intros H. discriminate H.
    + intros _ Hall.
      rewrite count_positive_all.
      * rewrite (Py.round_comp _ 1); [exact H1|]. field. lra.
      * apply Forall_forall. intros c Hc.
        apply list_elem_of_In, in_map_iff in Hc. destruct Hc as (r & <- & Hr).
        rewrite Forall_forall in Hall. apply Hall, list_elem_of_In, Hr.
    + intros _ Hall.
      assert (Hb : lo <= np_mean (map clv recs) <= hi).
      { apply np_mean_bounds; [discriminate|].
        apply Forall_forall. intros c Hc.
        apply list_elem_of_In, in_map_iff in Hc. destruct Hc as (r & <- & Hr).
        rewrite Forall_forall in Hall. apply Hall, list_elem_of_In, Hr. }
      split; apply py_round_mono; apply Hb.
Qed.

Lemma clv_summary_bounds_witness :
  let recs := analyse Candidate.lenient_config
                (Candidate.one_match [] (Some (21 # 10)) (Some (18 # 10))
                   (Some 2) (Some (19 # 10)) 0)
                (Candidate.probs (85 # 100)) in
  pct_positive_clv (clv_summary recs) == 1 /\
  Py.round (3 # 10) 4 <= avg_clv (clv_summary recs) <= Py.round (4 # 10) 4.
Proof.
  cbv zeta.
  match goal with
  | |- context [clv_summary ?recs] =>
    destruct (clv_summary_bounds recs (3 # 10) (4 # 10))
      as (_ & _ & _ & Hpct & Havg)
  end.
  split.
  - apply Hpct; [vm_compute; discriminate|].
    vm_compute. repeat constructor.
  - apply Havg; [vm_compute; discriminate|].
    vm_compute. repeat constructor; discriminate.
Defined.

End ReportFacts.

(** * Further properties of the model code *)

(** ** The Poisson grid as a function of its parameters *)

Section GridShapeFacts.

Import Model.

Open Scope R_scope.

(** The term of the grid sum for the pair [(i, j)]. *)
Definition grid_term (line lam_h lam_a : R) (i j : nat) : R :=
  if within_line i j line then poisson_pmf i lam_h * poisson_pmf j lam_a
  else 0.

Lemma under_mass_double_sum line max_g lam_h lam_a :
  under_mass_spec line max_g lam_h lam_a
  = sum_list
      (map (fun i =>
              sum_list (map (grid_term line lam_h lam_a i)
                          (goal_range max_g)))
         (goal_range max_g)).
Proof.
  unfold under_mass_spec. rewrite sum_list_filter_map.
  rewrite (sum_list_list_prod
             (fun ij => if within_line (fst ij) (snd ij) line
                        then poisson_pmf (fst ij) lam_h
                             * poisson_pmf (snd ij) lam_a
                        else 0)).
  reflexivity.
Qed.

Lemma grid_term_nonneg line lam_h lam_a i j :
  0 < lam_h -> 0 < lam_a -> 0 <= grid_term line lam_h lam_a i j.
Proof.
  intros Hh Ha. unfold grid_term.
  pose proof (poisson_pmf_nonneg i lam_h Hh).
  pose proof (poisson_pmf_nonneg j lam_a Ha).
  destruct (within_line i j line); [apply Rmult_le_pos; assumption | lra].
Qed.

Lemma within_line_mono i j line1 line2 :
  line1 <= line2 -> within_line i j line1 = true ->
  within_line i j line2 = true.
Proof.
  unfold within_line. intros Hle.
  destruct (Rle_dec (INR (i + j)) line1); [|discriminate].
  destruct (Rle_dec (INR (i + j)) line2); [reflexivity | lra].
Qed.

Lemma under_mass_mono_line line1 line2 max_g lam_h lam_a :
  0 < lam_h -> 0 < lam_a -> line1 <= line2 ->
  under_mass_spec line1 max_g lam_h lam_a
  <= under_mass_spec line2 max_g lam_h lam_a.
Proof.
  intros Hh Ha Hle. rewrite !under_mass_double_sum.
  apply sum_list_map_le. intros i _.
  apply sum_list_map_le. intros j _.
  pose proof (grid_term_nonneg line2 lam_h lam_a i j Hh Ha) as Hnn.
  unfold grid_term in *.
  destruct (within_line i j line1) eqn:E1.
  - rewrite (within_line_mono i j line1 line2 Hle E1). lra.
  - exact Hnn.
Qed.

Lemma sum_list_zero {A} (g : A -> R) l :
  (forall x, List.In x l -> g x = 0) -> sum_list (map g l) = 0.
Proof.
  intros H. rewrite (sum_list_map_ext g (fun _ => 0) l H).
  unfold sum_list. induction l as [|x t IH]; simpl; [reflexivity|].
  rewrite IH; [lra|]. intros y Hy. apply H. right. exact Hy.
Qed.

Lemma sum_list_map_plus {A} (f g : A -> R) l :
  sum_list (map (fun x => f x + g x) l)
  = sum_list (map f l) + sum_list (map g l).
Proof.
  unfold sum_list. induction l as [|x t IH]; simpl; [lra|].
  rewrite IH. lra.
Qed.

(** The two sums of a double sum can be exchanged. *)
Lemma sum_list_swap {A B} (h : A -> B -> R) l1 l2 :
  sum_list (map (fun i => sum_list (map (h i) l2)) l1)
  = sum_list (map (fun j => sum_list (map (fun i => h i j) l1)) l2).
Proof.
  induction l1 as [|x t IH]; simpl.
  - symmetry. apply sum_list_zero. intros. reflexivity.
  - change (sum_list (sum_list (map (h x) l2)
                      :: map (fun i => sum_list (map (h i) l2)) t))
      with (sum_list (map (h x) l2)
            + sum_list (map (fun i => sum_list (map (h i) l2)) t)).
    rewrite IH, <- sum_list_map_plus.
    apply sum_list_map_ext. intros j _. reflexivity.
Qed.

Lemma within_line_sym i j line : within_line i j line = within_line j i line.
Proof. unfold within_line. rewrite Nat.add_comm. reflexivity. Qed.

Lemma under_mass_sym line max_g lam_h lam_a :
  under_mass_spec line max_g lam_h lam_a
  = under_mass_spec line max_g lam_a lam_h.
Proof.
  rewrite !under_mass_double_sum. rewrite sum_list_swap.
  apply sum_list_map_ext. intros j _.
  apply sum_list_map_ext. intros i _.
  unfold grid_term. rewrite within_line_sym.
  destruct (within_line j i line); lra.
Qed.

(** Counting more goals per side only adds under-mass. *)
Lemma sum_list_seq_grow (g : nat -> R) n n' :
  (n <= n')%nat -> (forall k, 0 <= g k) ->
  sum_list (map g (seq 0 n)) <= sum_list (map g (seq 0 n')).
Proof.
  intros Hle Hnn.
  replace n' with (n + (n' - n))%nat by lia.
  rewrite seq_app, map_app, sum_list_app.
  assert (0 <= sum_list (map g (seq (0 + n) (n' - n)))).
  { apply sum_list_nonneg, Forall_forall. intros x Hx.
    apply list_elem_of_In, in_map_iff in Hx. destruct Hx as (k & <- & _).
    apply Hnn. }
  lra.
Qed.

Lemma under_mass_mono_grid line max_g max_g' lam_h lam_a :
  0 < lam_h -> 0 < lam_a -> (max_g <= max_g')%Z ->
  under_mass_spec line max_g lam_h lam_a
  <= under_mass_spec line max_g' lam_h lam_a.
Proof.
  intros Hh Ha Hle. rewrite !under_mass_double_sum. unfold goal_range.
  assert (Hn : (Z.to_nat (max_g + 1) <= Z.to_nat (max_g' + 1))%nat) by lia.
  set (n := Z.to_nat (max_g + 1)) in *.
  set (n' := Z.to_nat (max_g' + 1)) in *.
  apply Rle_trans with
    (sum_list
       (map (fun i => sum_list (map (grid_term line lam_h lam_a i)
                                  (seq 0 n')))
          (seq 0 n))).
  - apply sum_list_map_le. intros i _.
    apply sum_list_seq_grow; [exact Hn|].
    intros k. apply grid_term_nonneg; assumption.
  - apply (sum_list_seq_grow
             (fun i => sum_list (map (grid_term line lam_h lam_a i)
                                   (seq 0 n'))));
      [exact Hn|].
    intros i. apply sum_list_nonneg, Forall_forall. intros x Hx.
    apply list_elem_of_In, in_map_iff in Hx. destruct Hx as (k & <- & _).
    apply grid_term_nonneg; assumption.
Qed.

End GridShapeFacts.

Section GridClosedForm.

Import Model.

Open Scope R_scope.

Lemma within_line_two i j line :
  2 <= line < 3 -> within_line i j line = (i + j <=? 2)%nat.
Proof.
  intros [Hlo Hhi]. unfold within_line.
  destruct (Rle_dec (INR (i + j)) line) as [H|H];
    destruct (Nat.leb_spec (i + j) 2) as [Hn|Hn]; try reflexivity.
  - exfalso. assert (H3 : INR 3 <= INR (i + j)) by (apply le_INR; lia).
    assert (E3 : INR 3 = 3) by (simpl; lra). lra.
  - exfalso. apply H. assert (H2 : INR (i + j) <= INR 2) by (apply le_INR; lia).
    assert (E2 : INR 2 = 2) by (simpl; lra). lra.
Qed.

Lemma grid_term_beyond_two line lam_h lam_a i j :
  2 <= line < 3 -> (3 <= i \/ 3 <= j)%nat ->
  grid_term line lam_h lam_a i j = 0.
Proof.
  intros Hline Hij. unfold grid_term. rewrite within_line_two by exact Hline.
  destruct (Nat.leb_spec (i + j) 2); [lia | reflexivity].
Qed.

(** For a line between 2 and 3, only the six pairs of total at most 2
    contribute, whatever the size of the grid from 2 goals on. *)
Lemma under_mass_line_two line max_g lam_h lam_a :
  2 <= line < 3 -> (2 <= max_g)%Z ->
  under_mass_spec line max_g lam_h lam_a
  = poisson_pmf 0 lam_h * poisson_pmf 0 lam_a
    + poisson_pmf 0 lam_h * poisson_pmf 1 lam_a
    + poisson_pmf 0 lam_h * poisson_pmf 2 lam_a
    + poisson_pmf 1 lam_h * poisson_pmf 0 lam_a
    + poisson_pmf 1 lam_h * poisson_pmf 1 lam_a
    + poisson_pmf 2 lam_h * poisson_pmf 0 lam_a.
Proof.
  intros Hline Hg. rewrite under_mass_double_sum. unfold goal_range.
  replace (Z.to_nat (max_g + 1)) with (3 + Z.to_nat (max_g - 2))%nat by lia.
  set (m := Z.to_nat (max_g - 2)).
  assert (Hinner : forall i,
             sum_list (map (grid_term line lam_h lam_a i) (seq 0 (3 + m)))
             = grid_term line lam_h lam_a i 0
               + grid_term line lam_h lam_a i 1
               + grid_term line lam_h lam_a i 2).
  { intros i. rewrite seq_app, map_app, sum_list_app.
    rewrite (sum_list_zero _ (seq (0 + 3) m)).
    - unfold sum_list. simpl. lra.
    - intros j Hj. apply in_seq in Hj.
      apply grid_term_beyond_two; [exact Hline | lia]. }
  rewrite (sum_list_map_ext _
             (fun i => grid_term line lam_h lam_a i 0
                       + grid_term line lam_h lam_a i 1
                       + grid_term line lam_h lam_a i 2))
    by (intros; apply Hinner).
  rewrite seq_app, map_app, sum_list_app.
  rewrite (sum_list_zero _ (seq (0 + 3) m)).
  - unfold sum_list. simpl. unfold grid_term.
    rewrite !within_line_two by exact Hline. simpl. lra.
  - intros i Hi. apply in_seq in Hi.
    rewrite !grid_term_beyond_two by (try exact Hline; lia). lra.
Qed.

Lemma poisson_sum_of_rates lam_h lam_a :
  poisson_pmf 0 lam_h * poisson_pmf 0 lam_a
  + poisson_pmf 0 lam_h * poisson_pmf 1 lam_a
  + poisson_pmf 0 lam_h * poisson_pmf 2 lam_a
  + poisson_pmf 1 lam_h * poisson_pmf 0 lam_a
  + poisson_pmf 1 lam_h * poisson_pmf 1 lam_a
  + poisson_pmf 2 lam_h * poisson_pmf 0 lam_a
  = poisson_pmf 0 (lam_h + lam_a) + poisson_pmf 1 (lam_h + lam_a)
    + poisson_pmf 2 (lam_h + lam_a).
Proof.
  unfold poisson_pmf.
  replace (- (lam_h + lam_a)) with (- lam_h + - lam_a) by lra.
  rewrite exp_plus. simpl. field.
Qed.

End GridClosedForm.

Section GridExtras.

Import Model.

Open Scope R_scope.

(** X19: raising the line never raises the over-probability, and
    neither does counting more goals per side in the grid (the mass
    beyond the grid counts as "over"). *)
Theorem over_probability_antitone
  (line1 line2 : R) (max_g max_g' : Z) (home_xg away_xg : R) :
  (line1 <= line2 ->
   over_probability line2 max_g home_xg away_xg
   <= over_probability line1 max_g home_xg away_xg) /\
  ((max_g <= max_g')%Z ->
   over_probability line1 max_g' home_xg away_xg
   <= over_probability line1 max_g home_xg away_xg).
Proof.
  rewrite !over_probability_complement.
  pose proof (floored_rate_pos home_xg) as Hh.
  pose proof (floored_rate_pos away_xg) as Ha.
  split; intros Hle.
  - pose proof (under_mass_mono_line line1 line2 max_g _ _ Hh Ha Hle). lra.
  - pose proof (under_mass_mono_grid line1 max_g max_g' _ _ Hh Ha Hle). lra.
Qed.

Lemma over_probability_antitone_witness :
  over_probability 3.5 10 1.5 1.2 <= over_probability 2.5 10 1.5 1.2 /\
  over_probability 2.5 10 1.5 1.2 <= over_probability 2.5 6 1.5 1.2.
Proof.
  split.
  - apply (over_probability_antitone 2.5 3.5 10 10 1.5 1.2). lra.
  - apply (over_probability_antitone 2.5 2.5 6 10 1.5 1.2). lia.
Defined.

(** X20: the over-probability does not depend on which side is called
    home: exchanging the two expected-goal values leaves it
    unchanged. *)
Theorem over_probability_symmetric
  (line : R) (max_g : Z) (home_xg away_xg : R) :
  over_probability line max_g home_xg away_xg
  = over_probability line max_g away_xg home_xg.
Proof.
  rewrite !over_probability_complement.
  rewrite (under_mass_sym line max_g (Rmax home_xg 0.01)). reflexivity.
Qed.

(** X21: for a line between 2 and 3 (the default 2.5) and a grid of at
    least 2 goals per side, the grid over-probability is exactly the
    probability that one Poisson count with the sum of the two (floored)
    rates exceeds 2; in particular it does not depend on the size of the
    grid. *)
Theorem over_probability_is_poisson_tail
  (line : R) (max_g : Z) (home_xg away_xg : R) :
  2 <= line < 3 -> (2 <= max_g)%Z ->
  let total := Rmax home_xg 0.01 + Rmax away_xg 0.01 in
  over_probability line max_g home_xg away_xg
  = 1 - (poisson_pmf 0 total + poisson_pmf 1 total + poisson_pmf 2 total).
Proof.
  intros Hline Hg. cbv zeta.
  rewrite over_probability_complement.
  rewrite (under_mass_line_two line max_g _ _ Hline Hg).
  rewrite poisson_sum_of_rates. reflexivity.
Qed.

Lemma over_probability_is_poisson_tail_witness :
  over_probability 2.5 10 1.5 1.2
  = 1 - (poisson_pmf 0 (Rmax 1.5 0.01 + Rmax 1.2 0.01)
         + poisson_pmf 1 (Rmax 1.5 0.01 + Rmax 1.2 0.01)
         + poisson_pmf 2 (Rmax 1.5 0.01 + Rmax 1.2 0.01)).
Proof.
  apply (over_probability_is_poisson_tail 2.5 10 1.5 1.2); [lra | lia].
Defined.

End GridExtras.

(** ** Feature resolution, fitting, baseline and importances *)

Section ModelObjectFacts.

Import Model.

Open Scope R_scope.

Context `{E : Estimators}.

Lemma resolve_features_auto (m : QuantModel) df :
  feature_cols m = [] ->
  _resolve_features m df
  = List.filter (fun c => negb (existsb (String.eqb c) exclude))
      (List.filter (numeric df) (columns df)).
Proof. intros H. unfold _resolve_features. rewrite H. reflexivity. Qed.

Lemma resolve_features_fixed (m : QuantModel) df :
  feature_cols m <> [] -> _resolve_features m df = feature_cols m.
Proof.
  intros H. unfold _resolve_features.
  destruct (feature_cols m); [congruence | reflexivity].
Qed.

Lemma zip_with_repeat {A B C} (f : A -> B -> C) a b n :
  zip_with f (repeat a n) (repeat b n) = repeat (f a b) n.
Proof. induction n as [|n IH]; simpl; [reflexivity|]. rewrite IH. reflexivity. Qed.

Lemma insert_by_importance_perm x l :
  insert_by_importance x l ≡ₚ x :: l.
Proof.
  induction l as [|y t IH]; simpl; [reflexivity|].
  destruct (Rle_dec (snd y) (snd x)); [reflexivity|].
  rewrite IH. apply Permutation_swap.
Qed.

Lemma insert_by_importance_sorted x l :
  StronglySorted (fun a b : string * R => snd b <= snd a) l ->
  StronglySorted (fun a b : string * R => snd b <= snd a)
    (insert_by_importance x l).
Proof.
  induction 1 as [|y t Hsorted IH Hall]; simpl.
  - repeat constructor.
  - destruct (Rle_dec (snd y) (snd x)) as [Hle|Hgt].
    + constructor; [constructor; assumption|].
      constructor; [exact Hle|].
      eapply Forall_impl; [exact Hall|]. simpl. intros z Hz. lra.
    + constructor; [exact IH|].
      apply (Permutation_Forall (x := x :: t)).
      * symmetry. apply insert_by_importance_perm.
      * constructor; [simpl; lra | exact Hall].
Qed.

End ModelObjectFacts.

Module RankedScenario.

Import Model.

Open Scope R_scope.

(** The estimators of [ModelScenario], with regressors that report the
    importances 0.25 and 0.75 for two features. *)
#[local] Instance ranked_estimators : Estimators := {|
  Params := unit;
  XGB := R;
  xgb_fit := fun _ _ y => mean y;
  xgb_predict := fun avg X => map (fun _ => avg) X;
  xgb_importances := fun _ => [0.25; 0.75];
  Logit := unit;
  logit_fit := fun _ _ => tt;
  logit_predict_proba1 := fun _ meta => map (fun row => nth 0 row 0) meta;
  Iso := unit;
  iso_fit := fun _ _ => tt;
  iso_predict := fun _ raw => raw;
  brier_score_loss := fun y p =>
    mean (zip_with (fun yi pi => (IZR yi - pi) * (IZR yi - pi)) y p);
  log_loss := fun y p =>
    - mean (zip_with (fun yi pi =>
                        IZR yi * ln pi + (1 - IZR yi) * ln (1 - pi)) y p);
  xgb_predict_length := fun avg X => length_map (fun _ => avg) X;
  logit_predict_proba1_length := fun _ meta =>
    length_map (fun row => nth 0 row 0) meta;
  iso_predict_length := fun _ raw => eq_refl
|}.

Definition fresh : QuantModel := init tt.

End RankedScenario.

Section ModelObjectExtras.

Import Model.

Open Scope R_scope.

(** X22: when no feature list is stored, the features detected in a
    table are numeric columns of that table and never one of the
    excluded columns (goals, xG, points, totals, the [over25] target,
    the four odds columns, ...); a stored feature list is returned as it
    is, whatever the table. *)
Theorem resolve_features_excludes_targets `{E : Estimators}
  (m : QuantModel) (df : DataFrame) :
  (feature_cols m = [] ->
   Forall (fun c => List.In c (columns df) /\ numeric df c = true /\
                    ~ List.In c exclude)
     (_resolve_features m df)) /\
  (feature_cols m <> [] -> _resolve_features m df = feature_cols m).
Proof.
  split.
  - intros Hempty. rewrite resolve_features_auto by exact Hempty.
    apply Forall_forall. intros c Hc.
    apply list_elem_of_In, filter_In in Hc. destruct Hc as [Hc Hex].
    apply filter_In in Hc. destruct Hc as [Hin Hnum].
    split; [exact Hin|]. split; [exact Hnum|].
    intros Hbad. apply negb_true_iff in Hex.
    assert (existsb (String.eqb c) exclude = true).
    { apply existsb_exists. exists c. split; [exact Hbad|].
      apply String.eqb_refl. }
    congruence.
  - apply resolve_features_fixed.
Qed.

Lemma resolve_features_excludes_targets_witness :
  _resolve_features ModelScenario.fresh ModelScenario.season = ["x"] /\
  _resolve_features
    (fit ModelScenario.fresh ModelScenario.season) ModelScenario.season'
  = ["x"].
Proof.
  split.
  - reflexivity.
  - destruct (resolve_features_excludes_targets
                (fit ModelScenario.fresh ModelScenario.season)
                ModelScenario.season') as [_ Hfixed].
    rewrite Hfixed; [reflexivity|].
    lazy. discriminate.
Defined.

(** X23: [fit] marks the model fitted, stores the four sub-models and
    keeps the settings; the feature columns resolved by the first fit
    are frozen, so that a later fit on another table reuses them instead
    of detecting that table's columns; and fitting twice on the same
    table gives the same model as fitting once. *)
Theorem fit_freezes_feature_columns `{E : Estimators}
  (m : QuantModel) (df df' : DataFrame) :
  let m1 := fit m df in
  _is_fitted m1 = true /\
  (home_model m1 <> None /\ away_model m1 <> None /\
   meta_model m1 <> None /\ calibrator m1 <> None) /\
  (xgb_params m1 = xgb_params m /\ ou_line m1 = ou_line m /\
   poisson_max m1 = poisson_max m /\ ts_splits m1 = ts_splits m) /\
  feature_cols m1 = _resolve_features m df /\
  (feature_cols m1 <> [] -> feature_cols (fit m1 df') = feature_cols m1) /\
  fit m1 df = m1.
Proof.
  cbv zeta. split; [reflexivity|].
  split; [repeat split; discriminate|].
  split; [repeat split; reflexivity|].
  split; [reflexivity|]. split.
  - intros Hne. change (feature_cols (fit (fit m df) df'))
      with (_resolve_features (fit m df) df').
    apply resolve_features_fixed. exact Hne.
  - unfold fit at 1. rewrite resolve_features_after_fit. reflexivity.
Qed.

Lemma fit_freezes_feature_columns_witness :
  feature_cols
    (fit (fit ModelScenario.fresh ModelScenario.season)
       ModelScenario.wider_season)
  = ["x"] /\
  feature_cols (fit ModelScenario.fresh ModelScenario.wider_season)
  = ["x"; "form"].
Proof.
  split.
  - destruct (fit_freezes_feature_columns ModelScenario.fresh
                ModelScenario.season ModelScenario.wider_season)
      as (_ & _ & _ & _ & Hfrozen & _).
    rewrite Hfrozen; [reflexivity|].
    lazy. discriminate.
  - reflexivity.
Defined.

(** X24: the baseline ("Model C") column of a table is constant: every
    match gets the same probability, the grid over-probability at the
    table's average rate (half the mean total xG, or 1.3 without a
    [total_xg] column), once per row. *)
Theorem poisson_baseline_is_constant `{E : Estimators}
  (m : QuantModel) (df : DataFrame) :
  let rate := baseline_rate df in
  _poisson_baseline m df
  = repeat (over_probability (ou_line m) (poisson_max m) rate rate)
      (length (rows df)) /\
  (has_column df "total_xg" = false -> rate = 1.3) /\
  (has_column df "total_xg" = true ->
   rate = mean (column df "total_xg") / 2).
Proof.
  cbv zeta. split; [|split].
  - unfold _poisson_baseline, predict_totals. apply zip_with_repeat.
  - intros H. unfold baseline_rate. rewrite H. reflexivity.
  - intros H. unfold baseline_rate. rewrite H. reflexivity.
Qed.

Lemma poisson_baseline_is_constant_witness :
  baseline_rate ModelScenario.season
  = mean (column ModelScenario.season "total_xg") / 2.
Proof.
  apply (poisson_baseline_is_constant ModelScenario.fresh
           ModelScenario.season).
  reflexivity.
Defined.

(** X25: on a fitted model the feature-importance table pairs each
    feature with the mean of the two regressors' importances and is
    sorted by importance, highest first. *)
Theorem feature_importance_sorted `{E : Estimators}
  (m : QuantModel) (table : list (string * R)) :
  get_feature_importance m = Ok table ->
  _is_fitted m = true /\
  StronglySorted (fun a b : string * R => snd b <= snd a) table /\
  exists hm am,
    home_model m = Some hm /\ away_model m = Some am /\
    table ≡ₚ zip (feature_cols m)
               (zip_with (fun a b => (a + b) / 2)
                  (xgb_importances hm) (xgb_importances am)).
Proof.
  unfold get_feature_importance. intros Hok.
  destruct (_is_fitted m); [|discriminate]. simpl in Hok.
  destruct (home_model m) as [hm|]; [|discriminate].
  destruct (away_model m) as [am|]; [|discriminate].
  injection Hok as <-. split; [reflexivity|]. split.
  - induction (zip (feature_cols m) _) as [|x t IH]; simpl; [constructor|].
    apply insert_by_importance_sorted. exact IH.
  - exists hm, am. split; [reflexivity|]. split; [reflexivity|].
    induction (zip (feature_cols m) _) as [|x t IH]; simpl; [reflexivity|].
    rewrite insert_by_importance_perm, IH. reflexivity.
Qed.

Lemma feature_importance_sorted_witness :
  exists table,
    get_feature_importance
      (fit RankedScenario.fresh ModelScenario.wider_season) = Ok table /\
    StronglySorted (fun a b : string * R => snd b <= snd a) table.
Proof.
  eexists. split; [reflexivity|].
  eapply (feature_importance_sorted
            (fit RankedScenario.fresh ModelScenario.wider_season)).
  reflexivity.
Defined.

End ModelObjectExtras.

(** ** The ledger as a record of the run *)

Section LedgerFacts.

Import Strategy.

Open Scope Q_scope.

Variable cfg : Config.
Variable actuals : gmap Z Z.

(** The number of losing rows at the head of a list of rows. *)
Fixpoint leading_losses (rows : list LedgerEntry) : nat :=
  match rows with
  | [] => O
  | e :: t => if l_won e then O else S (leading_losses t)
  end.

(** The number of losing rows at the end of the ledger. *)
Definition trailing_losses (ledger : list LedgerEntry) : nat :=
  leading_losses (reverse ledger).

Definition counter_matches_ledger (st : SimState) : Prop :=
  consecutive_losses st = Z.of_nat (trailing_losses (history st)).

Lemma settle_counter_matches rec a st :
  counter_matches_ledger st -> counter_matches_ledger (settle rec a st).
Proof.
  unfold counter_matches_ledger, trailing_losses, settle. simpl.
  intros Hst. rewrite reverse_app. simpl.
  destruct (bet_won rec a); [reflexivity|]. rewrite Hst. lia.
Qed.

Lemma sim_loop_counter_matches recs st :
  counter_matches_ledger st ->
  counter_matches_ledger (sim_loop cfg actuals recs st).
Proof.
  revert st. induction recs as [|rec rest IH]; intros st Hst; simpl;
    [exact Hst|].
  destruct (stop_loss_consecutive cfg <=? consecutive_losses st)%Z;
    [exact Hst|].
  destruct (actuals !! match_index rec) as [a|].
  - apply IH, settle_counter_matches, Hst.
  - apply IH, Hst.
Qed.

Lemma sim_loop_extends recs st :
  history st `prefix_of` history (sim_loop cfg actuals recs st).
Proof.
  destruct (sim_loop_new_rows cfg actuals recs st) as (new & Hh & _).
  rewrite Hh. apply prefix_app_r. reflexivity.
Qed.

(** Rounding commutes with the change of sign. *)
Lemma Qfloor_unique x z :
  inject_Z z <= x -> x < inject_Z (z + 1) -> Qfloor x = z.
Proof.
  intros Hlo Hhi.
  pose proof (Qfloor_le x) as Hf1. pose proof (Qlt_floor x) as Hf2.
  assert (H1 : (z < Qfloor x + 1)%Z).
  { rewrite Zlt_Qlt. lra. }
  assert (H2 : (Qfloor x < z + 1)%Z).
  { rewrite Zlt_Qlt. lra. }
  lia.
Qed.

Lemma round_half_even_opp s :
  Py.round_half_even (- s) = (- Py.round_half_even s)%Z.
Proof.
  set (f := Qfloor s).
  pose proof (Qfloor_le s) as Hlo. pose proof (Qlt_floor s) as Hhi.
  fold f in Hlo, Hhi. rewrite inject_Z_plus in Hhi.
  change (inject_Z 1) with 1 in Hhi.
  destruct (Qeq_dec s (inject_Z f)) as [Hint|Hfrac].
  - (* s is an integer *)
    assert (Hf : Qfloor (- s) = (- f)%Z).
    { apply Qfloor_unique; rewrite ?inject_Z_plus, inject_Z_opp;
        change (inject_Z 1) with 1; lra. }
    rewrite (round_half_even_floor (- s))
      by (rewrite Hf, inject_Z_opp; lra).
    rewrite (round_half_even_floor s) by (fold f; lra).
    fold f. exact Hf.
  - assert (Hpos : inject_Z f < s).
    { destruct (Qlt_le_dec (inject_Z f) s); [assumption|].
      exfalso. apply Hfrac. lra. }
    assert (Hf : Qfloor (- s) = (- f - 1)%Z).
    { apply Qfloor_unique.
      - unfold Z.sub. rewrite inject_Z_plus, !inject_Z_opp.
        change (inject_Z 1) with 1. lra.
      - replace (- f - 1 + 1)%Z with (- f)%Z by lia.
        rewrite inject_Z_opp. lra. }
    assert (Hfi : inject_Z (Qfloor (- s)) == - inject_Z f - 1).
    { rewrite Hf. unfold Z.sub. rewrite inject_Z_plus, !inject_Z_opp.
      change (inject_Z 1) with 1. ring. }
    destruct (Qcompare_spec (s - inject_Z f) (1 # 2)) as [E|E|E].
    + (* tie *)
      unfold Py.round_half_even. fold f. rewrite Hf.
      assert (E1 : Qcompare (s - inject_Z f) (1 # 2) = Eq)
        by (apply Qeq_alt; exact E).
      assert (E2 : Qcompare (- s - inject_Z (- f - 1)) (1 # 2) = Eq).
      { apply Qeq_alt. rewrite <- Hf, Hfi. lra. }
      rewrite E1, E2.
      replace (- f - 1)%Z with (- (f + 1))%Z by lia.
      rewrite Z.even_opp, Z.even_add. simpl (Z.even 1).
      destruct (Z.even f); simpl; lia.
    + rewrite (round_half_even_floor s) by (fold f; exact E).
      rewrite (round_half_even_ceil (- s)) by (rewrite Hfi; lra).
      fold f. rewrite Hf. lia.
    + rewrite (round_half_even_ceil s) by (fold f; exact E).
      rewrite (round_half_even_floor (- s)) by (rewrite Hfi; lra).
      fold f. rewrite Hf. lia.
Qed.

Lemma py_round_opp x n : Py.round (- x) n == - Py.round x n.
Proof.
  unfold Py.round.
  set (scale := inject_Z (10 ^ Z.of_nat n)).
  rewrite (Py.round_half_even_comp (- x * scale) (- (x * scale)))
    by ring.
  rewrite round_half_even_opp, inject_Z_opp.
  unfold Qdiv. ring.
Qed.

Lemma settle_row_consistent rec a st :
  Forall (fun e => l_won e = false -> l_profit e == - l_wager e)
    (history st) ->
  Forall (fun e => l_won e = false -> l_profit e == - l_wager e)
    (history (settle rec a st)).
Proof.
  intros Hh. unfold settle. simpl. apply Forall_app. split; [exact Hh|].
  constructor; [|constructor]. simpl. intros Hlost. rewrite Hlost.
  apply py_round_opp.
Qed.

Lemma sim_loop_rows_consistent recs st :
  Forall (fun e => l_won e = false -> l_profit e == - l_wager e)
    (history st) ->
  Forall (fun e => l_won e = false -> l_profit e == - l_wager e)
    (history (sim_loop cfg actuals recs st)).
Proof.
  revert st. induction recs as [|rec rest IH]; intros st Hst; simpl;
    [exact Hst|].
  destruct (stop_loss_consecutive cfg <=? consecutive_losses st)%Z;
    [exact Hst|].
  destruct (actuals !! match_index rec) as [a|].
  - apply IH, settle_row_consistent, Hst.
  - apply IH, Hst.
Qed.

End LedgerFacts.

Section LedgerExtras.

Import Strategy.

Open Scope Q_scope.

(** X26: the consecutive-loss counter is at every end of run the
    number of losing rows at the end of the ledger, and in every losing
    row the reported profit is exactly minus the reported wager. *)
Theorem loss_counter_counts_trailing_losses
  (cfg : Config) (actuals : gmap Z Z) (recs : list BetRecommendation) :
  consecutive_losses (simulate_state cfg recs actuals)
  = Z.of_nat (trailing_losses (simulate_bankroll cfg recs actuals)) /\
  Forall (fun e => l_won e = false -> l_profit e == - l_wager e)
    (simulate_bankroll cfg recs actuals).
Proof.
  unfold simulate_bankroll, simulate_state. split.
  - apply (sim_loop_counter_matches cfg actuals recs (sim_init cfg)).
    reflexivity.
  - apply sim_loop_rows_consistent. constructor.
Qed.

(** X27: the ledger is append-only: adding bets at the end of the list
    leaves the rows of the shorter list as they are, at the beginning of
    the longer ledger. *)
Theorem ledger_append_only
  (cfg : Config) (actuals : gmap Z Z) (recs more : list BetRecommendation) :
  simulate_bankroll cfg recs actuals
  `prefix_of` simulate_bankroll cfg (recs ++ more) actuals.
Proof.
  unfold simulate_bankroll, simulate_state. rewrite sim_loop_app.
  apply sim_loop_extends.
Qed.

End LedgerExtras.

(** ** One recommendation per match *)

Section OneSidePerMatch.

Import Strategy Candidate.

Open Scope Q_scope.

Variable cfg : Config.
Variable df : DataFrame.
Variable prob_df : ProbFrame.

Hypothesis floor_above_half : 1 # 2 < min_prob_threshold cfg.
Hypothesis complementary :
  forall idx, prob_under25 prob_df idx == 1 - prob_over25 prob_df idx.

(** The recommendations of one match: at most one, on that match. *)
Definition match_block (idx : Z) : list BetRecommendation :=
  flat_map (fun s =>
              admitted_of (fst (run (analyse_candidate cfg df prob_df idx s))))
    [Over25; Under25].

Lemma accepted_above_floor idx s r :
  fst (run (analyse_candidate cfg df prob_df idx s)) = Accepted r ->
  min_prob_threshold cfg <= prob_map s prob_df idx /\ match_index r = idx.
Proof.
  intros Hacc. apply analyse_candidate_accepted in Hacc. cbv zeta in Hacc.
  destruct Hacc as (o & _ & _ & Ha & _ & _ & _ & _ & Hm & _).
  unfold passes_prob, _check_filtro_a in Ha. apply Py.ge_spec in Ha.
  split; assumption.
Qed.

Lemma match_block_at_most_one idx :
  match_block idx = [] \/
  exists r, match_block idx = [r] /\ match_index r = idx.
Proof.
  unfold match_block. simpl. rewrite app_nil_r.
  destruct (fst (run (analyse_candidate cfg df prob_df idx Over25)))
    as [e1|r1] eqn:E1;
    destruct (fst (run (analyse_candidate cfg df prob_df idx Under25)))
      as [e2|r2] eqn:E2; simpl.
  - left. reflexivity.
  - right. exists r2. split; [reflexivity|].
    apply (accepted_above_floor idx Under25 r2 E2).
  - right. exists r1. split; [reflexivity|].
    apply (accepted_above_floor idx Over25 r1 E1).
  - exfalso.
    destruct (accepted_above_floor idx Over25 r1 E1) as [H1 _].
    destruct (accepted_above_floor idx Under25 r2 E2) as [H2 _].
    simpl in H1, H2. pose proof (complementary idx). lra.
Qed.

Lemma blocks_nodup (idxs : list Z) :
  NoDup idxs ->
  NoDup (map match_index (flat_map match_block idxs)) /\
  Forall (fun i => i ∈ idxs) (map match_index (flat_map match_block idxs)).
Proof.
  induction 1 as [|idx t Hnotin Hnd [IHnd IHin]]; simpl.
  - split; constructor.
  - rewrite map_app.
    destruct (match_block_at_most_one idx) as [->|(r & -> & Hr)]; simpl.
    + split; [exact IHnd|].
      eapply Forall_impl; [exact IHin|]. intros i Hi. right. exact Hi.
    + rewrite Hr. split.
      * constructor; [|exact IHnd]. intros Hin.
        rewrite Forall_forall in IHin. apply Hnotin, IHin, Hin.
      * constructor; [left|].
        eapply Forall_impl; [exact IHin|]. intros i Hi. right. exact Hi.
Qed.

Lemma analyse_one_per_match :
  NoDup (index df) -> NoDup (map match_index (analyse cfg df prob_df)).
Proof.
  intros Hnd. unfold analyse.
  rewrite (sorted_desc_perm ev). apply (blocks_nodup (index df) Hnd).
Qed.

End OneSidePerMatch.

Section OneSideExtras.

Import Strategy.

Open Scope Q_scope.

(** X28: when the two probabilities of a match add up to 1 (as those of
    [predict_proba] do) and the probability floor is above one half, a
    table with unique index labels gets at most one recommendation per
    match, and then every pair made by [pair_doubles] from these
    recommendations joins two different matches. *)
Theorem one_recommendation_per_match
  (cfg : Config) (df : DataFrame) (prob_df : ProbFrame) :
  1 # 2 < min_prob_threshold cfg ->
  (forall idx, prob_under25 prob_df idx == 1 - prob_over25 prob_df idx) ->
  NoDup (index df) ->
  let recs := analyse cfg df prob_df in
  NoDup (map match_index recs) /\
  Forall (fun d => match_index (leg_1 d) <> match_index (leg_2 d))
    (pair_doubles cfg recs).
Proof.
  intros Hfloor Hcompl Hnd. cbv zeta.
  pose proof (analyse_one_per_match cfg df prob_df Hfloor Hcompl Hnd) as Hone.
  split; [exact Hone|].
  unfold pair_doubles.
  destruct (negb (pairing_enabled cfg) || _); [constructor|].
  set (recs := analyse cfg df prob_df) in *.
  destruct (pair_loop_uses_entries_once cfg
              (length (sorted_desc model_prob recs))
              (sorted_desc model_prob recs)) as (unused & Hu).
  apply legs_distinct_of_nodup.
  assert (Hnd' : NoDup (map match_index
                   (flat_map legs
                      (pair_loop cfg (length (sorted_desc model_prob recs))
                         (sorted_desc model_prob recs)) ++ unused))).
  { rewrite Hu, (sorted_desc_perm model_prob). exact Hone. }
  rewrite map_app in Hnd'. apply NoDup_app in Hnd'. apply Hnd'.
Qed.

Lemma one_recommendation_per_match_witness :
  NoDup (map match_index
           (analyse Candidate.lenient_config
              (Candidate.one_match [] (Some (21 # 10)) (Some (18 # 10))
                 (Some 2) (Some (19 # 10)) 0)
              (Candidate.probs (85 # 100)))).
Proof.
  apply (one_recommendation_per_match Candidate.lenient_config).
  - reflexivity.
  - intros idx. reflexivity.
  - simpl. repeat constructor. inversion 1.
Defined.

End OneSideExtras.
